(** * oscrypto: EMSA-PSS padding ([_pkcs1.py]) and TLS handshake parsing ([_tls.py])

    A shallow embedding of the two modules and the properties of their
    specification.  Python integers are [Z]; byte strings are [list byte];
    a call that may raise returns a [result]. *)

From Stdlib Require Import Strings.String Strings.Ascii Strings.Byte.
From Stdlib Require Import ZArith List Bool Lia.
Import ListNotations.

Local Open Scope Z_scope.

(* ================================================================== *)
(** * Python values and builtins *)
(* ================================================================== *)

Module Py.

(** A Python byte string. *)
Definition bytes := list byte.

(** The exception classes the two modules can raise. *)
Inductive exn : Type :=
| ValueError
| TypeError
| KeyError
| StructError.

(** Outcome of a call: a returned value or a raised exception. *)
Inductive result (A : Type) : Type :=
| Return (a : A)
| Raise (e : exn).

Arguments Return {A} a.
Arguments Raise {A} e.

Definition bind {A B : Type} (r : result A) (k : A -> result B) : result B :=
  match r with
  | Return a => k a
  | Raise e => Raise e
  end.

Notation "x <- r ;; k" := (bind r (fun x => k))
  (at level 61, r at next level, right associativity).

(** [ord] of a single byte, and the byte of an integer in [0, 256). *)
Definition Z_of_byte (b : byte) : Z := Z.of_N (Byte.to_N b).

Definition byte_of_Z (z : Z) : byte :=
  match Byte.of_N (Z.to_N (z mod 256)) with
  | Some b => b
  | None => x00
  end.

(** [ord(s)]: TypeError unless [s] has length one. *)
Definition ord (s : bytes) : result Z :=
  match s with
  | [b] => Return (Z_of_byte b)
  | _ => Raise TypeError
  end.

(** [chr_cls(num)], that is [bytes([num])]: ValueError outside [range(256)]. *)
Definition chr_cls (num : Z) : result bytes :=
  if (0 <=? num) && (num <? 256) then Return [byte_of_Z num]
  else Raise ValueError.

(** [len(s)] as a Python integer. *)
Definition len {A : Type} (s : list A) : Z := Z.of_nat (List.length s).

(** A slice bound [i] brought into [0, n]: negative bounds count from the
    end. *)
Definition clamp (n i : Z) : Z :=
  if i <? 0 then Z.max 0 (n + i) else Z.min n i.

(** [s[a:b]], [s[a:]] for integers [a], [b] of either sign. *)
Definition slice {A : Type} (s : list A) (a b : Z) : list A :=
  let lo := clamp (len s) a in
  let hi := clamp (len s) b in
  firstn (Z.to_nat (hi - lo)) (skipn (Z.to_nat lo) s).

Definition slice_from {A : Type} (s : list A) (a : Z) : list A :=
  skipn (Z.to_nat (clamp (len s) a)) s.

(** [b * n] for a one-byte string [b]: empty when [n <= 0]. *)
Definition bytes_mul (b : byte) (n : Z) : bytes := repeat b (Z.to_nat n).

(** [c * n] for a one-character string. *)
Fixpoint str_repeat (c : ascii) (n : nat) : string :=
  match n with
  | O => EmptyString
  | S n' => String c (str_repeat c n')
  end.

Definition str_mul (c : ascii) (n : Z) : string := str_repeat c (Z.to_nat n).

Fixpoint int_base2_acc (s : string) (acc : Z) : result Z :=
  match s with
  | EmptyString => Return acc
  | String c s' =>
      if Ascii.eqb c "0" then int_base2_acc s' (2 * acc)
      else if Ascii.eqb c "1" then int_base2_acc s' (2 * acc + 1)
      else Raise ValueError
  end.

(** [int(s, 2)] on a string of binary digits: ValueError on the empty
    string and on any other character. *)
Definition int_base2 (s : string) : result Z :=
  match s with
  | EmptyString => Raise ValueError
  | _ => int_base2_acc s 0
  end.

(** [a >> n]: ValueError on a negative shift count. *)
Definition rshift (a n : Z) : result Z :=
  if n <? 0 then Raise ValueError else Return (Z.shiftr a n).

(** [int(math.ceil(a / b))] for [0 <= a] and [0 < b].  The quotient of the
    true division is a double, the exact quotient rounded to nearest; for
    [a < 2^47] and [b <= 64] its ceiling is the ceiling of the exact
    quotient, which is what this definition computes. *)
Definition ceil_div (a b : Z) : Z := (a + b - 1) / b.

(** Equality of byte strings, [==] and [!=]. *)
Fixpoint bytes_eqb (a b : bytes) : bool :=
  match a, b with
  | [], [] => true
  | x :: a', y :: b' => Byte.eqb x y && bytes_eqb a' b'
  | _, _ => false
  end.

(** [struct.Struct(b'>I').pack(n)]: four bytes, big-endian; struct.error
    outside [0, 2^32). *)
Definition pack_I (n : Z) : result bytes :=
  if (0 <=? n) && (n <? 2 ^ 32) then
    Return [byte_of_Z (Z.shiftr n 24); byte_of_Z (Z.shiftr n 16);
            byte_of_Z (Z.shiftr n 8); byte_of_Z n]
  else Raise StructError.

End Py.

Import Py.

(* ================================================================== *)
(** * Integer and comparison helpers ([_int.py], [util.py]) *)
(* ================================================================== *)

Module Int_.

(** Modelled from the spec: [oscrypto/_int.py] is not among the sources.
    [int_from_bytes] reads a byte string as an unsigned big-endian integer
    (the empty string is 0); [asn1crypto.util.int_from_bytes], which
    [_tls.py] imports, is the same function. *)
Definition int_from_bytes (value : bytes) : Z :=
  fold_left (fun acc b => acc * 256 + Z_of_byte b) value 0.

(** The [width] low-order bytes of [value], most significant first. *)
Fixpoint to_bytes (width : nat) (value : Z) : bytes :=
  match width with
  | O => []
  | S w => to_bytes w (value / 256) ++ [byte_of_Z (value mod 256)]
  end.

(** [value.bit_length()] for [0 <= value]. *)
Definition bit_length (value : Z) : Z :=
  if value <=? 0 then 0 else Z.log2 value + 1.

(** Modelled from the spec: [oscrypto/_int.py] is not among the sources.
    [int_to_bytes] writes a non-negative integer as the shortest unsigned
    big-endian byte string, one zero byte for 0 (the spec's
    arbitrary-precision XOR of byte strings, section 9). *)
Definition int_to_bytes (value : Z) : bytes :=
  to_bytes (Z.to_nat (Z.max 1 (ceil_div (bit_length value) 8))) value.

(** Modelled from the spec: [oscrypto/_int.py] is not among the sources.
    [fill_width] left-pads a byte string with zero bytes up to [width]
    (the spec's re-pad after the XOR, section 9). *)
Definition fill_width (bytes_ : bytes) (width : Z) : bytes :=
  bytes_mul x00 (width - len bytes_) ++ bytes_.

End Int_.

Module Util.

(** Modelled from the spec: [oscrypto/util.py] is not among the sources.
    [constant_compare] is the constant-time comparator of section 6: false
    on strings of different lengths, otherwise the OR of the XORs of all
    byte pairs is compared with 0, without leaving the loop early. *)
Definition constant_compare (a b : bytes) : bool :=
  if negb (len a =? len b) then false
  else
    fold_left (fun r xy => Z.lor r (Z.lxor (Z_of_byte (fst xy)) (Z_of_byte (snd xy))))
              (combine a b) 0 =? 0.

End Util.

Import Int_ Util.

(* ================================================================== *)
(** * [hashlib]: SHA-1 and SHA-2 (FIPS 180-4) *)
(* ================================================================== *)

Module Hashlib.

(** Arithmetic on [w]-bit words. *)
Definition wadd (w a b : Z) : Z := (a + b) mod 2 ^ w.
Definition wnot (w a : Z) : Z := 2 ^ w - 1 - a.
Definition rotl (w a n : Z) : Z :=
  Z.lor (Z.shiftl a n mod 2 ^ w) (Z.shiftr a (w - n)).
Definition rotr (w a n : Z) : Z := rotl w a (w - n).

(** Big-endian bytes of a 32-bit and of a 64-bit word. *)
Definition be32 (x : Z) : bytes :=
  [byte_of_Z (Z.shiftr x 24); byte_of_Z (Z.shiftr x 16);
   byte_of_Z (Z.shiftr x 8); byte_of_Z x].

Definition be64 (x : Z) : bytes := be32 (Z.shiftr x 32) ++ be32 x.

(** The message followed by 0x80, zero bytes and its length in bits, a
    whole number of [block]-byte blocks; the length takes [lenbytes]
    bytes. *)
Definition pad (block lenbytes : Z) (m : bytes) : bytes :=
  m ++ [x80]
    ++ bytes_mul x00 ((block - lenbytes - 1 - len m) mod block)
    ++ to_bytes (Z.to_nat lenbytes) (8 * len m).

(** Consecutive pieces of [n] elements; [fuel] bounds their number. *)
Fixpoint chunks {A : Type} (fuel n : nat) (l : list A) : list (list A) :=
  match fuel, l with
  | O, _ => []
  | _, [] => []
  | S f, _ => firstn n l :: chunks f n (skipn n l)
  end.

Definition words_of (wbytes : nat) (block : bytes) : list Z :=
  map int_from_bytes (chunks (List.length block) wbytes block).

Definition blocks_of (block lenbytes : Z) (m : bytes) : list (list Z) :=
  let p := pad block lenbytes m in
  map (words_of (Z.to_nat (lenbytes / 2)))
      (chunks (List.length p) (Z.to_nat block) p).

(** The message schedule, latest word first: [rev_w] holds W[t-1], W[t-2],
    ... and [next] computes W[t] from it. *)
Fixpoint schedule (next : list Z -> Z) (n : nat) (rev_w : list Z) : list Z :=
  match n with
  | O => rev_w
  | S n' => schedule next n' (next rev_w :: rev_w)
  end.

(** ** SHA-1 *)

Definition sha1_next (rev_w : list Z) : Z :=
  rotl 32 (Z.lxor (Z.lxor (nth 2 rev_w 0) (nth 7 rev_w 0))
                  (Z.lxor (nth 13 rev_w 0) (nth 15 rev_w 0))) 1.

Definition sha1_state : Type := (Z * Z * Z * Z * Z)%type.

Definition sha1_f (t : nat) (b c d : Z) : Z :=
  if (t <? 20)%nat then Z.lor (Z.land b c) (Z.land (wnot 32 b) d)
  else if (t <? 40)%nat then Z.lxor (Z.lxor b c) d
  else if (t <? 60)%nat then
    Z.lor (Z.lor (Z.land b c) (Z.land b d)) (Z.land c d)
  else Z.lxor (Z.lxor b c) d.

Definition sha1_k (t : nat) : Z :=
  if (t <? 20)%nat then 0x5a827999
  else if (t <? 40)%nat then 0x6ed9eba1
  else if (t <? 60)%nat then 0x8f1bbcdc
  else 0xca62c1d6.

Definition sha1_round (s : sha1_state) (tw : nat * Z) : sha1_state :=
  let '(a, b, c, d, e) := s in
  let '(t, w) := tw in
  let tmp :=
    wadd 32 (wadd 32 (wadd 32 (wadd 32 (rotl 32 a 5) (sha1_f t b c d)) e)
                     (sha1_k t)) w in
  (tmp, a, rotl 32 b 30, c, d).

Definition sha1_block (s : sha1_state) (block : list Z) : sha1_state :=
  let w := rev (schedule sha1_next 64 (rev block)) in
  let '(a, b, c, d, e) := s in
  let '(a', b', c', d', e') :=
    fold_left sha1_round (combine (seq 0 80) w) s in
  (wadd 32 a a', wadd 32 b b', wadd 32 c c', wadd 32 d d', wadd 32 e e').

Definition sha1_init : sha1_state :=
  (0x67452301, 0xefcdab89, 0x98badcfe, 0x10325476, 0xc3d2e1f0).

Definition sha1 (m : bytes) : bytes :=
  let '(a, b, c, d, e) := fold_left sha1_block (blocks_of 64 8 m) sha1_init in
  be32 a ++ be32 b ++ be32 c ++ be32 d ++ be32 e.

(** ** SHA-2: one compression function for 32-bit and 64-bit words *)

Record sha2_params : Type := {
  wbits : Z;                 (* word size *)
  konst : list Z;            (* round constants, one per round *)
  big0 : Z * Z * Z;          (* rotations of Sigma0 *)
  big1 : Z * Z * Z;          (* rotations of Sigma1 *)
  small0 : Z * Z * Z;        (* sigma0: two rotations and a shift *)
  small1 : Z * Z * Z         (* sigma1: two rotations and a shift *)
}.

Definition sha2_state : Type := (Z * Z * Z * Z * Z * Z * Z * Z)%type.

Definition big_sigma (w : Z) (r : Z * Z * Z) (x : Z) : Z :=
  let '(r1, r2, r3) := r in
  Z.lxor (Z.lxor (rotr w x r1) (rotr w x r2)) (rotr w x r3).

Definition small_sigma (w : Z) (r : Z * Z * Z) (x : Z) : Z :=
  let '(r1, r2, sh) := r in
  Z.lxor (Z.lxor (rotr w x r1) (rotr w x r2)) (Z.shiftr x sh).

Definition sha2_next (P : sha2_params) (rev_w : list Z) : Z :=
  let w := wbits P in
  wadd w (wadd w (small_sigma w (small1 P) (nth 1 rev_w 0)) (nth 6 rev_w 0))
         (wadd w (small_sigma w (small0 P) (nth 14 rev_w 0)) (nth 15 rev_w 0)).

Definition sha2_round (P : sha2_params) (s : sha2_state) (kw : Z * Z)
  : sha2_state :=
  let w := wbits P in
  let '(a, b, c, d, e, f, g, h) := s in
  let '(k, wt) := kw in
  let ch := Z.lxor (Z.land e f) (Z.land (wnot w e) g) in
  let maj := Z.lxor (Z.lxor (Z.land a b) (Z.land a c)) (Z.land b c) in
  let t1 :=
    wadd w (wadd w (wadd w (wadd w h (big_sigma w (big1 P) e)) ch) k) wt in
  let t2 := wadd w (big_sigma w (big0 P) a) maj in
  (wadd w t1 t2, a, b, c, wadd w d t1, e, f, g).

Definition sha2_block (P : sha2_params) (s : sha2_state) (block : list Z)
  : sha2_state :=
  let w := wbits P in
  let ws :=
    rev (schedule (sha2_next P) (List.length (konst P) - 16) (rev block)) in
  let '(a, b, c, d, e, f, g, h) := s in
  let '(a', b', c', d', e', f', g', h') :=
    fold_left (sha2_round P) (combine (konst P) ws) s in
  (wadd w a a', wadd w b b', wadd w c c', wadd w d d',
   wadd w e e', wadd w f f', wadd w g g', wadd w h h').

Definition sha2 (P : sha2_params) (init : sha2_state) (m : bytes)
  : sha2_state :=
  fold_left (sha2_block P) (blocks_of (wbits P * 2) (wbits P / 4) m) init.

(** The first primes, by trial division. *)
Fixpoint primes_from (fuel : nat) (k : Z) (found : list Z) (n : nat)
  : list Z :=
  match n, fuel with
  | O, _ => found
  | _, O => found
  | S n', S fuel' =>
      if forallb (fun p => negb (k mod p =? 0)) found
      then primes_from fuel' (k + 1) (found ++ [k]) n'
      else primes_from fuel' (k + 1) found n
  end.

Definition primes (n : nat) : list Z := primes_from 512 2 [] n.

(** The integer cube root, one bit at a time from bit [bits - 1] down. *)
Fixpoint cbrt_bits (bits : nat) (n r : Z) : Z :=
  match bits with
  | O => r
  | S b =>
      let r' := r + 2 ^ Z.of_nat b in
      if r' * r' * r' <=? n then cbrt_bits b n r' else cbrt_bits b n r
  end.

Definition cbrt (n : Z) : Z := cbrt_bits 80 n 0.

(** The first [w] bits of the fractional part of the cube root and of the
    square root of [p], and the [w] bits after the first [skip] bits of
    the latter (FIPS 180-4, sections 4.2 and 5.3). *)
Definition frac_cbrt (w p : Z) : Z := cbrt (p * 2 ^ (3 * w)) mod 2 ^ w.

Definition frac_sqrt (skip w p : Z) : Z :=
  Z.sqrt (p * 2 ^ (2 * (skip + w))) mod 2 ^ w.

Definition state_of (l : list Z) : sha2_state :=
  (nth 0 l 0, nth 1 l 0, nth 2 l 0, nth 3 l 0,
   nth 4 l 0, nth 5 l 0, nth 6 l 0, nth 7 l 0).

Definition params256 : sha2_params := {|
  wbits := 32;
  konst := map (frac_cbrt 32) (primes 64);
  big0 := (2, 13, 22);
  big1 := (6, 11, 25);
  small0 := (7, 18, 3);
  small1 := (17, 19, 10)
|}.

Definition params512 : sha2_params := {|
  wbits := 64;
  konst := map (frac_cbrt 64) (primes 80);
  big0 := (28, 34, 39);
  big1 := (14, 18, 41);
  small0 := (1, 8, 7);
  small1 := (19, 61, 6)
|}.

(** Initial hash values: from the square roots of the first eight primes
    (SHA-256, SHA-512) and of the ninth to the sixteenth (SHA-224, the
    second 32 bits; SHA-384). *)
Definition sha256_init : sha2_state :=
  state_of (map (frac_sqrt 0 32) (primes 8)).

Definition sha224_init : sha2_state :=
  state_of (map (frac_sqrt 32 32) (skipn 8 (primes 16))).

Definition sha512_init : sha2_state :=
  state_of (map (frac_sqrt 0 64) (primes 8)).

Definition sha384_init : sha2_state :=
  state_of (map (frac_sqrt 0 64) (skipn 8 (primes 16))).

Definition sha256 (m : bytes) : bytes :=
  let '(a, b, c, d, e, f, g, h) := sha2 params256 sha256_init m in
  be32 a ++ be32 b ++ be32 c ++ be32 d ++ be32 e ++ be32 f ++ be32 g ++ be32 h.

Definition sha224 (m : bytes) : bytes :=
  let '(a, b, c, d, e, f, g, _) := sha2 params256 sha224_init m in
  be32 a ++ be32 b ++ be32 c ++ be32 d ++ be32 e ++ be32 f ++ be32 g.

Definition sha512 (m : bytes) : bytes :=
  let '(a, b, c, d, e, f, g, h) := sha2 params512 sha512_init m in
  be64 a ++ be64 b ++ be64 c ++ be64 d ++ be64 e ++ be64 f ++ be64 g ++ be64 h.

Definition sha384 (m : bytes) : bytes :=
  let '(a, b, c, d, e, f, _, _) := sha2 params512 sha384_init m in
  be64 a ++ be64 b ++ be64 c ++ be64 d ++ be64 e ++ be64 f.

(** [getattr(hashlib, name)(data).digest()] for the five names the
    padding code accepts; the empty string for any other name, which the
    code rejects before it reaches [hashlib]. *)
Definition digest (name : string) (data : bytes) : bytes :=
  if String.eqb name "sha1" then sha1 data
  else if String.eqb name "sha224" then sha224 data
  else if String.eqb name "sha256" then sha256 data
  else if String.eqb name "sha384" then sha384 data
  else if String.eqb name "sha512" then sha512 data
  else [].

End Hashlib.

(** [bytes.fromhex], for writing test vectors. *)
Module Hex.

Definition digit (c : ascii) : Z :=
  let n := Z.of_nat (nat_of_ascii c) in
  if (48 <=? n) && (n <=? 57) then n - 48
  else if (97 <=? n) && (n <=? 102) then n - 87
  else 0.

Fixpoint unhex (s : string) : bytes :=
  match s with
  | String hi (String lo s') =>
      byte_of_Z (16 * digit hi + digit lo) :: unhex s'
  | _ => []
  end.

End Hex.


(* ================================================================== *)
(** * [oscrypto/_pkcs1.py] *)
(* ================================================================== *)

Module Pkcs1.

Section WithHashlib.

(** [hashlib name data] is [getattr(hashlib, name)(data).digest()]. *)
Variable hashlib : string -> bytes -> bytes.

(** The tuple of names every entry point tests [hash_algorithm] against. *)
Definition hash_algorithms : list string :=
  ["sha1"; "sha224"; "sha256"; "sha384"; "sha512"]%string.

Definition supported (hash_algorithm : string) : bool :=
  existsb (String.eqb hash_algorithm) hash_algorithms.

(** The dictionary literal of [mgf1] (lines 234-240). *)
Definition hash_length_table : list (string * Z) :=
  [("sha1", 20); ("sha224", 28); ("sha256", 32); ("sha384", 48);
   ("sha512", 64)]%string.

Fixpoint dict_get {V : Type} (d : list (string * V)) (k : string) : result V :=
  match d with
  | [] => Raise KeyError
  | (k', v) :: d' => if String.eqb k k' then Return v else dict_get d' k
  end.

(** The loop of [mgf1] (lines 247-249): [n] iterations are left, the next
    one packs [counter]. *)
Fixpoint mgf1_loop (hash_algorithm : string) (seed : bytes) (n : nat)
  (counter : Z) (output : bytes) : result bytes :=
  match n with
  | O => Return output
  | S n' =>
      b <- pack_I counter ;;
      mgf1_loop hash_algorithm seed n' (counter + 1)
                (output ++ hashlib hash_algorithm (seed ++ b))
  end.

Definition mgf1 (hash_algorithm : string) (seed : bytes) (mask_length : Z)
  : result bytes :=
  if mask_length <? 1 then Raise ValueError
  else if negb (supported hash_algorithm) then Raise ValueError
  else
    hash_length <- dict_get hash_length_table hash_algorithm ;;
    let iterations := ceil_div mask_length hash_length in
    output <- mgf1_loop hash_algorithm seed (Z.to_nat iterations) 0 [] ;;
    Return (slice output 0 mask_length).

(** Lines 99-104 and 176-180: the bit mask that keeps the low
    [8 - zero_bits] bits of a byte. *)
Definition left_int_mask_of (zero_bits : Z) : result Z :=
  let left_bit_mask :=
    (str_mul "0" zero_bits ++ str_mul "1" (8 - zero_bits))%string in
  int_base2 left_bit_mask.

(** [chr_cls(left_int_mask & ord(s[0:1])) + s[1:]] when the mask is not
    255, [s] itself otherwise. *)
Definition mask_first_byte (left_int_mask : Z) (s : bytes) : result bytes :=
  if negb (left_int_mask =? 255) then
    first <- ord (slice s 0 1) ;;
    c <- chr_cls (Z.land left_int_mask first) ;;
    Return (c ++ slice_from s 1)
  else Return s.

(** [urandom n] is [os.urandom(n)]. *)
Definition add_pss_padding (urandom : Z -> bytes) (hash_algorithm : string)
  (salt_length key_length : Z) (message : bytes) : result bytes :=
  if salt_length <? 0 then Raise ValueError
  else if key_length <? 512 then Raise ValueError
  else if negb (supported hash_algorithm) then Raise ValueError
  else
    let hash_func := hashlib hash_algorithm in
    let em_bits := key_length - 1 in
    let em_len := ceil_div em_bits 8 in
    let message_digest := hash_func message in
    let hash_length := len message_digest in
    if em_len <? hash_length + salt_length + 2 then Raise ValueError
    else
      let salt := if salt_length >? 0 then urandom salt_length else [] in
      let m_prime := bytes_mul x00 8 ++ message_digest ++ salt in
      let m_prime_digest := hash_func m_prime in
      let padding := bytes_mul x00 (em_len - salt_length - hash_length - 2) in
      let db := padding ++ [x01] ++ salt in
      db_mask <- mgf1 hash_algorithm m_prime_digest (em_len - hash_length - 1) ;;
      let masked_db :=
        int_to_bytes (Z.lxor (int_from_bytes db) (int_from_bytes db_mask)) in
      let masked_db := fill_width masked_db (len db_mask) in
      let zero_bits := 8 * em_len - em_bits in
      left_int_mask <- left_int_mask_of zero_bits ;;
      masked_db <- mask_first_byte left_int_mask masked_db ;;
      Return (masked_db ++ m_prime_digest ++ [xbc]).

(** Lines 133-184 of [verify_pss_padding]: the checks on the signature and
    the recovery of the data block.  [None] stands for an early
    [return False]; otherwise the result is [db] as it is after line 184. *)
Definition recover_db (hash_algorithm : string) (salt_length key_length : Z)
  (message signature : bytes) : result (option bytes) :=
  if salt_length <? 0 then Raise ValueError
  else if negb (supported hash_algorithm) then Raise ValueError
  else
    let hash_func := hashlib hash_algorithm in
    let em_bits := key_length - 1 in
    let em_len := ceil_div em_bits 8 in
    let message_digest := hash_func message in
    let hash_length := len message_digest in
    if em_len <? hash_length + salt_length + 2 then Return None
    else if negb (bytes_eqb (slice_from signature (-1)) [xbc]) then Return None
    else
      let zero_bits := 8 * em_len - em_bits in
      let masked_db_length := em_len - hash_length - 1 in
      let masked_db := slice signature 0 masked_db_length in
      first_byte <- ord (slice masked_db 0 1) ;;
      bits_that_should_be_zero <- rshift first_byte (8 - zero_bits) ;;
      if negb (bits_that_should_be_zero =? 0) then Return None
      else
        let m_prime_digest :=
          slice signature masked_db_length (masked_db_length + hash_length) in
        db_mask <- mgf1 hash_algorithm m_prime_digest (em_len - hash_length - 1) ;;
        left_int_mask <- left_int_mask_of zero_bits ;;
        db_mask <- mask_first_byte left_int_mask db_mask ;;
        let db :=
          int_to_bytes
            (Z.lxor (int_from_bytes masked_db) (int_from_bytes db_mask)) in
        let db :=
          if len db <? len masked_db
          then bytes_mul x00 (len masked_db - len db) ++ db
          else db in
        Return (Some db).

(** [verify_pss_padding]: [recover_db] (lines 133-184), then lines
    186-200 on the recovered block. *)
Definition verify_pss_padding (hash_algorithm : string)
  (salt_length key_length : Z) (message signature : bytes) : result bool :=
  r <- recover_db hash_algorithm salt_length key_length message signature ;;
  match r with
  | None => Return false
  | Some db =>
      let hash_func := hashlib hash_algorithm in
      let em_len := ceil_div (key_length - 1) 8 in
      let message_digest := hash_func message in
      let hash_length := len message_digest in
      let masked_db_length := em_len - hash_length - 1 in
      let m_prime_digest :=
        slice signature masked_db_length (masked_db_length + hash_length) in
      let zero_length := em_len - hash_length - salt_length - 2 in
      let zero_string := bytes_mul x00 zero_length in
      if negb (constant_compare (slice db 0 zero_length) zero_string)
      then Return false
      else if negb (bytes_eqb (slice db zero_length (zero_length + 1)) [x01])
      then Return false
      else
        let salt := slice_from db (0 - salt_length) in
        let m_prime := bytes_mul x00 8 ++ message_digest ++ salt in
        let h_prime := hash_func m_prime in
        Return (constant_compare m_prime_digest h_prime)
  end.

End WithHashlib.

End Pkcs1.

Import Pkcs1.

(* ================================================================== *)
(** * [oscrypto/_tls.py] *)
(* ================================================================== *)

Module Tls.

(** The dictionary returned by [parse_session_info]. *)
Record session_info : Type := {
  protocol : option string;
  cipher_suite : option string;
  compression : bool;
  session_id : option string;
  session_ticket : option string
}.

(** The local variables of [parse_session_info] that outlive a block. *)
Record locals : Type := {
  l_protocol : option string;
  l_cipher_suite : option string;
  l_compression : bool;
  l_session_ticket : option string;
  l_server_session_id : option bytes;
  l_client_session_id : option bytes
}.

(** Lines 111-118. *)
Definition initial_locals : locals := {|
  l_protocol := None;
  l_cipher_suite := None;
  l_compression := false;
  l_session_ticket := None;
  l_server_session_id := None;
  l_client_session_id := None
|}.

(** Subscript of a dictionary keyed by byte strings: KeyError when the key
    is missing. *)
Fixpoint bytes_dict_get {V : Type} (d : list (bytes * V)) (k : bytes)
  : result V :=
  match d with
  | [] => Raise KeyError
  | (k', v) :: d' => if bytes_eqb k k' then Return v else bytes_dict_get d' k
  end.

(** The dictionary literal of lines 127-133. *)
Definition protocol_table : list (bytes * string) :=
  [([x03; x00], "SSLv3"); ([x03; x01], "TLSv1"); ([x03; x02], "TLSv1.1");
   ([x03; x03], "TLSv1.2"); ([x03; x04], "TLSv1.3")]%string.

(** The record-scanning loop of [extract_chain] (lines 27-37, with
    [want = b'\x0b']) and of [get_dh_params_length] (lines 70-80, with
    [want = b'\x0c']).  [Some message_bytes] when the loop leaves by
    [break], [None] when [found] stays false.  [fuel] bounds the number of
    iterations; the pointer grows by at least 5 in each, so the length of
    the buffer is never used up. *)
Fixpoint find_message (want : bytes) (server_handshake_bytes : bytes)
  (fuel : nat) (pointer : Z) : option bytes :=
  if pointer <? len server_handshake_bytes then
    match fuel with
    | O => None
    | S fuel' =>
        let record_header :=
          slice server_handshake_bytes pointer (pointer + 5) in
        let record_type := slice record_header 0 1 in
        let record_length := int_from_bytes (slice_from record_header 3) in
        let sub_type :=
          slice server_handshake_bytes (pointer + 5) (pointer + 6) in
        if bytes_eqb record_type [x16] && bytes_eqb sub_type want then
          Some (slice server_handshake_bytes (pointer + 5)
                      (pointer + 5 + record_length))
        else
          find_message want server_handshake_bytes fuel'
                       (pointer + 5 + record_length)
    end
  else None.

(** The extension loops of lines 152-157 and 185-190: [mark] is the value
    an extension of type 35 gives [session_ticket]. *)
Fixpoint scan_extensions (tls_record : bytes) (extensions_end : Z)
  (mark : string) (fuel : nat) (extension_start : Z)
  (session_ticket : option string) : option string :=
  if extension_start <? extensions_end then
    match fuel with
    | O => session_ticket
    | S fuel' =>
        let extension_type :=
          int_from_bytes
            (slice tls_record extension_start (extension_start + 2)) in
        let extension_length :=
          int_from_bytes
            (slice tls_record (extension_start + 2) (extension_start + 4)) in
        let session_ticket :=
          if extension_type =? 35 then Some mark else session_ticket in
        scan_extensions tls_record extensions_end mark fuel'
                        (extension_start + 4 + extension_length)
                        session_ticket
    end
  else session_ticket.

(** Lines 146-157 and 179-190: the optional extensions block that starts
    at [extensions_length_start]. *)
Definition scan_extension_block (tls_record : bytes)
  (extensions_length_start : Z) (mark : string)
  (session_ticket : option string) : option string :=
  if extensions_length_start <? len tls_record then
    let extentions_length :=
      int_from_bytes
        (slice tls_record extensions_length_start
               (extensions_length_start + 2)) in
    let extensions_start := extensions_length_start + 2 in
    let extensions_end := extensions_start + extentions_length in
    scan_extensions tls_record extensions_end mark
                    (Z.to_nat extentions_length) extensions_start
                    session_ticket
  else session_ticket.

Section WithCollaborators.

(** [asn1crypto.x509.Certificate] and its [load], which may raise. *)
Variable Certificate : Type.
Variable Certificate_load : bytes -> result Certificate.

(** [_cipher_suites.CIPHER_SUITE_MAP], bundled data that is not among the
    sources: a dictionary from two-byte codes to names. *)
Variable CIPHER_SUITE_MAP : list (bytes * string).

(** The certificate loop of [extract_chain] (lines 42-49). *)
Fixpoint load_certificates (message_bytes : bytes) (fuel : nat)
  (pointer : Z) (output : list Certificate) : result (list Certificate) :=
  if pointer <? len message_bytes then
    match fuel with
    | O => Return output
    | S fuel' =>
        let cert_length :=
          int_from_bytes (slice message_bytes pointer (pointer + 3)) in
        let cert_start := pointer + 3 in
        let cert_end := cert_start + cert_length in
        let cert_bytes := slice message_bytes cert_start cert_end in
        cert <- Certificate_load cert_bytes ;;
        load_certificates message_bytes fuel' cert_end (output ++ [cert])
    end
  else Return output.

Definition extract_chain (server_handshake_bytes : bytes)
  : result (list Certificate) :=
  match find_message [x0b] server_handshake_bytes
                     (List.length server_handshake_bytes) 0 with
  | Some message_bytes =>
      load_certificates message_bytes (List.length message_bytes) 7 []
  | None => Return []
  end.

Definition get_dh_params_length (server_handshake_bytes : bytes) : option Z :=
  match find_message [x0c] server_handshake_bytes
                     (List.length server_handshake_bytes) 0 with
  | Some message_bytes => Some (int_from_bytes (slice message_bytes 4 6) * 8)
  | None => None
  end.

(** Lines 120-157: the ServerHello block. *)
Definition server_block (server_handshake_bytes : bytes) (st : locals)
  : result locals :=
  if bytes_eqb (slice server_handshake_bytes 0 1) [x16] then
    let server_tls_record_header := slice server_handshake_bytes 0 5 in
    let server_tls_record_length :=
      int_from_bytes (slice_from server_tls_record_header 3) in
    let server_tls_record :=
      slice server_handshake_bytes 5 (5 + server_tls_record_length) in
    if bytes_eqb (slice server_tls_record 0 1) [x02] then
      protocol <- bytes_dict_get protocol_table (slice server_tls_record 4 6) ;;
      let session_id_length :=
        int_from_bytes (slice server_tls_record 38 39) in
      let server_session_id :=
        if session_id_length >? 0
        then Some (slice server_tls_record 39 (39 + session_id_length))
        else l_server_session_id st in
      let cipher_suite_start := 39 + session_id_length in
      let cipher_suite_bytes :=
        slice server_tls_record cipher_suite_start (cipher_suite_start + 2) in
      cipher_suite <- bytes_dict_get CIPHER_SUITE_MAP cipher_suite_bytes ;;
      let compression_start := cipher_suite_start + 2 in
      let compression :=
        negb (bytes_eqb (slice server_tls_record compression_start
                               (compression_start + 1)) [x00]) in
      let extensions_length_start := compression_start + 1 in
      let session_ticket :=
        scan_extension_block server_tls_record extensions_length_start
                             "new" (l_session_ticket st) in
      Return {| l_protocol := Some protocol;
                l_cipher_suite := Some cipher_suite;
                l_compression := compression;
                l_session_ticket := session_ticket;
                l_server_session_id := server_session_id;
                l_client_session_id := l_client_session_id st |}
    else Return st
  else Return st.

(** Lines 159-190: the ClientHello block. *)
Definition client_block (client_handshake_bytes : bytes) (st : locals)
  : locals :=
  if bytes_eqb (slice client_handshake_bytes 0 1) [x16] then
    let client_tls_record_header := slice client_handshake_bytes 0 5 in
    let client_tls_record_length :=
      int_from_bytes (slice_from client_tls_record_header 3) in
    let client_tls_record :=
      slice client_handshake_bytes 5 (5 + client_tls_record_length) in
    if bytes_eqb (slice client_tls_record 0 1) [x01] then
      let session_id_length :=
        int_from_bytes (slice client_tls_record 38 39) in
      let client_session_id :=
        if session_id_length >? 0
        then Some (slice client_tls_record 39 (39 + session_id_length))
        else l_client_session_id st in
      let cipher_suite_start := 39 + session_id_length in
      let cipher_suite_length :=
        int_from_bytes
          (slice client_tls_record cipher_suite_start
                 (cipher_suite_start + 2)) in
      let compression_start := cipher_suite_start + 2 + cipher_suite_length in
      let compression_length :=
        int_from_bytes
          (slice client_tls_record compression_start (compression_start + 1)) in
      let session_ticket :=
        match l_server_session_id st, l_session_ticket st with
        | None, None =>
            let extensions_length_start :=
              compression_start + 1 + compression_length in
            scan_extension_block client_tls_record extensions_length_start
                                 "reused" (l_session_ticket st)
        | _, _ => l_session_ticket st
        end in
      {| l_protocol := l_protocol st;
         l_cipher_suite := l_cipher_suite st;
         l_compression := l_compression st;
         l_session_ticket := session_ticket;
         l_server_session_id := l_server_session_id st;
         l_client_session_id := client_session_id |}
    else st
  else st.

(** Lines 192-199: [session_id] from the two session ids. *)
Definition reconcile (st : locals) : option string :=
  match l_server_session_id st with
  | Some server_session_id =>
      match l_client_session_id st with
      | None => Some "new"%string
      | Some client_session_id =>
          if negb (bytes_eqb client_session_id server_session_id)
          then Some "new"%string
          else Some "reused"%string
      end
  | None => None
  end.

Definition parse_session_info (server_handshake_bytes
  client_handshake_bytes : bytes) : result session_info :=
  st <- server_block server_handshake_bytes initial_locals ;;
  let st := client_block client_handshake_bytes st in
  Return {| protocol := l_protocol st;
            cipher_suite := l_cipher_suite st;
            compression := l_compression st;
            session_id := reconcile st;
            session_ticket := l_session_ticket st |}.

End WithCollaborators.

End Tls.

Import Tls.

(* ================================================================== *)
(** * Vocabulary of the specification *)
(* ================================================================== *)

Module Spec.

(** The digest length of a supported algorithm (section 3 of the
    specification: 20, 28, 32, 48, 64), as [mgf1] tabulates it. *)
Definition digest_size (hash_algorithm : string) : Z :=
  match dict_get hash_length_table hash_algorithm with
  | Return n => n
  | Raise _ => 0
  end.

(** [em_len = ceil((key_length - 1) / 8)] and the number of bits of the
    first byte that lie above [em_bits]. *)
Definition em_len (key_length : Z) : Z := ceil_div (key_length - 1) 8.

Definition zero_bits (key_length : Z) : Z :=
  8 * em_len key_length - (key_length - 1).

(** Byte-wise XOR of two strings, up to the shorter one. *)
Definition xor_byte (x y : byte) : byte :=
  byte_of_Z (Z.lxor (Z_of_byte x) (Z_of_byte y)).

Fixpoint xor_bytes (a b : bytes) : bytes :=
  match a, b with
  | x :: a', y :: b' => xor_byte x y :: xor_bytes a' b'
  | _, _ => []
  end.

(** The string with the top [zb] bits of its first byte cleared. *)
Definition clear_top (zb : Z) (s : bytes) : bytes :=
  match s with
  | [] => []
  | b :: t => byte_of_Z (Z.land (2 ^ (8 - zb) - 1) (Z_of_byte b)) :: t
  end.

(** The four-byte big-endian encoding of a counter. *)
Definition BE32 (c : Z) : bytes :=
  [byte_of_Z (Z.shiftr c 24); byte_of_Z (Z.shiftr c 16);
   byte_of_Z (Z.shiftr c 8); byte_of_Z c].

(** The salt [add_pss_padding] uses. *)
Definition salt_of (urandom : Z -> bytes) (salt_length : Z) : bytes :=
  if salt_length >? 0 then urandom salt_length else [].

Section WithHashlib.

Variable hashlib : string -> bytes -> bytes.

(** [Hash(seed || BE32(counter))] for the counters of [counters], one
    after the other. *)
Definition mgf1_blocks (hash_algorithm : string) (seed : bytes)
  (counters : list nat) : bytes :=
  concat (map (fun c => hashlib hash_algorithm (seed ++ BE32 (Z.of_nat c)))
              counters).

(** The leading [n] bytes of the blocks for counters
    [0 .. ceil(n / hash_len) - 1] (section 4.1). *)
Definition mgf1_mask (hash_algorithm : string) (seed : bytes) (n : Z)
  : bytes :=
  firstn (Z.to_nat n)
    (mgf1_blocks hash_algorithm seed
       (seq 0 (Z.to_nat (ceil_div n (digest_size hash_algorithm))))).

(** The three pieces of an encoding. *)
Definition encoded_db (h : string) (salt : bytes) (k : Z) : bytes :=
  repeat x00 (Z.to_nat (em_len k - len salt - digest_size h - 2))
    ++ [x01] ++ salt.

Definition encoded_digest (h : string) (salt : bytes) (m : bytes) : bytes :=
  hashlib h (repeat x00 8 ++ hashlib h m ++ salt).

Definition encoded_masked_db (h : string) (salt : bytes) (k : Z) (m : bytes)
  : bytes :=
  clear_top (zero_bits k)
    (xor_bytes (encoded_db h salt k)
       (mgf1_mask h (encoded_digest h salt m)
                  (em_len k - digest_size h - 1))).

(** EMSA-PSS encoding with a given salt (section 4.2, steps 5 to 9):
    [maskedDB || H' || 0xBC]. *)
Definition pss_encode (hash_algorithm : string) (salt : bytes)
  (key_length : Z) (message : bytes) : bytes :=
  encoded_masked_db hash_algorithm salt key_length message
    ++ encoded_digest hash_algorithm salt message ++ [xbc].


End WithHashlib.

(** ** TLS records as the scanners see them *)

(** The type byte, the length field and the payload of the record whose
    header starts at [p], and the byte that follows the five-byte
    header. *)
Definition record_type_at (buf : bytes) (p : Z) : bytes :=
  slice (slice buf p (p + 5)) 0 1.

Definition record_length_at (buf : bytes) (p : Z) : Z :=
  int_from_bytes (slice_from (slice buf p (p + 5)) 3).

Definition payload_at (buf : bytes) (p : Z) : bytes :=
  slice buf (p + 5) (p + 5 + record_length_at buf p).

Definition byte_after_header (buf : bytes) (p : Z) : bytes :=
  slice buf (p + 5) (p + 6).

(** A Handshake record (type 0x16) whose payload's first byte is the
    requested sub-type (section 4.4). *)
Definition is_handshake_message (want : bytes) (buf : bytes) (p : Z) : bool :=
  bytes_eqb (record_type_at buf p) [x16]
  && bytes_eqb (slice (payload_at buf p) 0 1) want.

(** A Handshake record whose header is followed by the requested
    sub-type byte, whether or not that byte lies inside the record. *)
Definition starts_message (want : bytes) (buf : bytes) (p : Z) : bool :=
  bytes_eqb (record_type_at buf p) [x16]
  && bytes_eqb (byte_after_header buf p) want.

(** The offsets of the records of a buffer: the first at [p], each next
    one [5 + record_length] further, while inside the buffer. *)
Fixpoint record_walk (fuel : nat) (buf : bytes) (p : Z) : list Z :=
  if p <? len buf then
    match fuel with
    | O => []
    | S fuel' => p :: record_walk fuel' buf (p + 5 + record_length_at buf p)
    end
  else [].

Definition records (buf : bytes) : list Z := record_walk (length buf) buf 0.

(** The session id of a hello message of the given type at the start of
    a buffer (section 4.7): one length byte after the two-byte version
    and the 32-byte random, then the id; absent when the length is 0 or
    the buffer does not start with such a message. *)
Definition hello_session_id (hello : bytes) (buf : bytes) : option bytes :=
  if bytes_eqb (slice buf 0 1) [x16] then
    let tls_record :=
      slice buf 5 (5 + int_from_bytes (slice_from (slice buf 0 5) 3)) in
    if bytes_eqb (slice tls_record 0 1) hello then
      let n := int_from_bytes (slice tls_record 38 39) in
      if n >? 0 then Some (slice tls_record 39 (39 + n)) else None
    else None
  else None.

(** The tie-break table of section 4.7. *)
Definition session_id_table (server_session_id client_session_id
  : option bytes) : option string :=
  match server_session_id, client_session_id with
  | Some _, None => Some "new"%string
  | Some s, Some c =>
      if bytes_eqb s c then Some "reused"%string else Some "new"%string
  | None, _ => None
  end.

End Spec.

Import Spec.

(* ================================================================== *)
(** * Concrete inputs for the examples *)
(* ================================================================== *)

Module Inputs.

(** A deterministic stand-in for [os.urandom]. *)
Definition fixed_urandom (n : Z) : bytes := bytes_mul xa5 n.

Definition abc : bytes := Hex.unhex "616263".

(** The value a call returned; the default of its type when it raised. *)
Definition returned {A : Type} (r : result (list A)) : list A :=
  match r with
  | Return a => a
  | Raise _ => []
  end.

Definition recovered (r : result (option bytes)) : bytes :=
  match r with
  | Return (Some db) => db
  | _ => []
  end.

(** What [add_pss_padding] returns for "abc" with SHA-1, a 20-byte salt
    and a 512-bit key. *)
Definition em_sha1 : bytes :=
  returned (add_pss_padding Hashlib.digest fixed_urandom "sha1" 20 512 abc).

Definition em_sha1_no_salt : bytes :=
  returned (add_pss_padding Hashlib.digest fixed_urandom "sha1" 0 512 []).

(** A signature of [em_len] bytes: 63 zero bytes and the trailer. *)
Definition zero_signature : bytes := repeat x00 63 ++ [xbc].

Definition zero_signature_db : bytes :=
  recovered (recover_db Hashlib.digest "sha1" 20 512 [] zero_signature).

Definition zero_signature_mask : bytes :=
  returned
    (mgf1 Hashlib.digest "sha1" (slice zero_signature 43 (43 + 20)) 43).

(** An empty Handshake record followed by the single byte 0x0c. *)
Definition empty_handshake_then_0c : bytes := Hex.unhex "16030300000c".

(** An empty Handshake record, an empty record of type 0x0c, and a
    ServerKeyExchange message whose p-length field is 0x0100. *)
Definition server_key_exchange_after_empty : bytes :=
  Hex.unhex "1603030000" ++ Hex.unhex "0c03030000"
    ++ Hex.unhex "16030300060c0000020100".

(** The scenario of section 8 for [parse_session_info]. *)
Definition session : bytes := repeat xab 32.

Definition server_hello : bytes :=
  Hex.unhex "160303004a" ++ Hex.unhex "020000460303" ++ repeat x11 32
    ++ [x20] ++ session ++ Hex.unhex "002f00".

Definition client_hello : bytes :=
  Hex.unhex "160301004d" ++ Hex.unhex "010000490303" ++ repeat x22 32
    ++ [x20] ++ session ++ Hex.unhex "0002002f" ++ Hex.unhex "0100".

Definition cipher_suites : list (bytes * string) :=
  [([x00; x2f], "TLS_RSA_WITH_AES_128_CBC_SHA"%string)].

Definition reused_session_info : session_info := {|
  protocol := Some "TLSv1.2"%string;
  cipher_suite := Some "TLS_RSA_WITH_AES_128_CBC_SHA"%string;
  compression := false;
  session_id := Some "reused"%string;
  session_ticket := None
|}.

(** The other rows of the table: a client without a session id, a client
    with another session id, and a server without one. *)
Definition client_hello_without_session : bytes :=
  Hex.unhex "160301002d" ++ Hex.unhex "010000290303" ++ repeat x22 32
    ++ [x00] ++ Hex.unhex "0002002f" ++ Hex.unhex "0100".

Definition client_hello_other_session : bytes :=
  Hex.unhex "160301004d" ++ Hex.unhex "010000490303" ++ repeat x22 32
    ++ [x20] ++ repeat xcd 32 ++ Hex.unhex "0002002f" ++ Hex.unhex "0100".

Definition server_hello_without_session : bytes :=
  Hex.unhex "160303002a" ++ Hex.unhex "020000260303" ++ repeat x11 32
    ++ [x00] ++ Hex.unhex "002f00".

End Inputs.

Import Inputs.

(* ================================================================== *)
(** * The TLS wire format, for stating what the parsers decode *)
(* ================================================================== *)

Module Wire.

(** A record of the TLS record layer: content type, two version bytes and
    payload. *)
Record tls_record : Type := {
  r_type : byte;
  r_version : bytes;
  r_payload : bytes
}.

(** The record on the wire: type, version, two-byte big-endian length,
    payload. *)
Definition encode_record (r : tls_record) : bytes :=
  [r_type r] ++ r_version r ++ to_bytes 2 (len (r_payload r)) ++ r_payload r.

Definition encode_records (rs : list tls_record) : bytes :=
  concat (map encode_record rs).

(** Two version bytes and a payload that is not empty and whose length
    fits the length field. *)
Definition well_formed (r : tls_record) : Prop :=
  length (r_version r) = 2%nat /\ 0 < len (r_payload r) < 2 ^ 16.

(** A Handshake record whose payload starts with the given message
    type. *)
Definition carries (want : byte) (r : tls_record) : bool :=
  Byte.eqb (r_type r) x16
  && match r_payload r with
     | b :: _ => Byte.eqb b want
     | [] => false
     end.

(** The certificate list of a Certificate message: each entry a
    three-byte big-endian length and the DER bytes. *)
Definition encode_certificates (certs : list bytes) : bytes :=
  concat (map (fun c => to_bytes 3 (len c) ++ c) certs).

(** Decoding every entry in order, up to the first that raises. *)
Fixpoint load_all {C : Type} (load : bytes -> result C) (certs : list bytes)
  : result (list C) :=
  match certs with
  | [] => Return []
  | c :: certs' =>
      x <- load c ;;
      xs <- load_all load certs' ;;
      Return (x :: xs)
  end.

(** A hello extension: two-byte type, two-byte length, data. *)
Definition encode_extension (e : Z * bytes) : bytes :=
  to_bytes 2 (fst e) ++ to_bytes 2 (len (snd e)) ++ snd e.

Definition encode_extensions (es : list (Z * bytes)) : bytes :=
  concat (map encode_extension es).

(** The end of a hello message: nothing, or the two-byte length of the
    extensions and the extensions. *)
Definition encode_extension_block (es : option (list (Z * bytes))) : bytes :=
  match es with
  | None => []
  | Some es => to_bytes 2 (len (encode_extensions es)) ++ encode_extensions es
  end.

Definition extensions_ok (es : option (list (Z * bytes))) : Prop :=
  match es with
  | None => True
  | Some es =>
      len (encode_extensions es) < 2 ^ 16
      /\ Forall (fun e => 0 <= fst e < 2 ^ 16 /\ len (snd e) < 2 ^ 16) es
  end.

(** An extension of type 35 (session ticket) is among them. *)
Definition offers_ticket (es : option (list (Z * bytes))) : bool :=
  match es with
  | None => false
  | Some es => existsb (fun e => fst e =? 35) es
  end.

(** The fields of a ServerHello message; [sh_extensions] is [None] when
    the message ends after the compression method. *)
Record server_hello_fields : Type := {
  sh_version : bytes;
  sh_random : bytes;
  sh_session_id : bytes;
  sh_cipher_suite : bytes;
  sh_compression : byte;
  sh_extensions : option (list (Z * bytes))
}.

Definition server_hello_body (f : server_hello_fields) : bytes :=
  sh_version f ++ sh_random f
    ++ [byte_of_Z (len (sh_session_id f))] ++ sh_session_id f
    ++ sh_cipher_suite f ++ [sh_compression f]
    ++ encode_extension_block (sh_extensions f).

(** The handshake message: type 2, three-byte length, body. *)
Definition encode_server_hello (f : server_hello_fields) : bytes :=
  [x02] ++ to_bytes 3 (len (server_hello_body f)) ++ server_hello_body f.

(** Field sizes as the wire format fixes them. *)
Definition server_hello_ok (f : server_hello_fields) : Prop :=
  length (sh_version f) = 2%nat /\ length (sh_random f) = 32%nat
  /\ len (sh_session_id f) < 256 /\ length (sh_cipher_suite f) = 2%nat
  /\ extensions_ok (sh_extensions f).

(** The fields of a ClientHello message: the cipher suites and the
    compression methods are lists, each with its length in front. *)
Record client_hello_fields : Type := {
  ch_version : bytes;
  ch_random : bytes;
  ch_session_id : bytes;
  ch_cipher_suites : bytes;
  ch_compression_methods : bytes;
  ch_extensions : option (list (Z * bytes))
}.

Definition client_hello_body (f : client_hello_fields) : bytes :=
  ch_version f ++ ch_random f
    ++ [byte_of_Z (len (ch_session_id f))] ++ ch_session_id f
    ++ to_bytes 2 (len (ch_cipher_suites f)) ++ ch_cipher_suites f
    ++ [byte_of_Z (len (ch_compression_methods f))]
    ++ ch_compression_methods f
    ++ encode_extension_block (ch_extensions f).

(** The handshake message: type 1, three-byte length, body. *)
Definition encode_client_hello (f : client_hello_fields) : bytes :=
  [x01] ++ to_bytes 3 (len (client_hello_body f)) ++ client_hello_body f.

Definition client_hello_ok (f : client_hello_fields) : Prop :=
  length (ch_version f) = 2%nat /\ length (ch_random f) = 32%nat
  /\ len (ch_session_id f) < 256 /\ len (ch_cipher_suites f) < 2 ^ 16
  /\ len (ch_compression_methods f) < 256
  /\ extensions_ok (ch_extensions f).

(** A session id as the parser keeps it: unset when empty. *)
Definition present (session_id : bytes) : option bytes :=
  match session_id with
  | [] => None
  | _ => Some session_id
  end.

End Wire.

Import Wire.

(* ================================================================== *)
(** * Records and hello messages for the examples *)
(* ================================================================== *)

Module WireInputs.

(** A record that is no ServerKeyExchange, and a ServerKeyExchange whose
    p-length field is 0x0100. *)
Definition alert_record : tls_record := {|
  r_type := x15;
  r_version := [x03; x03];
  r_payload := Hex.unhex "0c28"
|}.

Definition key_exchange_record : tls_record := {|
  r_type := x16;
  r_version := [x03; x03];
  r_payload := Hex.unhex "0c000002" ++ to_bytes 2 256
|}.

(** A Certificate message with two entries. *)
Definition two_certificates : list bytes :=
  [Hex.unhex "3001"; Hex.unhex "300203"].

Definition certificate_record : tls_record := {|
  r_type := x16;
  r_version := [x03; x03];
  r_payload := Hex.unhex "0b00000c000009" ++ encode_certificates two_certificates
|}.

(** A loader that accepts what starts with the SEQUENCE tag. *)
Definition sequence_load (cert_bytes : bytes) : result bytes :=
  match cert_bytes with
  | x30 :: _ => Return cert_bytes
  | _ => Raise ValueError
  end.

(** A ServerHello with a session id and a session ticket extension, and
    one with neither. *)
Definition ticket_server_hello : server_hello_fields := {|
  sh_version := [x03; x03];
  sh_random := repeat x11 32;
  sh_session_id := session;
  sh_cipher_suite := [x00; x2f];
  sh_compression := x00;
  sh_extensions := Some [(65281, [x00]); (35, [])]
|}.

Definition plain_server_hello : server_hello_fields := {|
  sh_version := [x03; x03];
  sh_random := repeat x11 32;
  sh_session_id := [];
  sh_cipher_suite := [x00; x2f];
  sh_compression := x01;
  sh_extensions := None
|}.

(** A ClientHello that presents a session ticket. *)
Definition ticket_client_hello : client_hello_fields := {|
  ch_version := [x03; x03];
  ch_random := repeat x22 32;
  ch_session_id := session;
  ch_cipher_suites := Hex.unhex "002f0035";
  ch_compression_methods := [x00];
  ch_extensions := Some [(35, Hex.unhex "a1a2a3")]
|}.

Definition handshake_record (payload : bytes) : tls_record := {|
  r_type := x16;
  r_version := [x03; x03];
  r_payload := payload
|}.

(** A ServerHello cut after its message header. *)
Definition truncated_server_hello : tls_record :=
  handshake_record (Hex.unhex "02000046").

(** The two hello messages on the wire, the server's followed by the
    ServerKeyExchange record. *)
Definition plain_server : bytes :=
  encode_record (handshake_record (encode_server_hello plain_server_hello))
    ++ encode_record key_exchange_record.

Definition ticket_client : bytes :=
  encode_record (handshake_record (encode_client_hello ticket_client_hello))
    ++ [].

(** What [parse_session_info] reports for the plain ServerHello and the
    ClientHello with a ticket. *)
Definition resumed_by_ticket : session_info := {|
  protocol := Some "TLSv1.2"%string;
  cipher_suite := Some "TLS_RSA_WITH_AES_128_CBC_SHA"%string;
  compression := true;
  session_id := None;
  session_ticket := Some "reused"%string
|}.

End WireInputs.

Import WireInputs.

(* ================================================================== *)
(** * Facts about the Python builtins *)
(* ================================================================== *)

Module PyFacts.

Lemma Z_of_byte_range (b : byte) : 0 <= Z_of_byte b < 256.
Proof.
  unfold Z_of_byte. pose proof (Byte.to_N_bounded b) as H.
  split; [apply N2Z.is_nonneg|].
  apply N2Z.inj_le in H. simpl in H. lia.
Qed.

Lemma byte_of_Z_of_byte (b : byte) : byte_of_Z (Z_of_byte b) = b.
Proof.
  unfold byte_of_Z. rewrite Z.mod_small by apply Z_of_byte_range.
  unfold Z_of_byte. rewrite N2Z.id, Byte.of_to_N. reflexivity.
Qed.

Lemma Z_of_byte_of_Z (z : Z) : Z_of_byte (byte_of_Z z) = z mod 256.
Proof.
  unfold byte_of_Z, Z_of_byte.
  assert (Hr : 0 <= z mod 256 < 256) by (apply Z.mod_pos_bound; lia).
  destruct (Byte.of_N (Z.to_N (z mod 256))) as [b|] eqn:E.
  - apply Byte.to_of_N in E. rewrite E. rewrite Z2N.id; lia.
  - apply Byte.of_N_None_iff in E. lia.
Qed.

Lemma Z_of_byte_inj (a b : byte) : Z_of_byte a = Z_of_byte b -> a = b.
Proof.
  intros H. rewrite <- (byte_of_Z_of_byte a), <- (byte_of_Z_of_byte b).
  now rewrite H.
Qed.

Lemma bytes_eqb_eq (a b : bytes) : bytes_eqb a b = true <-> a = b.
Proof.
  revert b. induction a as [|x a IH]; intros [|y b]; simpl;
    try (split; [discriminate|discriminate]); try tauto.
  rewrite andb_true_iff, IH. split.
  - intros [H1 H2]. apply Byte.byte_dec_bl in H1. congruence.
  - intros H. injection H as -> ->. split; [apply Byte.byte_dec_lb|]; reflexivity.
Qed.

Lemma bytes_eqb_refl (a : bytes) : bytes_eqb a a = true.
Proof. now apply bytes_eqb_eq. Qed.

Lemma bytes_eqb_neq (a b : bytes) : bytes_eqb a b = false <-> a <> b.
Proof.
  rewrite <- bytes_eqb_eq. destruct (bytes_eqb a b); split; congruence.
Qed.

Lemma len_nonneg {A : Type} (s : list A) : 0 <= len s.
Proof. unfold len. lia. Qed.

Lemma len_app {A : Type} (s t : list A) : len (s ++ t) = len s + len t.
Proof. unfold len. rewrite length_app. lia. Qed.

Lemma len_cons {A : Type} (x : A) (s : list A) : len (x :: s) = 1 + len s.
Proof. unfold len. cbn [List.length]. lia. Qed.

Lemma len_nil {A : Type} : len (@nil A) = 0.
Proof. reflexivity. Qed.

Lemma len_bytes_mul (b : byte) (n : Z) : len (bytes_mul b n) = Z.max 0 n.
Proof. unfold len, bytes_mul. rewrite repeat_length. lia. Qed.

(** A slice with bounds of the usual sign is [firstn] of [skipn]. *)
Lemma slice_nonneg {A : Type} (s : list A) (a b : Z) :
  0 <= a -> 0 <= b ->
  slice s a b = firstn (Z.to_nat b - Z.to_nat a) (skipn (Z.to_nat a) s).
Proof.
  intros Ha Hb. unfold slice, clamp, len.
  destruct (a <? 0) eqn:Ea; [lia|]. destruct (b <? 0) eqn:Eb; [lia|].
  set (n := length s).
  destruct (Z_le_gt_dec (Z.of_nat n) a) as [Hge|Hlt].
  - rewrite (skipn_all2 s) by (fold n; lia).
    rewrite (skipn_all2 s) by (fold n; lia). now rewrite !firstn_nil.
  - rewrite (Z.min_r _ a) by lia.
    destruct (Z_le_gt_dec b (Z.of_nat n)) as [Hb'|Hb'].
    + rewrite (Z.min_r _ b) by lia. f_equal. lia.
    + rewrite (Z.min_l _ b) by lia.
      rewrite !firstn_all2; [reflexivity| |]; rewrite length_skipn; fold n; lia.
Qed.

Lemma slice_from_nonneg {A : Type} (s : list A) (a : Z) :
  0 <= a -> slice_from s a = skipn (Z.to_nat a) s.
Proof.
  intros Ha. unfold slice_from, clamp, len.
  destruct (a <? 0) eqn:Ea; [lia|].
  set (n := length s).
  destruct (Z_le_gt_dec (Z.of_nat n) a) as [Hge|Hlt].
  - rewrite (skipn_all2 s) by (fold n; lia).
    rewrite (skipn_all2 s) by (fold n; lia). reflexivity.
  - f_equal. lia.
Qed.

Lemma slice_prefix {A : Type} (s : list A) (b : Z) :
  0 <= b -> slice s 0 b = firstn (Z.to_nat b) s.
Proof.
  intros Hb. rewrite slice_nonneg by lia. simpl. now rewrite Nat.sub_0_r.
Qed.

Lemma len_slice {A : Type} (s : list A) (a b : Z) :
  0 <= a -> a <= b -> b <= len s -> len (slice s a b) = b - a.
Proof.
  intros Ha Hab Hb. rewrite slice_nonneg by lia. unfold len in *.
  rewrite length_firstn, length_skipn. lia.
Qed.

Lemma len_slice_le {A : Type} (s : list A) (a b : Z) :
  0 <= a -> a <= b -> len (slice s a b) <= b - a.
Proof.
  intros Ha Hab. rewrite slice_nonneg by lia. unfold len.
  rewrite length_firstn. lia.
Qed.

(** The first [len x] elements, and the [len y] after them. *)
Lemma slice_app_l {A : Type} (x y : list A) :
  slice (x ++ y) 0 (len x) = x.
Proof.
  rewrite slice_prefix by apply len_nonneg. unfold len.
  rewrite Nat2Z.id, firstn_app, Nat.sub_diag, firstn_all. simpl.
  apply app_nil_r.
Qed.

Lemma slice_app_mid {A : Type} (x y z : list A) :
  slice (x ++ y ++ z) (len x) (len x + len y) = y.
Proof.
  pose proof (len_nonneg x). pose proof (len_nonneg y).
  rewrite slice_nonneg by lia. unfold len.
  rewrite Nat2Z.id, skipn_app, Nat.sub_diag, skipn_all. simpl.
  replace (Z.to_nat (Z.of_nat (length x) + Z.of_nat (length y)) - length x)%nat
    with (length y) by lia.
  rewrite firstn_app, Nat.sub_diag, firstn_all. simpl. apply app_nil_r.
Qed.

(** A slice that ends inside [s] does not see what follows [s]. *)
Lemma slice_app_within {A : Type} (s t : list A) (a b : Z) :
  0 <= a -> 0 <= b -> b <= len s -> slice (s ++ t) a b = slice s a b.
Proof.
  intros Ha Hb Hle. rewrite !slice_nonneg by lia. unfold len in Hle.
  destruct (Z_le_gt_dec a b) as [Hab|Hab].
  - rewrite skipn_app, firstn_app.
    replace (Z.to_nat b - Z.to_nat a - length (skipn (Z.to_nat a) s))%nat
      with 0%nat by (rewrite length_skipn; lia).
    simpl. apply app_nil_r.
  - replace (Z.to_nat b - Z.to_nat a)%nat with 0%nat by lia. reflexivity.
Qed.

(** [s[-1:]] of a string that ends in [b]. *)
Lemma slice_from_last {A : Type} (s : list A) (b : A) :
  slice_from (s ++ [b]) (-1) = [b].
Proof.
  unfold slice_from, clamp. change (-1 <? 0) with true. cbv iota.
  replace (Z.to_nat (Z.max 0 (len (s ++ [b]) + -1))) with (length s)
    by (unfold len; rewrite length_app; cbn [length]; lia).
  rewrite skipn_app, Nat.sub_diag, skipn_all. reflexivity.
Qed.

(** [s[-1:] == b'...'] holds exactly when [s] ends in that byte. *)
Lemma slice_from_last_inv {A : Type} (s : list A) (b : A) :
  slice_from s (-1) = [b] -> exists s', s = s' ++ [b].
Proof.
  unfold slice_from, clamp. change (-1 <? 0) with true. cbv iota.
  intros H. exists (firstn (Z.to_nat (Z.max 0 (len s + -1))) s).
  rewrite <- H. symmetry. apply firstn_skipn.
Qed.

Lemma slice_full_length {A : Type} (l : list A) (a n : Z) :
  0 <= a -> 0 < n -> len (slice l a (a + n)) = n -> a + n <= len l.
Proof.
  intros Ha Hn H. rewrite slice_nonneg in H by lia. unfold len in *.
  rewrite length_firstn, length_skipn in H. lia.
Qed.

(** [s[-n:]] for [0 < n <= len(s)]. *)
Lemma slice_from_neg {A : Type} (l : list A) (n : Z) :
  0 < n <= len l -> slice_from l (0 - n) = skipn (Z.to_nat (len l - n)) l.
Proof.
  intros H. unfold slice_from, clamp.
  replace (0 - n <? 0) with true by (symmetry; apply Z.ltb_lt; lia).
  f_equal. lia.
Qed.

Lemma slice_app_l' {A : Type} (x y : list A) (n : Z) :
  len x = n -> slice (x ++ y) 0 n = x.
Proof. intros <-. apply slice_app_l. Qed.

Lemma slice_app_mid' {A : Type} (x y z : list A) (a n : Z) :
  len x = a -> len y = n -> slice (x ++ y ++ z) a (a + n) = y.
Proof. intros <- <-. apply slice_app_mid. Qed.

Lemma slice_slice_prefix {A : Type} (l : list A) (a b n : Z) :
  0 <= a -> 0 <= n -> a + n <= b -> slice (slice l a b) 0 n = slice l a (a + n).
Proof.
  intros Ha Hn Hb. rewrite (slice_nonneg l a b), (slice_nonneg l a (a + n))
    by lia.
  rewrite slice_prefix by lia. rewrite firstn_firstn. f_equal. lia.
Qed.

End PyFacts.

Import PyFacts.

(* ================================================================== *)
(** * Facts about the integer helpers *)
(* ================================================================== *)

Module IntFacts.

Lemma xor_bytes_length (a b : bytes) :
  length a = length b -> length (xor_bytes a b) = length a.
Proof.
  revert b. induction a as [|x a IH]; intros [|y b] H; simpl in *;
    try discriminate; auto.
Qed.

Lemma fold_int_acc (l : bytes) (acc : Z) :
  fold_left (fun a b => a * 256 + Z_of_byte b) l acc
  = acc * 256 ^ len l + int_from_bytes l.
Proof.
  unfold int_from_bytes. revert acc.
  induction l as [|x l IH]; intros acc.
  - simpl. lia.
  - cbn [fold_left]. rewrite IH, (IH (0 * 256 + Z_of_byte x)).
    rewrite len_cons, Z.pow_add_r by (pose proof (len_nonneg l); lia). lia.
Qed.

Lemma int_from_bytes_cons (x : byte) (l : bytes) :
  int_from_bytes (x :: l) = Z_of_byte x * 256 ^ len l + int_from_bytes l.
Proof.
  unfold int_from_bytes at 1. cbn [fold_left]. rewrite fold_int_acc. lia.
Qed.

Lemma int_from_bytes_snoc (l : bytes) (x : byte) :
  int_from_bytes (l ++ [x]) = int_from_bytes l * 256 + Z_of_byte x.
Proof. unfold int_from_bytes. rewrite fold_left_app. reflexivity. Qed.

Lemma int_from_bytes_range (l : bytes) :
  0 <= int_from_bytes l < 256 ^ len l.
Proof.
  induction l as [|x l IH] using rev_ind.
  - cbv. split; [discriminate|reflexivity].
  - rewrite int_from_bytes_snoc.
    replace (len (l ++ [x])) with (len l + 1)
      by (unfold len; rewrite length_app; cbn [length]; lia).
    pose proof (Z_of_byte_range x). pose proof (len_nonneg l).
    rewrite Z.pow_add_r by lia. change (256 ^ 1) with 256. lia.
Qed.

Lemma to_bytes_length (w : nat) (v : Z) : length (to_bytes w v) = w.
Proof.
  revert v. induction w as [|w IH]; intros v; simpl; [reflexivity|].
  rewrite length_app, IH. simpl. lia.
Qed.

(** Writing back what was read returns the string. *)
Lemma to_bytes_int_from_bytes (l : bytes) :
  to_bytes (length l) (int_from_bytes l) = l.
Proof.
  induction l as [|x l IH] using rev_ind; [reflexivity|].
  rewrite length_app, Nat.add_comm. cbn [length Nat.add to_bytes].
  rewrite int_from_bytes_snoc. pose proof (Z_of_byte_range x).
  rewrite Z.div_add_l, Z.div_small, Z.add_0_r by lia.
  rewrite Z.add_comm, Z.mod_add, Z.mod_small by lia.
  now rewrite IH, byte_of_Z_of_byte.
Qed.

Lemma to_bytes_zero (w : nat) : to_bytes w 0 = repeat x00 w.
Proof.
  induction w as [|w IH]; [reflexivity|].
  cbn [to_bytes]. change (0 / 256) with 0. rewrite IH.
  change [byte_of_Z (0 mod 256)] with (repeat x00 1).
  rewrite <- repeat_app. f_equal. lia.
Qed.

(** A wider field only adds zero bytes in front. *)
Lemma to_bytes_pad (k j : nat) (v : Z) :
  0 <= v < 256 ^ Z.of_nat k ->
  to_bytes (j + k) v = repeat x00 j ++ to_bytes k v.
Proof.
  revert v. induction k as [|k IH]; intros v Hv.
  - change (256 ^ Z.of_nat 0) with 1 in Hv. assert (v = 0) as -> by lia.
    rewrite Nat.add_0_r, to_bytes_zero. simpl. now rewrite app_nil_r.
  - rewrite Nat.add_succ_r. cbn [to_bytes].
    rewrite IH, app_assoc; [reflexivity|].
    rewrite Nat2Z.inj_succ, Z.pow_succ_r in Hv by lia.
    split; [apply Z.div_pos; lia|].
    apply Z.div_lt_upper_bound; lia.
Qed.

Lemma bit_length_bound (v : Z) : 0 <= v -> v < 2 ^ bit_length v.
Proof.
  intros Hv. unfold bit_length. destruct (v <=? 0) eqn:E.
  - simpl. lia.
  - pose proof (Z.log2_spec v ltac:(lia)). lia.
Qed.

Lemma bit_length_le (v n : Z) : 0 <= n -> 0 <= v < 2 ^ n -> bit_length v <= n.
Proof.
  intros Hn Hv. unfold bit_length. destruct (v <=? 0) eqn:E; [lia|].
  assert (Z.log2 v < n) by (apply Z.log2_lt_pow2; lia). lia.
Qed.

(** [fill_width] after [int_to_bytes] writes the integer in a field of
    the given width, when it fits. *)
Lemma fill_width_int_to_bytes (n : nat) (v : Z) :
  (1 <= n)%nat -> 0 <= v < 256 ^ Z.of_nat n ->
  fill_width (int_to_bytes v) (Z.of_nat n) = to_bytes n v.
Proof.
  intros Hn Hv. unfold fill_width, int_to_bytes.
  set (w := Z.to_nat (Z.max 1 (ceil_div (bit_length v) 8))).
  assert (Hbl : bit_length v <= 8 * Z.of_nat n).
  { apply bit_length_le; [lia|]. rewrite Z.pow_mul_r by lia. exact Hv. }
  pose proof (bit_length_bound v ltac:(lia)) as Hb.
  assert (Hbl0 : 0 <= bit_length v).
  { unfold bit_length. destruct (v <=? 0); [lia|].
    pose proof (Z.log2_nonneg v). lia. }
  assert (Hc : bit_length v <= 8 * ceil_div (bit_length v) 8 < bit_length v + 8).
  { unfold ceil_div.
    pose proof (Z.div_mod (bit_length v + 8 - 1) 8 ltac:(lia)).
    pose proof (Z.mod_pos_bound (bit_length v + 8 - 1) 8 ltac:(lia)). lia. }
  assert (Hw : (w <= n)%nat) by (unfold w; lia).
  assert (Hvw : 0 <= v < 256 ^ Z.of_nat w).
  { split; [lia|]. eapply Z.lt_le_trans; [apply Hb|].
    change 256 with (2 ^ 8). rewrite <- Z.pow_mul_r by lia.
    apply Z.pow_le_mono_r; [lia|]. unfold w. lia. }
  unfold len, bytes_mul. rewrite to_bytes_length.
  replace (Z.to_nat (Z.of_nat n - Z.of_nat w)) with (n - w)%nat by lia.
  rewrite <- to_bytes_pad by exact Hvw. f_equal. lia.
Qed.

(** Bits of a byte appended below an integer. *)
Lemma testbit_shift_byte (acc x i : Z) :
  0 <= x < 256 -> 0 <= i ->
  Z.testbit (acc * 256 + x) i
  = if i <? 8 then Z.testbit x i else Z.testbit acc (i - 8).
Proof.
  intros Hx Hi. destruct (i <? 8) eqn:E.
  - rewrite <- (Z.mod_pow2_bits_low (acc * 256 + x) 8 i) by lia.
    change (2 ^ 8) with 256. rewrite Z.add_comm, Z.mod_add, Z.mod_small by lia.
    reflexivity.
  - replace i with ((i - 8) + 8) at 1 by lia.
    rewrite <- Z.div_pow2_bits by lia. change (2 ^ 8) with 256.
    rewrite Z.div_add_l, Z.div_small, Z.add_0_r by lia. reflexivity.
Qed.

Lemma lxor_byte_range (x y : Z) :
  0 <= x < 256 -> 0 <= y < 256 -> 0 <= Z.lxor x y < 256.
Proof.
  intros Hx Hy. assert (H0 : 0 <= Z.lxor x y) by (apply Z.lxor_nonneg; lia).
  split; [exact H0|].
  destruct (Z.eq_dec (Z.lxor x y) 0) as [->|Hne]; [lia|].
  change 256 with (2 ^ 8). apply Z.log2_lt_pow2; [lia|].
  eapply Z.le_lt_trans; [apply Z.log2_lxor; lia|].
  assert (Z.log2 x < 8).
  { destruct (Z.eq_dec x 0) as [->|]; [simpl; lia|].
    apply Z.log2_lt_pow2; lia. }
  assert (Z.log2 y < 8).
  { destruct (Z.eq_dec y 0) as [->|]; [simpl; lia|].
    apply Z.log2_lt_pow2; lia. }
  lia.
Qed.

Lemma land_byte_range (m x : Z) :
  0 <= m -> 0 <= x < 256 -> 0 <= Z.land m x < 256.
Proof.
  intros Hm Hx. assert (H0 : 0 <= Z.land m x) by (apply Z.land_nonneg; lia).
  split; [exact H0|].
  destruct (Z.eq_dec (Z.land m x) 0) as [->|Hne]; [lia|].
  change 256 with (2 ^ 8). apply Z.log2_lt_pow2; [lia|].
  eapply Z.le_lt_trans; [apply Z.log2_land; lia|].
  assert (Z.log2 x < 8); [|lia].
  destruct (Z.eq_dec x 0) as [->|]; [simpl; lia|].
  apply Z.log2_lt_pow2; lia.
Qed.

Lemma Z_of_xor_byte (x y : byte) :
  Z_of_byte (xor_byte x y) = Z.lxor (Z_of_byte x) (Z_of_byte y).
Proof.
  unfold xor_byte. rewrite Z_of_byte_of_Z. apply Z.mod_small.
  apply lxor_byte_range; apply Z_of_byte_range.
Qed.

Lemma lxor_shift_byte (a b x y : Z) :
  0 <= x < 256 -> 0 <= y < 256 ->
  Z.lxor (a * 256 + x) (b * 256 + y) = Z.lxor a b * 256 + Z.lxor x y.
Proof.
  intros Hx Hy. apply Z.bits_inj'. intros i Hi.
  rewrite Z.lxor_spec, !testbit_shift_byte
    by (try apply lxor_byte_range; lia).
  destruct (i <? 8); now rewrite Z.lxor_spec.
Qed.

(** XOR of the integers is the integer of the byte-wise XOR. *)
Lemma int_from_bytes_xor (a b : bytes) :
  length a = length b ->
  Z.lxor (int_from_bytes a) (int_from_bytes b) = int_from_bytes (xor_bytes a b).
Proof.
  revert b. induction a as [|x a IH] using rev_ind; intros b H.
  - destruct b; [reflexivity|discriminate].
  - destruct (exists_last (l := b)) as (b' & y & ->).
    { intros ->. rewrite length_app in H. simpl in H. lia. }
    rewrite !length_app in H. simpl in H.
    assert (Hl : length a = length b') by lia.
    assert (Hx : xor_bytes (a ++ [x]) (b' ++ [y])
                 = xor_bytes a b' ++ [xor_byte x y]).
    { clear IH H. revert b' Hl. induction a as [|u a IHa]; intros [|v b'] Hl;
        simpl in *; try discriminate; [reflexivity|].
      f_equal. apply IHa. lia. }
    rewrite Hx, !int_from_bytes_snoc, <- IH, Z_of_xor_byte by exact Hl.
    apply lxor_shift_byte; apply Z_of_byte_range.
Qed.

(** The XOR of lines 96-97 and 182-184, which goes through integers, is
    the byte-wise XOR of two strings of the same length. *)
Lemma fill_width_xor (a b : bytes) :
  length a = length b -> (1 <= length b)%nat ->
  fill_width (int_to_bytes (Z.lxor (int_from_bytes a) (int_from_bytes b)))
             (len b)
  = xor_bytes a b.
Proof.
  intros Hl Hb. rewrite int_from_bytes_xor by exact Hl.
  pose proof (xor_bytes_length a b Hl) as Hx.
  pose proof (int_from_bytes_range (xor_bytes a b)) as Hr.
  unfold len in *. rewrite Hx, Hl in Hr.
  rewrite fill_width_int_to_bytes by (try exact Hr; lia).
  rewrite <- Hl, <- Hx. apply to_bytes_int_from_bytes.
Qed.

(** Lines 183-184 pad exactly as [fill_width] does. *)
Lemma pad_is_fill_width (db masked_db : bytes) :
  (if len db <? len masked_db
   then bytes_mul x00 (len masked_db - len db) ++ db else db)
  = fill_width db (len masked_db).
Proof.
  unfold fill_width, bytes_mul. destruct (len db <? len masked_db) eqn:E.
  - reflexivity.
  - replace (Z.to_nat (len masked_db - len db)) with 0%nat by lia.
    reflexivity.
Qed.

(** The comparator decides equality. *)
Lemma constant_compare_eq (a b : bytes) :
  constant_compare a b = true <-> a = b.
Proof.
  unfold constant_compare.
  destruct (len a =? len b) eqn:El; simpl.
  - apply Z.eqb_eq in El. unfold len in El. apply Nat2Z.inj in El.
    assert (G : forall r, 0 <= r ->
      (fold_left (fun r xy => Z.lor r (Z.lxor (Z_of_byte (fst xy))
                                              (Z_of_byte (snd xy))))
                 (combine a b) r =? 0) = true <-> r = 0 /\ a = b).
    { revert b El. induction a as [|x a IH]; intros [|y b] El r Hr;
        simpl in El; try discriminate.
      - simpl. rewrite Z.eqb_eq. tauto.
      - cbn [combine fold_left fst snd]. rewrite IH.
        + rewrite Z.lor_eq_0_iff, Z.lxor_eq_0_iff. split.
          * intros [[Hr0 Hxy] Hab]. apply Z_of_byte_inj in Hxy. subst.
            tauto.
          * intros [Hr0 Hab]. injection Hab as -> ->. tauto.
        + lia.
        + apply Z.lor_nonneg. split; [exact Hr|].
          apply Z.lxor_nonneg. pose proof (Z_of_byte_range x).
          pose proof (Z_of_byte_range y). lia. }
    rewrite G by lia. tauto.
  - split; [discriminate|]. intros ->. rewrite Z.eqb_refl in El. discriminate.
Qed.

Lemma constant_compare_refl (a : bytes) : constant_compare a a = true.
Proof. now apply constant_compare_eq. Qed.

End IntFacts.

Import IntFacts.

(* ================================================================== *)
(** * Facts about [hashlib] *)
(* ================================================================== *)

Module HashFacts.

Lemma supported_cases (h : string) :
  supported h = true ->
  h = "sha1"%string \/ h = "sha224"%string \/ h = "sha256"%string
  \/ h = "sha384"%string \/ h = "sha512"%string.
Proof.
  unfold supported, hash_algorithms. cbn [existsb].
  rewrite !orb_true_iff, !String.eqb_eq. intuition discriminate.
Qed.

Lemma supported_table (h : string) :
  supported h = true ->
  dict_get hash_length_table h = Return (digest_size h).
Proof.
  intros H. destruct (supported_cases h H) as [->|[->|[->|[->| ->]]]];
    reflexivity.
Qed.

Lemma digest_size_bounds (h : string) :
  supported h = true -> 20 <= digest_size h <= 64.
Proof.
  intros H. destruct (supported_cases h H) as [->|[->|[->|[->| ->]]]];
    cbv; split; discriminate.
Qed.

Lemma sha1_length (m : bytes) : length (Hashlib.sha1 m) = 20%nat.
Proof.
  unfold Hashlib.sha1.
  destruct (fold_left _ _ _) as [[[[a b] c] d] e]. reflexivity.
Qed.

Lemma sha224_length (m : bytes) : length (Hashlib.sha224 m) = 28%nat.
Proof.
  unfold Hashlib.sha224.
  destruct (Hashlib.sha2 _ _ _) as [[[[[[[a b] c] d] e] f] g] h]. reflexivity.
Qed.

Lemma sha256_length (m : bytes) : length (Hashlib.sha256 m) = 32%nat.
Proof.
  unfold Hashlib.sha256.
  destruct (Hashlib.sha2 _ _ _) as [[[[[[[a b] c] d] e] f] g] h]. reflexivity.
Qed.

Lemma sha384_length (m : bytes) : length (Hashlib.sha384 m) = 48%nat.
Proof.
  unfold Hashlib.sha384.
  destruct (Hashlib.sha2 _ _ _) as [[[[[[[a b] c] d] e] f] g] h]. reflexivity.
Qed.

Lemma sha512_length (m : bytes) : length (Hashlib.sha512 m) = 64%nat.
Proof.
  unfold Hashlib.sha512.
  destruct (Hashlib.sha2 _ _ _) as [[[[[[[a b] c] d] e] f] g] h]. reflexivity.
Qed.

(** Every digest of a supported algorithm has the tabulated length. *)
Lemma digest_length (h : string) (m : bytes) :
  supported h = true -> len (Hashlib.digest h m) = digest_size h.
Proof.
  intros H. unfold len.
  destruct (supported_cases h H) as [->|[->|[->|[->| ->]]]];
    unfold Hashlib.digest; cbn [String.eqb Ascii.eqb Bool.eqb];
    cbv match beta.
  - now rewrite sha1_length.
  - now rewrite sha224_length.
  - now rewrite sha256_length.
  - now rewrite sha384_length.
  - now rewrite sha512_length.
Qed.

(** The derived constants, against the values printed in FIPS 180-4. *)
Example sha2_constants :
  firstn 4 (Hashlib.konst Hashlib.params256)
  = [0x428a2f98; 0x71374491; 0xb5c0fbcf; 0xe9b5dba5]
  /\ firstn 2 (skipn 78 (Hashlib.konst Hashlib.params512))
     = [0x5fcb6fab3ad6faec; 0x6c44198c4a475817]
  /\ fst Hashlib.sha224_init = (0xc1059ed8, 0x367cd507, 0x3070dd17,
                                0xf70e5939, 0xffc00b31, 0x68581511, 0x64f98fa7)
  /\ snd Hashlib.sha384_init = 0x47b5481dbefa4fa4.
Proof. vm_compute. repeat split. Qed.

(** The implementation on the FIPS 180 test message "abc". *)
Example sha1_abc :
  Hashlib.digest "sha1" (Hex.unhex "616263")
  = Hex.unhex "a9993e364706816aba3e25717850c26c9cd0d89d".
Proof. vm_compute. reflexivity. Qed.

Example sha224_abc :
  Hashlib.digest "sha224" (Hex.unhex "616263")
  = Hex.unhex "23097d223405d8228642a477bda255b32aadbce4bda0b3f7e36c9da7".
Proof. vm_compute. reflexivity. Qed.

Example sha256_abc :
  Hashlib.digest "sha256" (Hex.unhex "616263")
  = Hex.unhex
      "ba7816bf8f01cfea414140de5dae2223b00361a396177a9cb410ff61f20015ad".
Proof. vm_compute. reflexivity. Qed.

Example sha384_abc :
  Hashlib.digest "sha384" (Hex.unhex "616263")
  = Hex.unhex
      "cb00753f45a35e8bb5a03d699ac65007272c32ab0eded1631a8b605a43ff5bed8086072ba1e7cc2358baeca134c825a7".
Proof. vm_compute. reflexivity. Qed.

Example sha512_abc :
  Hashlib.digest "sha512" (Hex.unhex "616263")
  = Hex.unhex
      "ddaf35a193617abacc417349ae20413112e6fa4e89a97ea20a9eeee64b55d39a2192992a274fc1a836ba3c23a3feebbd454d4423643ce80e2a9ac94fa54ca49f".
Proof. vm_compute. reflexivity. Qed.

End HashFacts.

Import HashFacts.

(* ================================================================== *)
(** * MGF1 and EMSA-PSS *)
(* ================================================================== *)

Module PssFacts.

Lemma pack_I_ok (c : Z) : 0 <= c < 2 ^ 32 -> pack_I c = Return (BE32 c).
Proof.
  intros H. unfold pack_I.
  replace ((0 <=? c) && (c <? 2 ^ 32)) with true; [reflexivity|].
  symmetry. apply andb_true_iff. split; [apply Z.leb_le|apply Z.ltb_lt]; lia.
Qed.

Lemma pack_I_overflow (c : Z) : 2 ^ 32 <= c -> pack_I c = Raise StructError.
Proof.
  intros H. unfold pack_I.
  replace (c <? 2 ^ 32) with false by (symmetry; apply Z.ltb_ge; lia).
  now rewrite andb_false_r.
Qed.

Lemma ceil_div_bounds (a b : Z) :
  0 < b -> b * (ceil_div a b - 1) < a <= b * ceil_div a b.
Proof.
  intros Hb. unfold ceil_div.
  pose proof (Z.div_mod (a + b - 1) b ltac:(lia)).
  pose proof (Z.mod_pos_bound (a + b - 1) b Hb). lia.
Qed.

Lemma ceil_div_mono (a a' b : Z) :
  0 < b -> a <= a' -> ceil_div a b <= ceil_div a' b.
Proof. intros Hb H. unfold ceil_div. apply Z.div_le_mono; lia. Qed.

Section WithHashlib.

Variable hashlib : string -> bytes -> bytes.

(** What the loop returns, when it returns. *)
Lemma mgf1_loop_inv (h : string) (seed : bytes) (n c : nat)
  (output r : bytes) :
  mgf1_loop hashlib h seed n (Z.of_nat c) output = Return r ->
  r = output ++ mgf1_blocks hashlib h seed (seq c n).
Proof.
  revert c output. induction n as [|n IH]; intros c output H.
  - simpl in H. injection H as <-. unfold mgf1_blocks. simpl.
    now rewrite app_nil_r.
  - cbn [mgf1_loop] in H. unfold pack_I in H.
    destruct ((0 <=? Z.of_nat c) && (Z.of_nat c <? 2 ^ 32)); [|discriminate].
    cbn [bind] in H.
    replace (Z.of_nat c + 1) with (Z.of_nat (S c)) in H by lia.
    apply IH in H. rewrite H, <- app_assoc. reflexivity.
Qed.

(** The loop returns when every counter fits in 32 bits. *)
Lemma mgf1_loop_ok (h : string) (seed : bytes) (n c : nat) (output : bytes) :
  Z.of_nat c + Z.of_nat n <= 2 ^ 32 ->
  mgf1_loop hashlib h seed n (Z.of_nat c) output
  = Return (output ++ mgf1_blocks hashlib h seed (seq c n)).
Proof.
  revert c output. induction n as [|n IH]; intros c output H.
  - unfold mgf1_blocks. simpl. now rewrite app_nil_r.
  - cbn [mgf1_loop]. rewrite pack_I_ok by lia. cbn [bind].
    replace (Z.of_nat c + 1) with (Z.of_nat (S c)) by lia.
    rewrite IH by lia. rewrite <- app_assoc. reflexivity.
Qed.

(** The loop raises [struct.error] when a counter reaches [2^32]. *)
Lemma mgf1_loop_overflow (h : string) (seed : bytes) (n : nat) (c : Z)
  (output : bytes) :
  0 <= c <= 2 ^ 32 -> 2 ^ 32 < c + Z.of_nat n ->
  mgf1_loop hashlib h seed n c output = Raise StructError.
Proof.
  revert c output. induction n as [|n IH]; intros c output Hc H.
  - lia.
  - cbn [mgf1_loop]. destruct (Z.eq_dec c (2 ^ 32)) as [->|Hne].
    + reflexivity.
    + rewrite pack_I_ok by lia. cbn [bind]. apply IH; lia.
Qed.

Hypothesis digest_len :
  forall h m, supported h = true -> len (hashlib h m) = digest_size h.

Local Abbreviation encoded_digest := (Spec.encoded_digest hashlib).
Local Abbreviation encoded_masked_db := (Spec.encoded_masked_db hashlib).

Lemma mgf1_blocks_len (h : string) (seed : bytes) (cs : list nat) :
  supported h = true ->
  len (mgf1_blocks hashlib h seed cs) = digest_size h * len cs.
Proof.
  intros Hs. unfold mgf1_blocks.
  induction cs as [|c cs IH]; [simpl; unfold len; simpl; lia|].
  cbn [map concat]. rewrite len_app, IH, digest_len, len_cons by exact Hs.
  lia.
Qed.

(** [mgf1] returns the mask of the specification, of the requested
    length, whenever it returns. *)
Lemma mgf1_inv (h : string) (seed : bytes) (n : Z) (out : bytes) :
  mgf1 hashlib h seed n = Return out ->
  supported h = true /\ 1 <= n /\ out = mgf1_mask hashlib h seed n
  /\ len out = n.
Proof.
  unfold mgf1. destruct (n <? 1) eqn:En; [discriminate|].
  destruct (supported h) eqn:Hs; [|discriminate]. cbn [negb].
  rewrite supported_table by exact Hs. cbn [bind].
  destruct (mgf1_loop _ _ _ _ _ _) as [output|e] eqn:El; [|discriminate].
  cbn [bind]. intros H. injection H as <-.
  change 0 with (Z.of_nat 0) in El. apply mgf1_loop_inv in El.
  simpl in El. subst output.
  assert (Hn : 1 <= n) by lia.
  split; [reflexivity|]. split; [exact Hn|].
  rewrite slice_prefix by lia. split; [reflexivity|].
  unfold len. rewrite length_firstn.
  pose proof (mgf1_blocks_len h seed
                (seq 0 (Z.to_nat (ceil_div n (digest_size h)))) Hs) as Hb.
  unfold len in Hb. rewrite length_seq in Hb.
  pose proof (digest_size_bounds h Hs).
  pose proof (ceil_div_bounds n (digest_size h) ltac:(lia)).
  lia.
Qed.

(** [mgf1] returns whenever the mask needs at most [2^32] blocks. *)
Lemma mgf1_ok (h : string) (seed : bytes) (n : Z) :
  supported h = true -> 1 <= n -> n <= 2 ^ 32 * digest_size h ->
  mgf1 hashlib h seed n = Return (mgf1_mask hashlib h seed n).
Proof.
  intros Hs Hn Hmax. unfold mgf1.
  replace (n <? 1) with false by (symmetry; apply Z.ltb_ge; lia).
  rewrite Hs. cbn [negb]. rewrite supported_table by exact Hs. cbn [bind].
  pose proof (digest_size_bounds h Hs).
  pose proof (ceil_div_bounds n (digest_size h) ltac:(lia)).
  change 0 with (Z.of_nat 0). rewrite mgf1_loop_ok by nia.
  cbn [bind app]. rewrite slice_prefix by lia. reflexivity.
Qed.

(** [mgf1] raises [struct.error] when the mask needs more blocks. *)
Lemma mgf1_overflow (h : string) (seed : bytes) (n : Z) :
  supported h = true -> 2 ^ 32 * digest_size h < n ->
  mgf1 hashlib h seed n = Raise StructError.
Proof.
  intros Hs Hmax. unfold mgf1.
  pose proof (digest_size_bounds h Hs).
  replace (n <? 1) with false by (symmetry; apply Z.ltb_ge; lia).
  rewrite Hs. cbn [negb]. rewrite supported_table by exact Hs. cbn [bind].
  pose proof (ceil_div_bounds n (digest_size h) ltac:(lia)).
  rewrite mgf1_loop_overflow; [reflexivity|lia|nia].
Qed.

Lemma mgf1_mask_len (h : string) (seed : bytes) (n : Z) :
  supported h = true -> 1 <= n -> len (mgf1_mask hashlib h seed n) = n.
Proof.
  intros Hs Hn. unfold mgf1_mask, len. rewrite length_firstn.
  pose proof (mgf1_blocks_len h seed
                (seq 0 (Z.to_nat (ceil_div n (digest_size h)))) Hs) as Hb.
  unfold len in Hb. rewrite length_seq in Hb.
  pose proof (digest_size_bounds h Hs).
  pose proof (ceil_div_bounds n (digest_size h) ltac:(lia)).
  lia.
Qed.

(** A shorter mask is the beginning of a longer one. *)
Lemma mgf1_mask_prefix (h : string) (seed : bytes) (n k : Z) :
  supported h = true -> 1 <= n -> 0 <= k ->
  mgf1_mask hashlib h seed n
  = firstn (Z.to_nat n) (mgf1_mask hashlib h seed (n + k)).
Proof.
  intros Hs Hn Hk. unfold mgf1_mask.
  pose proof (digest_size_bounds h Hs) as Hd.
  set (L := digest_size h) in *.
  pose proof (ceil_div_mono n (n + k) L ltac:(lia) ltac:(lia)) as Hm.
  pose proof (ceil_div_bounds n L ltac:(lia)) as Hc.
  rewrite firstn_firstn, Nat.min_l by lia.
  set (c := Z.to_nat (ceil_div n L)).
  replace (Z.to_nat (ceil_div (n + k) L))
    with (c + (Z.to_nat (ceil_div (n + k) L) - c))%nat by lia.
  rewrite seq_app. unfold mgf1_blocks at 2. rewrite map_app, concat_app.
  fold (mgf1_blocks hashlib h seed (seq 0 c)).
  rewrite firstn_app.
  pose proof (mgf1_blocks_len h seed (seq 0 c) Hs) as Hb.
  unfold len in Hb. rewrite length_seq in Hb. fold L in Hb.
  replace (Z.to_nat n - length (mgf1_blocks hashlib h seed (seq 0 c)))%nat
    with 0%nat by (unfold c in *; lia).
  simpl. now rewrite app_nil_r.
Qed.

Lemma zero_bits_range (key_length : Z) : 0 <= zero_bits key_length <= 7.
Proof.
  unfold zero_bits, em_len.
  pose proof (ceil_div_bounds (key_length - 1) 8 ltac:(lia)). lia.
Qed.

Lemma left_int_mask_of_ok (zb : Z) :
  0 <= zb <= 7 -> left_int_mask_of zb = Return (2 ^ (8 - zb) - 1).
Proof.
  intros H.
  assert (C : zb = 0 \/ zb = 1 \/ zb = 2 \/ zb = 3 \/ zb = 4 \/ zb = 5
              \/ zb = 6 \/ zb = 7) by lia.
  destruct C as [->|[->|[->|[->|[->|[->|[->| ->]]]]]]]; reflexivity.
Qed.

Lemma land_mask_low (zb x : Z) :
  0 <= zb <= 7 -> 0 <= x < 256 ->
  0 <= Z.land (2 ^ (8 - zb) - 1) x < 2 ^ (8 - zb).
Proof.
  intros Hz Hx. replace (2 ^ (8 - zb) - 1) with (Z.ones (8 - zb))
    by (rewrite Z.ones_equiv; lia).
  rewrite Z.land_comm, Z.land_ones by lia.
  apply Z.mod_pos_bound. apply Z.pow_pos_nonneg; lia.
Qed.

Lemma mask_first_byte_ok (zb : Z) (s : bytes) :
  0 <= zb <= 7 -> s <> [] ->
  mask_first_byte (2 ^ (8 - zb) - 1) s = Return (clear_top zb s).
Proof.
  intros Hz Hs. destruct s as [|b t]; [congruence|].
  unfold mask_first_byte, clear_top.
  pose proof (Z_of_byte_range b) as Hb.
  destruct (2 ^ (8 - zb) - 1 =? 255) eqn:E; cbn [negb].
  - apply Z.eqb_eq in E. rewrite E.
    change 255 with (Z.ones 8). rewrite Z.land_comm, Z.land_ones by lia.
    change (2 ^ 8) with 256. rewrite Z.mod_small by lia.
    now rewrite byte_of_Z_of_byte.
  - rewrite slice_prefix, slice_from_nonneg by lia.
    change (Z.to_nat 1) with 1%nat. cbn [firstn skipn ord bind].
    unfold chr_cls.
    pose proof (land_mask_low zb (Z_of_byte b) Hz Hb) as Hl.
    assert (2 ^ (8 - zb) <= 256).
    { change 256 with (2 ^ 8). apply Z.pow_le_mono_r; lia. }
    replace ((0 <=? Z.land (2 ^ (8 - zb) - 1) (Z_of_byte b))
             && (Z.land (2 ^ (8 - zb) - 1) (Z_of_byte b) <? 256)) with true
      by (symmetry; apply andb_true_iff; split;
          [apply Z.leb_le|apply Z.ltb_lt]; lia).
    cbn [bind]. reflexivity.
Qed.

Lemma clear_top_length (zb : Z) (s : bytes) :
  length (clear_top zb s) = length s.
Proof. destruct s; reflexivity. Qed.

Lemma salt_of_len (urandom : Z -> bytes) (s : Z) :
  0 <= s -> (0 < s -> len (urandom s) = s) -> len (salt_of urandom s) = s.
Proof.
  intros H0 Hu. unfold salt_of. destruct (s >? 0) eqn:E.
  - apply Hu. lia.
  - unfold len. simpl. lia.
Qed.

Lemma db_len (n : Z) (salt : bytes) :
  0 <= n -> len (bytes_mul x00 n ++ [x01] ++ salt) = n + 1 + len salt.
Proof.
  intros H. rewrite len_app, len_bytes_mul, len_app.
  unfold len. cbn [length]. lia.
Qed.

(** Within the range of MGF1's counter, [add_pss_padding] returns the
    encoding of the specification for the salt it drew. *)
Lemma add_pss_padding_ok (urandom : Z -> bytes) (h : string) (s k : Z)
  (m : bytes) :
  supported h = true -> 0 <= s -> 512 <= k ->
  digest_size h + s + 2 <= em_len k ->
  em_len k - digest_size h - 1 <= 2 ^ 32 * digest_size h ->
  (0 < s -> len (urandom s) = s) ->
  add_pss_padding hashlib urandom h s k m
  = Return (pss_encode hashlib h (salt_of urandom s) k m).
Proof.
  intros Hs H0 Hk Hfeas Hmax Hu.
  pose proof (salt_of_len urandom s H0 Hu) as Hsalt.
  pose proof (digest_size_bounds h Hs) as Hd.
  unfold add_pss_padding. fold (salt_of urandom s). fold (em_len k).
  replace (s <? 0) with false by (symmetry; apply Z.ltb_ge; lia).
  replace (k <? 512) with false by (symmetry; apply Z.ltb_ge; lia).
  rewrite Hs. cbn [negb]. cbv zeta. rewrite !digest_len by exact Hs.
  replace (em_len k <? digest_size h + s + 2) with false
    by (symmetry; apply Z.ltb_ge; lia).
  rewrite mgf1_ok by (try exact Hs; lia). cbn [bind].
  set (H' := hashlib h (bytes_mul x00 8 ++ hashlib h m ++ salt_of urandom s)).
  set (mask := mgf1_mask hashlib h H' (em_len k - digest_size h - 1)).
  set (db := bytes_mul x00 (em_len k - s - digest_size h - 2) ++ [x01]
             ++ salt_of urandom s).
  assert (Hmask : len mask = em_len k - digest_size h - 1).
  { apply mgf1_mask_len; [exact Hs|lia]. }
  assert (Hdb : len db = em_len k - digest_size h - 1).
  { unfold db. rewrite db_len by lia. lia. }
  assert (Hlen : length db = length mask) by (unfold len in *; lia).
  rewrite fill_width_xor by (try exact Hlen; unfold len in *; lia).
  change (8 * em_len k - (k - 1)) with (zero_bits k).
  pose proof (zero_bits_range k) as Hz.
  rewrite left_int_mask_of_ok by exact Hz. cbn [bind].
  rewrite mask_first_byte_ok; [cbn [bind]|exact Hz|].
  - unfold pss_encode, Spec.encoded_masked_db, Spec.encoded_digest, encoded_db.
    rewrite Hsalt. reflexivity.
  - intros E. apply (f_equal (@length byte)) in E.
    rewrite xor_bytes_length in E by exact Hlen. unfold len in *.
    simpl in E. lia.
Qed.

Lemma pss_encode_parts (h : string) (salt : bytes) (k : Z) (m : bytes) :
  pss_encode hashlib h salt k m
  = encoded_masked_db h salt k m ++ encoded_digest h salt m ++ [xbc].
Proof. reflexivity. Qed.

Lemma encoded_db_len (h : string) (salt : bytes) (k : Z) :
  digest_size h + len salt + 2 <= em_len k ->
  len (encoded_db h salt k) = em_len k - digest_size h - 1.
Proof.
  intros H. unfold encoded_db.
  unfold len in *. rewrite !length_app, repeat_length. cbn [length]. lia.
Qed.

Lemma encoded_masked_db_len (h : string) (salt : bytes) (k : Z) (m : bytes) :
  supported h = true -> digest_size h + len salt + 2 <= em_len k ->
  len (encoded_masked_db h salt k m) = em_len k - digest_size h - 1.
Proof.
  intros Hs H. pose proof (encoded_db_len h salt k H) as Hdb.
  pose proof (len_nonneg salt).
  pose proof (mgf1_mask_len h (encoded_digest h salt m)
                (em_len k - digest_size h - 1) Hs ltac:(lia)) as Hm.
  unfold encoded_masked_db, len in *.
  rewrite clear_top_length, xor_bytes_length; lia.
Qed.

Lemma pss_encode_len (h : string) (salt : bytes) (k : Z) (m : bytes) :
  supported h = true -> digest_size h + len salt + 2 <= em_len k ->
  len (pss_encode hashlib h salt k m) = em_len k.
Proof.
  intros Hs H. rewrite pss_encode_parts, !len_app.
  rewrite encoded_masked_db_len by assumption.
  unfold encoded_digest. rewrite digest_len by exact Hs.
  change (len [xbc]) with 1. lia.
Qed.

Lemma pss_encode_trailer (h : string) (salt : bytes) (k : Z) (m : bytes) :
  slice_from (pss_encode hashlib h salt k m) (-1) = [xbc].
Proof. rewrite pss_encode_parts, !app_assoc. apply slice_from_last. Qed.

(** The bits of the first byte that [clear_top] clears. *)
Lemma clear_top_bits (zb : Z) (s : bytes) :
  0 <= zb <= 7 -> s <> [] ->
  exists b rest, clear_top zb s = b :: rest
    /\ Z_of_byte b < 2 ^ (8 - zb)
    /\ forall i, 8 - zb <= i -> Z.testbit (Z_of_byte b) i = false.
Proof.
  intros Hz Hs. destruct s as [|x t]; [congruence|].
  eexists. eexists. split; [reflexivity|].
  pose proof (Z_of_byte_range x) as Hx.
  rewrite Z_of_byte_of_Z.
  pose proof (land_mask_low zb (Z_of_byte x) Hz Hx) as Hl.
  assert (2 ^ (8 - zb) <= 256).
  { change 256 with (2 ^ 8). apply Z.pow_le_mono_r; lia. }
  rewrite Z.mod_small by lia. split; [lia|].
  intros i Hi.
  replace (2 ^ (8 - zb) - 1) with (Z.ones (8 - zb))
    by (rewrite Z.ones_equiv; lia).
  rewrite Z.land_comm, Z.land_ones by lia.
  apply Z.mod_pow2_bits_high. lia.
Qed.

Lemma encoded_masked_db_nonempty (h : string) (salt : bytes) (k : Z)
  (m : bytes) :
  supported h = true -> digest_size h + len salt + 2 <= em_len k ->
  xor_bytes (encoded_db h salt k)
    (mgf1_mask hashlib h (encoded_digest h salt m)
               (em_len k - digest_size h - 1)) <> [].
Proof.
  intros Hs H E. pose proof (encoded_masked_db_len h salt k m Hs H) as Hl.
  unfold encoded_masked_db in Hl. rewrite E in Hl.
  pose proof (len_nonneg salt). unfold len in *. simpl in Hl. lia.
Qed.

(** C4.  For a supported hash, a salt length and a key length among 512,
    1024, 2048 and 4096 with [em_len >= hash_len + salt_length + 2], and
    any message, [add_pss_padding] returns a string of exactly
    [em_len = ceil((key_length - 1) / 8)] bytes whose last byte is 0xBC
    and whose first byte has its top [8 * em_len - (key_length - 1)] bits
    zero. *)
Theorem add_pss_padding_shape (urandom : Z -> bytes) (h : string) (s k : Z)
  (m : bytes) :
  supported h = true -> 0 <= s -> In k [512; 1024; 2048; 4096] ->
  em_len k >= digest_size h + s + 2 ->
  (0 < s -> len (urandom s) = s) ->
  exists em,
    add_pss_padding hashlib urandom h s k m = Return em
    /\ len em = ceil_div (k - 1) 8
    /\ slice_from em (-1) = [xbc]
    /\ exists b rest,
         em = b :: rest
         /\ forall i, 8 - (8 * len em - (k - 1)) <= i < 8 ->
                      Z.testbit (Z_of_byte b) i = false.
Proof.
  intros Hs H0 Hk Hfeas Hu.
  pose proof (digest_size_bounds h Hs) as Hd.
  pose proof (salt_of_len urandom s H0 Hu) as Hsalt.
  assert (Hem : em_len k <= 512).
  { cbn [In] in Hk. destruct Hk as [<-|[<-|[<-|[<-|[]]]]]; cbv; discriminate. }
  assert (Hk512 : 512 <= k).
  { cbn [In] in Hk. destruct Hk as [<-|[<-|[<-|[<-|[]]]]]; lia. }
  exists (pss_encode hashlib h (salt_of urandom s) k m).
  split; [apply add_pss_padding_ok; try assumption; lia|].
  assert (Hlen : len (pss_encode hashlib h (salt_of urandom s) k m) = em_len k).
  { apply pss_encode_len; [exact Hs|lia]. }
  split; [exact Hlen|]. split; [apply pss_encode_trailer|].
  rewrite Hlen. change (8 * em_len k - (k - 1)) with (zero_bits k).
  rewrite pss_encode_parts. unfold encoded_masked_db.
  destruct (clear_top_bits (zero_bits k) _ (zero_bits_range k)
              (encoded_masked_db_nonempty h (salt_of urandom s) k m Hs
                 ltac:(lia))) as (b & rest & E & _ & Hbits).
  rewrite E. exists b. eexists. split; [reflexivity|].
  intros i Hi. apply Hbits. lia.
Qed.

(** What [recover_db] has checked and computed when it returns a data
    block. *)
Lemma recover_db_inv (h : string) (s k : Z) (m sig db : bytes) :
  recover_db hashlib h s k m sig = Return (Some db) ->
  let mdl := em_len k - digest_size h - 1 in
  let masked_db := slice sig 0 mdl in
  supported h = true /\ 0 <= s /\ digest_size h + s + 2 <= em_len k
  /\ slice_from sig (-1) = [xbc]
  /\ exists mask,
       mgf1 hashlib h (slice sig mdl (mdl + digest_size h)) mdl = Return mask
       /\ db = fill_width
                 (int_to_bytes
                    (Z.lxor (int_from_bytes masked_db)
                            (int_from_bytes (clear_top (zero_bits k) mask))))
                 (len masked_db).
Proof.
  unfold recover_db. fold (em_len k).
  destruct (s <? 0) eqn:E0; [discriminate|].
  destruct (supported h) eqn:Hs; [|discriminate]. cbn [negb]. cbv zeta.
  rewrite !digest_len by exact Hs.
  destruct (em_len k <? digest_size h + s + 2) eqn:Ef; [discriminate|].
  destruct (bytes_eqb (slice_from sig (-1)) [xbc]) eqn:Et; [|discriminate].
  cbn [negb].
  destruct (ord _) as [first_byte|e]; [|discriminate]. cbn [bind].
  destruct (rshift _ _) as [bits|e]; [|discriminate]. cbn [bind].
  destruct (bits =? 0); [|discriminate]. cbn [negb].
  destruct (mgf1 _ _ _ _) as [mask|e] eqn:Em; [|discriminate]. cbn [bind].
  change (8 * em_len k - (k - 1)) with (zero_bits k).
  pose proof (zero_bits_range k) as Hz.
  rewrite left_int_mask_of_ok by exact Hz. cbn [bind].
  pose proof (mgf1_inv _ _ _ _ Em) as (_ & Hn & _ & Hl).
  rewrite mask_first_byte_ok; [cbn [bind]|exact Hz|].
  - rewrite pad_is_fill_width. intros H. injection H as <-.
    apply bytes_eqb_eq in Et.
    repeat split; try lia; try exact Et.
    exists mask. split; reflexivity.
  - intros ->. unfold len in Hl. simpl in Hl. lia.
Qed.

(** C2, amended.  For a signature of at least [em_len - hash_len - 1]
    bytes that passes the trailer-byte and leading-zero-bit checks, the
    recovered data block is the byte-wise XOR of maskedDB, the first
    [em_len - hash_len - 1] bytes of the signature, with the MGF1 mask of
    H' after the top [8 * em_len - em_bits] bits of the mask's first byte
    have been cleared. *)
Theorem recover_db_is_xor_of_cleared_mask (h : string) (s k : Z)
  (m sig db : bytes) :
  recover_db hashlib h s k m sig = Return (Some db) ->
  em_len k - digest_size h - 1 <= len sig ->
  let mdl := em_len k - digest_size h - 1 in
  exists mask,
    mgf1 hashlib h (slice sig mdl (mdl + digest_size h)) mdl = Return mask
    /\ db = xor_bytes (slice sig 0 mdl) (clear_top (zero_bits k) mask).
Proof.
  intros H Hlen mdl.
  destruct (recover_db_inv h s k m sig db H)
    as (Hs & H0 & Hfeas & Ht & mask & Hm & ->).
  fold mdl in Hm |- *. exists mask. split; [exact Hm|].
  destruct (mgf1_inv _ _ _ _ Hm) as (_ & Hn & _ & Hl).
  assert (Hmd : len (slice sig 0 mdl) = mdl).
  { rewrite len_slice; lia. }
  assert (Hc : len (clear_top (zero_bits k) mask) = mdl).
  { unfold len. rewrite clear_top_length. exact Hl. }
  replace (len (slice sig 0 mdl))
    with (len (clear_top (zero_bits k) mask)) by lia.
  apply fill_width_xor; unfold len in *; lia.
Qed.

Lemma first_byte_of_prefix (sig : bytes) (n : Z) :
  sig <> [] -> 1 <= n ->
  exists b, slice (slice sig 0 n) 0 1 = [b] /\ exists t, sig = b :: t.
Proof.
  intros Hs Hn. destruct sig as [|b t]; [congruence|]. exists b.
  split; [|now exists t].
  rewrite !slice_prefix by lia.
  destruct (Z.to_nat n) as [|j] eqn:E; [lia|]. reflexivity.
Qed.

(** [recover_db] returns whenever MGF1's counter suffices for the mask. *)
Lemma recover_db_returns (h : string) (s k : Z) (m sig : bytes) :
  supported h = true -> 0 <= s ->
  em_len k - digest_size h - 1 <= 2 ^ 32 * digest_size h ->
  exists r, recover_db hashlib h s k m sig = Return r.
Proof.
  intros Hs H0 Hmax. unfold recover_db. fold (em_len k).
  replace (s <? 0) with false by (symmetry; apply Z.ltb_ge; lia).
  rewrite Hs. cbn [negb]. cbv zeta. rewrite !digest_len by exact Hs.
  destruct (em_len k <? digest_size h + s + 2) eqn:Ef; [eexists; reflexivity|].
  apply Z.ltb_ge in Ef.
  destruct (bytes_eqb (slice_from sig (-1)) [xbc]) eqn:Et;
    [|eexists; reflexivity].
  cbn [negb]. apply bytes_eqb_eq in Et.
  assert (Hne : sig <> []) by (intros ->; discriminate).
  destruct (first_byte_of_prefix sig (em_len k - digest_size h - 1) Hne
              ltac:(lia)) as (b & -> & _).
  cbn [ord bind]. change (8 * em_len k - (k - 1)) with (zero_bits k).
  pose proof (zero_bits_range k) as Hz.
  unfold rshift.
  replace (8 - zero_bits k <? 0) with false by (symmetry; apply Z.ltb_ge; lia).
  cbn [bind].
  destruct (Z.shiftr (Z_of_byte b) (8 - zero_bits k) =? 0);
    [|eexists; reflexivity].
  cbn [negb]. rewrite mgf1_ok by (try exact Hs; lia). cbn [bind].
  rewrite left_int_mask_of_ok by exact Hz. cbn [bind].
  rewrite mask_first_byte_ok; [cbn [bind]; eexists; reflexivity|exact Hz|].
  intros E.
  pose proof (mgf1_mask_len h
    (slice sig (em_len k - digest_size h - 1)
           (em_len k - digest_size h - 1 + digest_size h))
    (em_len k - digest_size h - 1) Hs ltac:(lia)) as Hl.
  rewrite E in Hl. unfold len in Hl. simpl in Hl. lia.
Qed.


(** The verdict depends on the signature only through its last byte and
    the two slices maskedDB and H'. *)
Lemma verify_pss_padding_slices (h : string) (s k : Z) (m sig sig' : bytes) :
  let mdl := ceil_div (k - 1) 8 - len (hashlib h m) - 1 in
  slice_from sig (-1) = slice_from sig' (-1) ->
  slice sig 0 mdl = slice sig' 0 mdl ->
  slice sig mdl (mdl + len (hashlib h m))
  = slice sig' mdl (mdl + len (hashlib h m)) ->
  verify_pss_padding hashlib h s k m sig
  = verify_pss_padding hashlib h s k m sig'.
Proof.
  intros mdl Ht Hm Hd. unfold verify_pss_padding, recover_db. cbv zeta.
  fold mdl. rewrite Ht, Hm, Hd. reflexivity.
Qed.

(** What a signature that verifies has passed. *)
Lemma verify_pss_padding_true_inv (h : string) (s k : Z) (m sig : bytes) :
  verify_pss_padding hashlib h s k m sig = Return true ->
  let mdl := em_len k - digest_size h - 1 in
  supported h = true /\ 0 <= s /\ digest_size h + s + 2 <= em_len k
  /\ slice_from sig (-1) = [xbc]
  /\ len (slice sig mdl (mdl + digest_size h)) = digest_size h.
Proof.
  unfold verify_pss_padding.
  destruct (recover_db hashlib h s k m sig) as [[db|]|e] eqn:Er;
    cbn [bind]; try discriminate.
  destruct (recover_db_inv h s k m sig db Er)
    as (Hs & H0 & Hfeas & Ht & _).
  cbv zeta. fold (em_len k). rewrite !digest_len by exact Hs.
  destruct (constant_compare (slice db _ _) _); cbn [negb]; [|discriminate].
  destruct (bytes_eqb _ _); cbn [negb]; [|discriminate].
  intros H. injection H as H. apply constant_compare_eq in H.
  repeat split; try assumption.
  rewrite H. apply digest_len. exact Hs.
Qed.

(** C9.  [verify_pss_padding] does not compare the length of the
    signature with [em_len]: when a byte string verifies, so does the
    string with one more byte 0xBC at its end. *)
Theorem verify_pss_padding_ignores_length (h : string) (s k : Z)
  (m em : bytes) :
  verify_pss_padding hashlib h s k m em = Return true ->
  verify_pss_padding hashlib h s k m (em ++ [xbc]) = Return true.
Proof.
  intros H.
  destruct (verify_pss_padding_true_inv h s k m em H)
    as (Hs & H0 & Hfeas & Ht & Hd).
  pose proof (digest_size_bounds h Hs) as Hb.
  apply slice_full_length in Hd; [|lia|lia].
  rewrite <- H. symmetry. apply verify_pss_padding_slices.
  - rewrite Ht. symmetry. apply slice_from_last.
  - symmetry. fold (em_len k). rewrite digest_len by exact Hs.
    apply slice_app_within; lia.
  - symmetry. fold (em_len k). rewrite digest_len by exact Hs.
    apply slice_app_within; lia.
Qed.

(** C10.  With [salt_length = 0] the randomness source is not consulted:
    two invocations of [add_pss_padding] on the same arguments have the
    same outcome whatever the source returns, and for a supported hash
    and a key length of at least 512 that passes the feasibility check
    (and whose mask MGF1's counter can produce) that outcome is one and
    the same byte string. *)
Theorem add_pss_padding_no_salt_deterministic (urandom urandom' : Z -> bytes)
  (h : string) (k : Z) (m : bytes) :
  add_pss_padding hashlib urandom h 0 k m
  = add_pss_padding hashlib urandom' h 0 k m
  /\ (supported h = true -> 512 <= k ->
      em_len k >= digest_size h + 0 + 2 ->
      em_len k - digest_size h - 1 <= 2 ^ 32 * digest_size h ->
      exists em,
        add_pss_padding hashlib urandom h 0 k m = Return em
        /\ add_pss_padding hashlib urandom' h 0 k m = Return em).
Proof.
  split; [reflexivity|]. intros Hs Hk Hfeas Hmax.
  exists (pss_encode hashlib h [] k m).
  split.
  - apply (add_pss_padding_ok urandom h 0 k m); try assumption; lia.
  - apply (add_pss_padding_ok urandom' h 0 k m); try assumption; lia.
Qed.

(** C6, amended.  For a supported hash, any seed, and lengths [n >= 1]
    and [k > 0] with [n + k <= 2^32 * hash_len] (the masks MGF1's 32-bit
    counter can produce), [mgf1(hash, seed, n)] has exactly [n] bytes, is
    the beginning of [mgf1(hash, seed, n + k)], and is the leading [n]
    bytes of the concatenation of [Hash(seed || BE32(counter))] for
    [counter = 0 .. ceil(n / hash_len) - 1]. *)
Theorem mgf1_length_and_prefix (h : string) (seed : bytes) (n k : Z) :
  supported h = true -> 1 <= n -> 0 < k ->
  n + k <= 2 ^ 32 * digest_size h ->
  exists out out',
    mgf1 hashlib h seed n = Return out
    /\ mgf1 hashlib h seed (n + k) = Return out'
    /\ len out = n
    /\ out = firstn (Z.to_nat n) out'
    /\ out = firstn (Z.to_nat n)
               (concat
                  (map (fun c => hashlib h (seed ++ BE32 (Z.of_nat c)))
                       (seq 0 (Z.to_nat (ceil_div n (digest_size h)))))).
Proof.
  intros Hs Hn Hk Hmax.
  exists (mgf1_mask hashlib h seed n), (mgf1_mask hashlib h seed (n + k)).
  split; [apply mgf1_ok; try assumption; lia|].
  split; [apply mgf1_ok; try assumption; lia|].
  split; [apply mgf1_mask_len; assumption|].
  split; [apply mgf1_mask_prefix; try assumption; lia|reflexivity].
Qed.

Lemma xor_byte_cancel (d m : byte) : xor_byte (xor_byte d m) m = d.
Proof.
  apply Z_of_byte_inj. rewrite !Z_of_xor_byte.
  now rewrite Z.lxor_assoc, Z.lxor_nilpotent, Z.lxor_0_r.
Qed.

Lemma xor_bytes_cancel (a b : bytes) :
  length a = length b -> xor_bytes (xor_bytes a b) b = a.
Proof.
  revert b. induction a as [|x a IH]; intros [|y b] H; simpl in *;
    try discriminate; [reflexivity|].
  rewrite xor_byte_cancel, IH; [reflexivity|lia].
Qed.

Lemma land_lxor_mask (M d m : Z) :
  Z.lxor (Z.land M (Z.lxor d m)) (Z.land M m) = Z.land M d.
Proof.
  apply Z.bits_inj'. intros i Hi.
  rewrite !Z.lxor_spec, !Z.land_spec, Z.lxor_spec.
  destruct (Z.testbit M i), (Z.testbit d i), (Z.testbit m i); reflexivity.
Qed.

(** Unmasking with the cleared mask undoes masking followed by clearing,
    for a data block whose first byte has no bit among the cleared ones. *)
Lemma unmask_cleared (zb : Z) (db mask : bytes) (d0 : byte) (t : bytes) :
  0 <= zb <= 7 -> length db = length mask -> db = d0 :: t ->
  Z_of_byte d0 < 2 ^ (8 - zb) ->
  xor_bytes (clear_top zb (xor_bytes db mask)) (clear_top zb mask) = db.
Proof.
  intros Hz Hl -> Hd. destruct mask as [|m0 mt]; [discriminate|].
  cbn [xor_bytes clear_top]. f_equal.
  - apply Z_of_byte_inj. rewrite Z_of_xor_byte, !Z_of_byte_of_Z.
    pose proof (Z_of_byte_range d0) as Hd0.
    pose proof (Z_of_byte_range m0) as Hm0.
    pose proof (Z_of_byte_range (xor_byte d0 m0)) as Hx.
    pose proof (land_mask_low zb _ Hz Hx).
    pose proof (land_mask_low zb _ Hz Hm0).
    assert (2 ^ (8 - zb) <= 256).
    { change 256 with (2 ^ 8). apply Z.pow_le_mono_r; lia. }
    rewrite !Z.mod_small by lia.
    rewrite Z_of_xor_byte, land_lxor_mask.
    replace (2 ^ (8 - zb) - 1) with (Z.ones (8 - zb))
      by (rewrite Z.ones_equiv; lia).
    rewrite Z.land_comm, Z.land_ones by lia. apply Z.mod_small. lia.
  - apply xor_bytes_cancel. simpl in Hl. lia.
Qed.

Lemma encoded_db_head (h : string) (salt : bytes) (k : Z) :
  exists d0 t, encoded_db h salt k = d0 :: t /\ Z_of_byte d0 < 2.
Proof.
  unfold encoded_db.
  destruct (Z.to_nat (em_len k - len salt - digest_size h - 2)) as [|j].
  - exists x01, salt. split; [reflexivity|]. cbv. reflexivity.
  - exists x00. eexists. split; [reflexivity|]. cbv. reflexivity.
Qed.

(** Round trip for a non-empty salt: the encoding of the specification
    verifies. *)
Lemma verify_pss_encode (h : string) (salt : bytes) (k : Z) (m : bytes) :
  supported h = true -> 0 < len salt ->
  digest_size h + len salt + 2 <= em_len k ->
  em_len k - digest_size h - 1 <= 2 ^ 32 * digest_size h ->
  verify_pss_padding hashlib h (len salt) k m (pss_encode hashlib h salt k m)
  = Return true.
Proof.
  intros Hs Hsalt Hfeas Hmax.
  pose proof (digest_size_bounds h Hs) as Hd.
  pose proof (zero_bits_range k) as Hz.
  set (s := len salt) in *.
  set (mdl := em_len k - digest_size h - 1).
  pose proof (encoded_masked_db_len h salt k m Hs Hfeas) as Hml.
  pose proof (encoded_db_len h salt k Hfeas) as Hdbl.
  fold mdl in Hml, Hdbl.
  assert (Hdig : len (encoded_digest h salt m) = digest_size h)
    by (apply digest_len; exact Hs).
  assert (Hmask : len (mgf1_mask hashlib h (encoded_digest h salt m) mdl)
                  = mdl) by (apply mgf1_mask_len; [exact Hs|unfold mdl; lia]).
  rewrite pss_encode_parts.
  set (mdb := encoded_masked_db h salt k m) in *.
  set (H' := encoded_digest h salt m) in *.
  unfold verify_pss_padding, recover_db. fold (em_len k).
  replace (s <? 0) with false by (symmetry; apply Z.ltb_ge; lia).
  rewrite Hs. cbn [negb]. cbv zeta. rewrite !digest_len by exact Hs.
  replace (em_len k <? digest_size h + s + 2) with false
    by (symmetry; apply Z.ltb_ge; lia).
  fold mdl.
  replace (mdb ++ H' ++ [xbc]) with ((mdb ++ H') ++ [xbc])
    by (now rewrite <- app_assoc).
  rewrite slice_from_last, bytes_eqb_refl. cbn [negb].
  rewrite <- app_assoc.
  assert (Hsl1 : slice (mdb ++ H' ++ [xbc]) 0 mdl = mdb).
  { apply slice_app_l'. exact Hml. }
  assert (Hsl2 : slice (mdb ++ H' ++ [xbc]) mdl (mdl + digest_size h) = H').
  { apply slice_app_mid'; assumption. }
  rewrite Hsl1, Hsl2.
  destruct (clear_top_bits (zero_bits k) _ Hz
              (encoded_masked_db_nonempty h salt k m Hs Hfeas))
    as (b0 & rest & Eb & Hb0 & _).
  fold mdl H' in Eb. change (clear_top (zero_bits k) _) with mdb in Eb.
  assert (Hord : slice mdb 0 1 = [b0]).
  { rewrite Eb, slice_prefix by lia. reflexivity. }
  rewrite Hord. cbn [ord bind]. change (8 * em_len k - (k - 1)) with (zero_bits k).
  unfold rshift.
  replace (8 - zero_bits k <? 0) with false by (symmetry; apply Z.ltb_ge; lia).
  cbn [bind].
  pose proof (Z_of_byte_range b0) as Hb0r.
  rewrite Z.shiftr_div_pow2, Z.div_small by lia.
  cbn [Z.eqb negb]. rewrite mgf1_ok by (try exact Hs; unfold mdl; lia).
  cbn [bind]. rewrite left_int_mask_of_ok by exact Hz. cbn [bind].
  set (mask := mgf1_mask hashlib h H' mdl) in *.
  rewrite mask_first_byte_ok;
    [cbn [bind]|exact Hz|
     intros E; rewrite E in Hmask; change (len (@nil byte)) with 0 in Hmask;
     unfold mdl in *; lia].
  rewrite pad_is_fill_width.
  replace (len mdb) with (len (clear_top (zero_bits k) mask))
    by (unfold len; rewrite clear_top_length; unfold len in *; lia).
  rewrite fill_width_xor
    by (rewrite ?clear_top_length; unfold len in *; lia).
  destruct (encoded_db_head h salt k) as (d0 & t & Ed & Hd0).
  assert (Hun : xor_bytes mdb (clear_top (zero_bits k) mask)
                = encoded_db h salt k).
  { unfold mdb, encoded_masked_db. fold mdl H' mask.
    apply (unmask_cleared _ _ _ d0 t); [exact Hz| |exact Ed|].
    - unfold len in *. lia.
    - assert (2 ^ 1 <= 2 ^ (8 - zero_bits k))
        by (apply Z.pow_le_mono_r; lia).
      change (2 ^ 1) with 2 in *. lia. }
  rewrite Hun. cbn [bind].
  set (zl := em_len k - digest_size h - s - 2).
  assert (Hzl : 0 <= zl) by (unfold zl; lia).
  assert (Edb : encoded_db h salt k = bytes_mul x00 zl ++ [x01] ++ salt).
  { unfold encoded_db, bytes_mul. fold s. do 3 f_equal. unfold zl. lia. }
  assert (Hz0 : len (bytes_mul x00 zl) = zl)
    by (rewrite len_bytes_mul; lia).
  assert (S1 : slice (encoded_db h salt k) 0 zl = bytes_mul x00 zl).
  { rewrite Edb. apply slice_app_l'. exact Hz0. }
  assert (S2 : slice (encoded_db h salt k) zl (zl + 1) = [x01]).
  { rewrite Edb. apply slice_app_mid'; [exact Hz0|reflexivity]. }
  assert (S3 : slice_from (encoded_db h salt k) (0 - s) = salt).
  { rewrite slice_from_neg by (rewrite Hdbl; unfold mdl; lia).
    rewrite Hdbl, Edb.
    replace (Z.to_nat (mdl - s)) with (length (bytes_mul x00 zl ++ [x01]))
      by (rewrite length_app; unfold len in Hz0; cbn [length];
          unfold mdl, zl in *; lia).
    rewrite app_assoc, skipn_app, Nat.sub_diag, skipn_all. reflexivity. }
  rewrite S1, S2, S3, constant_compare_refl, bytes_eqb_refl. cbn [negb].
  change (bytes_mul x00 8) with (repeat x00 8).
  fold (encoded_digest h salt m). fold H'.
  now rewrite constant_compare_refl.
Qed.

(** X1.  Round trip.  For a supported hash, a salt length above 0, a key
    length of at least 512 with [em_len >= hash_len + salt_length + 2]
    whose mask fits MGF1's counter, and any message, [verify_pss_padding]
    accepts what [add_pss_padding] returns. *)
Lemma pss_round_trip (urandom : Z -> bytes) (h : string) (s k : Z)
  (m : bytes) :
  supported h = true -> 0 < s -> 512 <= k ->
  digest_size h + s + 2 <= em_len k ->
  em_len k - digest_size h - 1 <= 2 ^ 32 * digest_size h ->
  len (urandom s) = s ->
  exists em,
    add_pss_padding hashlib urandom h s k m = Return em
    /\ verify_pss_padding hashlib h s k m em = Return true.
Proof.
  intros Hs H0 Hk Hfeas Hmax Hu.
  exists (pss_encode hashlib h (salt_of urandom s) k m).
  split; [apply add_pss_padding_ok; try assumption; try lia; auto|].
  assert (Hsalt : len (salt_of urandom s) = s)
    by (apply salt_of_len; [lia|auto]).
  rewrite <- Hsalt at 1. apply verify_pss_encode; rewrite ?Hsalt; assumption.
Qed.

End WithHashlib.

End PssFacts.

(* ================================================================== *)
(** * The verdict of [verify_pss_padding] *)
(* ================================================================== *)

Module PssVerdict.

Section WithHashlib.

Variable hashlib : string -> bytes -> bytes.

Hypothesis digest_len :
  forall h m, supported h = true -> len (hashlib h m) = digest_size h.




End WithHashlib.

End PssVerdict.

(* ================================================================== *)
(** * The TLS record scanners and [parse_session_info] *)
(* ================================================================== *)

Module TlsFacts.

Lemma record_length_nonneg (buf : bytes) (p : Z) : 0 <= record_length_at buf p.
Proof. unfold record_length_at. apply int_from_bytes_range. Qed.

(** The walk does not depend on the fuel once there is enough of it. *)
Lemma record_walk_fuel (buf : bytes) (f f' : nat) (p : Z) :
  len buf - p <= Z.of_nat f -> len buf - p <= Z.of_nat f' ->
  record_walk f buf p = record_walk f' buf p.
Proof.
  revert f' p. induction f as [|f IH]; intros f' p Hf Hf'.
  - destruct f'; cbn [record_walk];
      replace (p <? len buf) with false by (symmetry; apply Z.ltb_ge; lia);
      reflexivity.
  - cbn [record_walk]. destruct (p <? len buf) eqn:E.
    + destruct f' as [|f']; [apply Z.ltb_lt in E; lia|].
      cbn [record_walk]. rewrite E. f_equal.
      pose proof (record_length_nonneg buf p). apply IH; lia.
    + destruct f'; cbn [record_walk]; rewrite E; reflexivity.
Qed.

Lemma record_walk_head (buf : bytes) (f : nat) (p a : Z) (rest : list Z) :
  record_walk f buf p = a :: rest -> a = p.
Proof.
  destruct f; cbn [record_walk]; destruct (p <? len buf); try discriminate.
  intros H. now injection H.
Qed.

(** Consecutive offsets are exactly one record apart. *)
Lemma record_walk_stride (buf : bytes) (f : nat) (p : Z)
  (pre : list Z) (a b : Z) (post : list Z) :
  record_walk f buf p = pre ++ a :: b :: post ->
  b = a + 5 + record_length_at buf a.
Proof.
  revert p pre. induction f as [|f IH]; intros p pre H.
  - cbn [record_walk] in H. destruct (p <? len buf), pre; discriminate.
  - cbn [record_walk] in H. destruct (p <? len buf).
    + destruct pre as [|x pre]; cbn [app] in H; injection H as -> H.
      * apply record_walk_head in H. exact H.
      * eapply IH. exact H.
    + destruct pre; discriminate.
Qed.

(** The walk ends only where the buffer ends. *)
Lemma record_walk_last (buf : bytes) (f : nat) (p : Z) (pre : list Z) (a : Z) :
  len buf - p <= Z.of_nat f ->
  record_walk f buf p = pre ++ [a] ->
  len buf <= a + 5 + record_length_at buf a.
Proof.
  revert p pre. induction f as [|f IH]; intros p pre Hf H.
  - cbn [record_walk] in H. destruct (p <? len buf), pre; discriminate.
  - cbn [record_walk] in H. destruct (p <? len buf) eqn:E.
    + pose proof (record_length_nonneg buf p) as Hl.
      destruct pre as [|x pre]; cbn [app] in H; injection H as -> H.
      * destruct f; cbn [record_walk] in H.
        -- apply Z.ltb_lt in E. lia.
        -- destruct (a + 5 + record_length_at buf a <? len buf) eqn:E2;
             [discriminate|]. apply Z.ltb_ge in E2. exact E2.
      * eapply IH; [|exact H]. lia.
    + destruct pre; discriminate.
Qed.

(** The scanning loop returns the payload of the first record of the walk
    whose header is followed by the requested byte. *)
Lemma find_message_walk (want buf : bytes) (f : nat) (p : Z) :
  find_message want buf f p
  = option_map (payload_at buf) (find (starts_message want buf)
                                      (record_walk f buf p)).
Proof.
  revert p. induction f as [|f IH]; intros p.
  - cbn [find_message record_walk]. destruct (p <? len buf); reflexivity.
  - cbn [find_message record_walk]. destruct (p <? len buf); [|reflexivity].
    cbn [find]. fold (record_type_at buf p) (record_length_at buf p).
    fold (byte_after_header buf p). fold (starts_message want buf p).
    destruct (starts_message want buf p); [reflexivity|apply IH].
Qed.

(** On a record that is not empty, the byte after the header is the
    payload's first byte. *)
Lemma starts_message_nonempty (want buf : bytes) (p : Z) :
  0 <= p -> 0 < record_length_at buf p ->
  starts_message want buf p = is_handshake_message want buf p.
Proof.
  intros Hp Hl. unfold starts_message, is_handshake_message.
  unfold payload_at, byte_after_header.
  rewrite slice_slice_prefix by lia.
  replace (p + 5 + 1) with (p + 6) by lia. reflexivity.
Qed.

Lemma record_walk_nonneg (buf : bytes) (f : nat) (p a : Z) :
  0 <= p -> In a (record_walk f buf p) -> 0 <= a.
Proof.
  revert p. induction f as [|f IH]; intros p Hp H.
  - cbn [record_walk] in H. destruct (p <? len buf); contradiction.
  - cbn [record_walk] in H. destruct (p <? len buf); [|contradiction].
    destruct H as [<-|H]; [exact Hp|].
    pose proof (record_length_nonneg buf p). eapply IH; [|exact H]. lia.
Qed.

Section WithCollaborators.

Variable Certificate : Type.
Variable Certificate_load : bytes -> result Certificate.
Variable CIPHER_SUITE_MAP : list (bytes * string).

(** The extension loop and the certificate loop do not depend on the
    fuel once it covers the bytes that are left: the cursor grows by at
    least 4, respectively 3, in every iteration. *)
Lemma scan_extensions_fuel (tls_record : bytes) (extensions_end : Z)
  (mark : string) (f f' : nat) (start : Z) (ticket : option string) :
  extensions_end - start <= Z.of_nat f ->
  extensions_end - start <= Z.of_nat f' ->
  scan_extensions tls_record extensions_end mark f start ticket
  = scan_extensions tls_record extensions_end mark f' start ticket.
Proof.
  revert f' start ticket. induction f as [|f IH]; intros f' start ticket Hf Hf'.
  - destruct f'; cbn [scan_extensions];
      replace (start <? extensions_end) with false
        by (symmetry; apply Z.ltb_ge; lia); reflexivity.
  - cbn [scan_extensions]. destruct (start <? extensions_end) eqn:E.
    + destruct f' as [|f']; [apply Z.ltb_lt in E; lia|].
      cbn [scan_extensions]. rewrite E.
      pose proof (proj1 (int_from_bytes_range
                           (slice tls_record (start + 2) (start + 4)))).
      apply IH; lia.
    + destruct f'; cbn [scan_extensions]; rewrite E; reflexivity.
Qed.

Lemma load_certificates_fuel (message_bytes : bytes) (f f' : nat)
  (pointer : Z) (output : list Certificate) :
  len message_bytes - pointer <= Z.of_nat f ->
  len message_bytes - pointer <= Z.of_nat f' ->
  load_certificates Certificate Certificate_load message_bytes f pointer output
  = load_certificates Certificate Certificate_load message_bytes f' pointer
                      output.
Proof.
  revert f' pointer output.
  induction f as [|f IH]; intros f' pointer output Hf Hf'.
  - destruct f'; cbn [load_certificates];
      replace (pointer <? len message_bytes) with false
        by (symmetry; apply Z.ltb_ge; lia); reflexivity.
  - cbn [load_certificates]. destruct (pointer <? len message_bytes) eqn:E.
    + destruct f' as [|f']; [apply Z.ltb_lt in E; lia|].
      cbn [load_certificates]. rewrite E.
      destruct (Certificate_load _) as [cert|e]; [|reflexivity].
      cbn [bind].
      pose proof (proj1 (int_from_bytes_range
                           (slice message_bytes pointer (pointer + 3)))).
      apply IH; lia.
    + destruct f'; cbn [load_certificates]; rewrite E; reflexivity.
Qed.

(** C7, amended.
  The record scanners of [extract_chain] and
    [get_dh_params_length] visit the records of the buffer in order, each
    exactly [5 + record_length] after the one before and so never moving
    backwards, up to the end of the buffer; they pass every record that
    is not a Handshake (0x16) record whose header is followed by the
    requested sub-type byte and stop at the first that is; that byte is
    the payload's first byte whenever the record is not empty; and when
    no record qualifies they return the not-found result (the empty list,
    [None]) and raise nothing. *)
Theorem record_scan_walks_records (want buf : bytes) :
  (forall pre a b post,
      records buf = pre ++ a :: b :: post ->
      b = a + 5 + record_length_at buf a /\ a < b)
  /\ (forall pre a,
         records buf = pre ++ [a] -> len buf <= a + 5 + record_length_at buf a)
  /\ find_message want buf (length buf) 0
     = option_map (payload_at buf)
                  (find (starts_message want buf) (records buf))
  /\ (forall p,
         In p (records buf) -> 0 < record_length_at buf p ->
         starts_message want buf p = is_handshake_message want buf p)
  /\ (find (starts_message [x0b] buf) (records buf) = None ->
      extract_chain Certificate Certificate_load buf = Return [])
  /\ (find (starts_message [x0c] buf) (records buf) = None ->
      get_dh_params_length buf = None).
Proof.
  repeat split.
  - eapply record_walk_stride. exact H.
  - apply record_walk_stride in H. pose proof (record_length_nonneg buf a). lia.
  - intros pre a H. eapply record_walk_last; [|exact H]. unfold len. lia.
  - apply find_message_walk.
  - intros p Hp Hl. apply starts_message_nonempty; [|exact Hl].
    eapply record_walk_nonneg; [|exact Hp]. lia.
  - intros H. unfold extract_chain. rewrite find_message_walk.
    fold (records buf). rewrite H. reflexivity.
  - intros H. unfold get_dh_params_length. rewrite find_message_walk.
    fold (records buf). rewrite H. reflexivity.
Qed.

(** C8, amended.  [get_dh_params_length] takes the first record of the
    walk that is a Handshake record whose header is followed by the byte
    0x0c (a ServerKeyExchange message when the record is not empty),
    skips the four-byte message header of its payload, reads the next two
    bytes as a big-endian integer and returns eight times that value, so
    that a p-length field 0x0100 gives 2048; it returns [None] when the
    walk has no such record. *)
Theorem get_dh_params_length_reads_p_length (buf : bytes) :
  get_dh_params_length buf
  = option_map (fun p => int_from_bytes (slice (payload_at buf p) 4 6) * 8)
               (find (starts_message [x0c] buf) (records buf))
  /\ (forall p hdr hi lo rest,
         find (starts_message [x0c] buf) (records buf) = Some p ->
         payload_at buf p = hdr ++ hi :: lo :: rest -> length hdr = 4%nat ->
         get_dh_params_length buf
         = Some ((Z_of_byte hi * 256 + Z_of_byte lo) * 8))
  /\ (forall p hdr rest,
         find (starts_message [x0c] buf) (records buf) = Some p ->
         payload_at buf p = hdr ++ x01 :: x00 :: rest -> length hdr = 4%nat ->
         get_dh_params_length buf = Some 2048)
  /\ (forall p,
         find (starts_message [x0c] buf) (records buf) = Some p ->
         0 < record_length_at buf p ->
         is_handshake_message [x0c] buf p = true)
  /\ (find (starts_message [x0c] buf) (records buf) = None ->
      get_dh_params_length buf = None).
Proof.
  assert (E : get_dh_params_length buf
    = option_map (fun p => int_from_bytes (slice (payload_at buf p) 4 6) * 8)
                 (find (starts_message [x0c] buf) (records buf))).
  { unfold get_dh_params_length. rewrite find_message_walk.
    fold (records buf). destruct (find _ _); reflexivity. }
  assert (R : forall p hdr hi lo rest,
    find (starts_message [x0c] buf) (records buf) = Some p ->
    payload_at buf p = hdr ++ hi :: lo :: rest -> length hdr = 4%nat ->
    get_dh_params_length buf = Some ((Z_of_byte hi * 256 + Z_of_byte lo) * 8)).
  { intros p hdr hi lo rest Hf Hp Hh. rewrite E, Hf. cbn [option_map].
    rewrite Hp.
    replace (slice (hdr ++ hi :: lo :: rest) 4 6) with [hi; lo].
    - reflexivity.
    - symmetry. change (hi :: lo :: rest) with ([hi; lo] ++ rest).
      change 6 with (4 + 2). apply slice_app_mid'; unfold len.
      + rewrite Hh. reflexivity.
      + reflexivity. }
  split; [exact E|]. split; [exact R|]. split; [|split].
  - intros p hdr rest Hf Hp Hh. rewrite (R p hdr x01 x00 rest Hf Hp Hh).
    reflexivity.
  - intros p Hf Hl. pose proof (find_some _ _ Hf) as [Hin Hm].
    rewrite <- starts_message_nonempty; [exact Hm| |exact Hl].
    eapply record_walk_nonneg; [|exact Hin]. lia.
  - intros Hf. rewrite E, Hf. reflexivity.
Qed.

Lemma Return_inj {A : Type} (a b : A) : Return a = Return b -> a = b.
Proof. intros H. now injection H. Qed.

Lemma bytes_eqb_sym (a b : bytes) : bytes_eqb a b = bytes_eqb b a.
Proof.
  destruct (bytes_eqb a b) eqn:E.
  - apply bytes_eqb_eq in E. subst. symmetry. apply bytes_eqb_refl.
  - destruct (bytes_eqb b a) eqn:E'; [|reflexivity].
    apply bytes_eqb_eq in E'. subst. rewrite bytes_eqb_refl in E.
    discriminate.
Qed.

(** The server block leaves the server's session id as the wire has it,
    and does not touch the client's. *)
Lemma server_block_session_id (server : bytes) (st st' : locals) :
  l_server_session_id st = None ->
  server_block CIPHER_SUITE_MAP server st = Return st' ->
  l_server_session_id st' = hello_session_id [x02] server
  /\ l_client_session_id st' = l_client_session_id st.
Proof.
  intros H0. unfold server_block, hello_session_id.
  destruct (bytes_eqb (slice server 0 1) [x16]);
    [|intros H; apply Return_inj in H; subst st'; split; [exact H0|reflexivity]].
  cbv zeta.
  destruct (bytes_eqb (slice (slice server 5 _) 0 1) [x02]);
    [|intros H; apply Return_inj in H; subst st'; split; [exact H0|reflexivity]].
  destruct (bytes_dict_get protocol_table _) as [pr|e]; [|discriminate].
  cbn [bind].
  destruct (bytes_dict_get CIPHER_SUITE_MAP _) as [cs|e]; [|discriminate].
  cbn [bind]. intros H. apply Return_inj in H. subst st'.
  cbn [l_server_session_id l_client_session_id].
  rewrite H0. split; reflexivity.
Qed.

(** The client block sets the client's session id as the wire has it, and
    does not touch the server's. *)
Lemma client_block_session_id (client : bytes) (st : locals) :
  l_client_session_id st = None ->
  l_client_session_id (client_block client st) = hello_session_id [x01] client
  /\ l_server_session_id (client_block client st) = l_server_session_id st.
Proof.
  intros H0. unfold client_block, hello_session_id.
  destruct (bytes_eqb (slice client 0 1) [x16]);
    [|split; [exact H0|reflexivity]].
  cbv zeta.
  destruct (bytes_eqb (slice (slice client 5 _) 0 1) [x01]);
    [|split; [exact H0|reflexivity]].
  cbn [l_server_session_id l_client_session_id].
  rewrite H0. split; reflexivity.
Qed.

Lemma reconcile_table (st : locals) :
  reconcile st
  = session_id_table (l_server_session_id st) (l_client_session_id st).
Proof.
  unfold reconcile, session_id_table.
  destruct (l_server_session_id st) as [s|]; [|reflexivity].
  destruct (l_client_session_id st) as [c|]; [|reflexivity].
  rewrite (bytes_eqb_sym s c). destruct (bytes_eqb c s); reflexivity.
Qed.

(** C5.  When [parse_session_info] returns, its [session_id] field is the
    tie-break of the two session ids on the wire: "new" when the server's
    is present and the client's is absent, "reused" when both are present
    and equal, "new" when both are present and differ, and unset when the
    server's is absent, whatever the client's. *)
Theorem parse_session_info_session_id (server client : bytes)
  (info : session_info) :
  parse_session_info CIPHER_SUITE_MAP server client = Return info ->
  session_id info
  = match hello_session_id [x02] server, hello_session_id [x01] client with
    | Some _, None => Some "new"%string
    | Some s, Some c =>
        if bytes_eqb s c then Some "reused"%string else Some "new"%string
    | None, _ => None
    end.
Proof.
  unfold parse_session_info.
  destruct (server_block CIPHER_SUITE_MAP server initial_locals)
    as [st|e] eqn:Es; [|discriminate].
  cbn [bind]. intros H. apply Return_inj in H. subst info. cbn [session_id].
  destruct (server_block_session_id server initial_locals st eq_refl Es)
    as [Hs Hc].
  destruct (client_block_session_id client st Hc) as [Hc' Hs'].
  rewrite reconcile_table, Hc', Hs', Hs. reflexivity.
Qed.

End WithCollaborators.

End TlsFacts.

Import PssFacts TlsFacts.

(* ================================================================== *)
(** * The theorems at concrete inputs, with the real hash functions *)
(* ================================================================== *)

Module Examples.

(** ** EMSA-PSS *)

Lemma add_pss_padding_shape_witness :
  exists em,
    add_pss_padding Hashlib.digest fixed_urandom "sha256" 32 1024 abc
    = Return em
    /\ len em = ceil_div (1024 - 1) 8
    /\ slice_from em (-1) = [xbc]
    /\ exists b rest,
         em = b :: rest
         /\ forall i, 8 - (8 * len em - (1024 - 1)) <= i < 8 ->
                      Z.testbit (Z_of_byte b) i = false.
Proof.
  apply (add_pss_padding_shape Hashlib.digest digest_length fixed_urandom
           "sha256" 32 1024 abc).
  - reflexivity.
  - lia.
  - simpl. tauto.
  - vm_compute. discriminate.
  - intros _. reflexivity.
Defined.

Lemma add_pss_padding_no_salt_deterministic_witness :
  add_pss_padding Hashlib.digest fixed_urandom "sha1" 0 512 abc
  = add_pss_padding Hashlib.digest (fun _ => [xff]) "sha1" 0 512 abc
  /\ exists em,
       add_pss_padding Hashlib.digest fixed_urandom "sha1" 0 512 abc
       = Return em
       /\ add_pss_padding Hashlib.digest (fun _ => [xff]) "sha1" 0 512 abc
          = Return em.
Proof.
  destruct (add_pss_padding_no_salt_deterministic Hashlib.digest
              digest_length fixed_urandom (fun _ => [xff]) "sha1" 512 abc)
    as [Hsame Hbytes].
  split; [exact Hsame|]. apply Hbytes.
  - reflexivity.
  - lia.
  - vm_compute. discriminate.
  - vm_compute. discriminate.
Defined.

Lemma pss_round_trip_witness :
  exists em,
    add_pss_padding Hashlib.digest fixed_urandom "sha256" 32 1024 abc
    = Return em
    /\ verify_pss_padding Hashlib.digest "sha256" 32 1024 abc em = Return true.
Proof.
  apply (pss_round_trip Hashlib.digest digest_length fixed_urandom
           "sha256" 32 1024 abc).
  - reflexivity.
  - lia.
  - lia.
  - vm_compute. discriminate.
  - vm_compute. discriminate.
  - reflexivity.
Defined.

Example round_trip_sha1 :
  verify_pss_padding Hashlib.digest "sha1" 20 512 abc em_sha1 = Return true.
Proof. vm_compute. reflexivity. Qed.

Lemma verify_pss_padding_ignores_length_witness :
  verify_pss_padding Hashlib.digest "sha1" 20 512 abc (em_sha1 ++ [xbc])
  = Return true.
Proof.
  apply (verify_pss_padding_ignores_length Hashlib.digest digest_length
           "sha1" 20 512 abc em_sha1).
  vm_compute. reflexivity.
Defined.

(** C1 at [salt_length = 0]: the encoding [add_pss_padding] returns is
    rejected by [verify_pss_padding]. *)
Theorem round_trip_fails_without_salt :
  exists em,
    add_pss_padding Hashlib.digest fixed_urandom "sha1" 0 512 [] = Return em
    /\ verify_pss_padding Hashlib.digest "sha1" 0 512 [] em = Return false.
Proof. exists em_sha1_no_salt. split; vm_compute; reflexivity. Qed.

Lemma recover_db_is_xor_of_cleared_mask_witness :
  exists mask,
    mgf1 Hashlib.digest "sha1" (slice zero_signature 43 (43 + 20)) 43
    = Return mask
    /\ zero_signature_db
       = xor_bytes (slice zero_signature 0 43) (clear_top 1 mask).
Proof.
  apply (recover_db_is_xor_of_cleared_mask Hashlib.digest digest_length
           "sha1" 20 512 [] zero_signature zero_signature_db).
  - vm_compute. reflexivity.
  - vm_compute. discriminate.
Defined.

(** C2 as stated fails: on [zero_signature], which passes both checks,
    the recovered data block is not the XOR of maskedDB with the MGF1
    mask itself (the mask starts with 0xd3, the block with 0x53). *)
Lemma recover_db_is_not_xor_of_plain_mask :
  exists db mask,
    recover_db Hashlib.digest "sha1" 20 512 [] zero_signature
    = Return (Some db)
    /\ mgf1 Hashlib.digest "sha1" (slice zero_signature 43 (43 + 20)) 43
       = Return mask
    /\ db <> xor_bytes (slice zero_signature 0 43) mask.
Proof.
  exists zero_signature_db, zero_signature_mask.
  split; [vm_compute; reflexivity|].
  split; [vm_compute; reflexivity|]. vm_compute. discriminate.
Qed.



(** ** MGF1 *)

Lemma mgf1_length_and_prefix_witness :
  exists out out',
    mgf1 Hashlib.digest "sha1" abc 43 = Return out
    /\ mgf1 Hashlib.digest "sha1" abc (43 + 1) = Return out'
    /\ len out = 43
    /\ out = firstn (Z.to_nat 43) out'
    /\ out = firstn (Z.to_nat 43)
               (concat
                  (map (fun c => Hashlib.digest "sha1" (abc ++ BE32 (Z.of_nat c)))
                       (seq 0 (Z.to_nat (ceil_div 43 (digest_size "sha1")))))).
Proof.
  apply (mgf1_length_and_prefix Hashlib.digest digest_length "sha1" abc 43 1).
  - reflexivity.
  - lia.
  - lia.
  - vm_compute. discriminate.
Defined.

(** C6 as stated fails: a mask of [2^32 * 20 + 1] bytes needs the counter
    [2^32], which does not fit in four bytes, and [mgf1] raises
    [struct.error] instead of returning that many bytes. *)
Lemma mgf1_raises_on_long_mask :
  mgf1 Hashlib.digest "sha1" [] (2 ^ 32 * 20 + 1) = Raise StructError.
Proof.
  apply mgf1_overflow.
  - reflexivity.
  - vm_compute. reflexivity.
Qed.

(** ** TLS *)

(** C7 as stated fails: no record of this buffer is a Handshake record
    whose payload starts with 0x0c (the only Handshake record is empty),
    yet the scanner stops at offset 0 instead of passing that record, and
    [get_dh_params_length] returns 0 rather than the not-found result. *)
Lemma scanner_stops_at_empty_record :
  records empty_handshake_then_0c = [0; 5]
  /\ forallb (fun p => negb (is_handshake_message [x0c]
                               empty_handshake_then_0c p))
             (records empty_handshake_then_0c) = true
  /\ find_message [x0c] empty_handshake_then_0c
                  (length empty_handshake_then_0c) 0 = Some []
  /\ get_dh_params_length empty_handshake_then_0c = Some 0.
Proof. vm_compute. repeat split. Qed.

(** C8 as stated fails: the buffer contains a ServerKeyExchange message
    with p-length 0x0100, at offset 10, and [get_dh_params_length]
    returns 0, not 2048. *)
Lemma dh_params_length_of_wrong_record :
  records server_key_exchange_after_empty = [0; 5; 10]
  /\ find (is_handshake_message [x0c] server_key_exchange_after_empty)
          (records server_key_exchange_after_empty) = Some 10
  /\ int_from_bytes
       (slice (payload_at server_key_exchange_after_empty 10) 4 6) * 8 = 2048
  /\ get_dh_params_length server_key_exchange_after_empty = Some 0.
Proof. vm_compute. repeat split. Qed.

(** The scenario of section 8: a ServerKeyExchange message with p-length
    0x0100 after a ServerHello-sized record. *)
Example dh_params_length_2048 :
  get_dh_params_length
    (Hex.unhex "160303000202aa" ++ Hex.unhex "16030300060c0000020100")
  = Some 2048.
Proof. vm_compute. reflexivity. Qed.

Example parse_session_info_reused :
  parse_session_info cipher_suites server_hello client_hello
  = Return reused_session_info.
Proof. vm_compute. reflexivity. Qed.

Lemma parse_session_info_session_id_witness :
  session_id reused_session_info
  = match hello_session_id [x02] server_hello,
          hello_session_id [x01] client_hello with
    | Some _, None => Some "new"%string
    | Some s, Some c =>
        if bytes_eqb s c then Some "reused"%string else Some "new"%string
    | None, _ => None
    end.
Proof.
  apply (parse_session_info_session_id cipher_suites server_hello
           client_hello reused_session_info).
  vm_compute. reflexivity.
Defined.

Example session_id_rows :
  option_map session_id
    (match parse_session_info cipher_suites server_hello
                              client_hello_without_session with
     | Return i => Some i | Raise _ => None end) = Some (Some "new"%string)
  /\ option_map session_id
       (match parse_session_info cipher_suites server_hello
                                 client_hello_other_session with
        | Return i => Some i | Raise _ => None end) = Some (Some "new"%string)
  /\ option_map session_id
       (match parse_session_info cipher_suites server_hello_without_session
                                 client_hello with
        | Return i => Some i | Raise _ => None end) = Some None.
Proof. vm_compute. repeat split. Qed.

End Examples.

(* ================================================================== *)
(** * More on EMSA-PSS: outcomes, the encoded integer, soundness *)
(* ================================================================== *)

Module PssMore.

Section WithHashlib.

Variable hashlib : string -> bytes -> bytes.

Hypothesis digest_len :
  forall h m, supported h = true -> len (hashlib h m) = digest_size h.

Lemma ltb_true (a b : Z) : a < b -> (a <? b) = true.
Proof. apply Z.ltb_lt. Qed.

Lemma ltb_false (a b : Z) : b <= a -> (a <? b) = false.
Proof. apply Z.ltb_ge. Qed.

(** X2.  The outcomes of [mgf1]: ValueError for a mask length below 1 and
    for a hash name outside the five; for a supported hash and a length
    of at least 1, the mask of that many bytes up to [2^32 * hash_len]
    and [struct.error] above (for lengths below [2^47], where the
    quotient of line 242 is exact). *)
Theorem mgf1_outcomes (h : string) (seed : bytes) (n : Z) :
  (n < 1 -> mgf1 hashlib h seed n = Raise ValueError)
  /\ (supported h = false -> mgf1 hashlib h seed n = Raise ValueError)
  /\ (supported h = true -> 1 <= n <= 2 ^ 32 * digest_size h ->
      exists out, mgf1 hashlib h seed n = Return out /\ len out = n)
  /\ (supported h = true -> 2 ^ 32 * digest_size h < n < 2 ^ 47 ->
      mgf1 hashlib h seed n = Raise StructError).
Proof.
  split; [|split; [|split]].
  - intros Hn. unfold mgf1. now rewrite ltb_true.
  - intros Hs. unfold mgf1. rewrite Hs. now destruct (n <? 1).
  - intros Hs Hn. exists (mgf1_mask hashlib h seed n). split.
    + apply PssFacts.mgf1_ok; [exact Hs|lia|lia].
    + apply (PssFacts.mgf1_mask_len hashlib digest_len); [exact Hs|lia].
  - intros Hs [Hn _]. apply PssFacts.mgf1_overflow; assumption.
Qed.

(** X3.  The outcomes of [add_pss_padding], for a randomness source that
    returns as many bytes as it is asked for: ValueError for a negative
    salt length, a key length below 512 and a hash name outside the
    five; for other arguments (and a key length below [2^47], where the
    quotient of line 73 is exact) ValueError when the key is too short
    for hash and salt ([em_len < hash_len + salt_length + 2]), otherwise
    the encoded message, unless the mask needs more than [2^32] blocks,
    when MGF1's [struct.error] comes through. *)
Theorem add_pss_padding_outcomes (urandom : Z -> bytes) (h : string)
  (s k : Z) (m : bytes) :
  (0 < s -> len (urandom s) = s) ->
  (s < 0 \/ k < 512 \/ supported h = false ->
   add_pss_padding hashlib urandom h s k m = Raise ValueError)
  /\ (0 <= s -> 512 <= k < 2 ^ 47 -> supported h = true ->
      (em_len k < digest_size h + s + 2 ->
       add_pss_padding hashlib urandom h s k m = Raise ValueError)
      /\ (digest_size h + s + 2 <= em_len k ->
          em_len k - digest_size h - 1 <= 2 ^ 32 * digest_size h ->
          exists em, add_pss_padding hashlib urandom h s k m = Return em)
      /\ (digest_size h + s + 2 <= em_len k ->
          2 ^ 32 * digest_size h < em_len k - digest_size h - 1 ->
          add_pss_padding hashlib urandom h s k m = Raise StructError)).
Proof.
  intros Hu. split.
  - intros H. unfold add_pss_padding.
    destruct (s <? 0) eqn:E0; [reflexivity|].
    destruct (k <? 512) eqn:Ek; [reflexivity|].
    destruct (supported h) eqn:Hs; [|reflexivity].
    apply Z.ltb_ge in E0, Ek.
    destruct H as [H|[H|H]]; try lia; discriminate.
  - intros H0 [Hk _] Hs. split; [|split].
    + intros Hlt. unfold add_pss_padding. fold (em_len k).
      rewrite (ltb_false s 0), (ltb_false k 512), Hs by lia.
      cbn [negb]. cbv zeta. rewrite !digest_len by exact Hs.
      now rewrite ltb_true.
    + intros Hfeas Hmax. eexists.
      apply (PssFacts.add_pss_padding_ok hashlib digest_len); assumption.
    + intros Hfeas Hmax. unfold add_pss_padding. fold (em_len k).
      rewrite (ltb_false s 0), (ltb_false k 512), Hs by lia.
      cbn [negb]. cbv zeta. rewrite !digest_len by exact Hs.
      rewrite ltb_false by lia.
      rewrite PssFacts.mgf1_overflow by assumption. reflexivity.
Qed.

(** The parameters of a call of [add_pss_padding] that returned. *)
Lemma add_pss_padding_returns_valid (urandom : Z -> bytes) (h : string)
  (s k : Z) (m em : bytes) :
  add_pss_padding hashlib urandom h s k m = Return em ->
  0 <= s /\ 512 <= k /\ supported h = true
  /\ digest_size h + s + 2 <= em_len k
  /\ em_len k - digest_size h - 1 <= 2 ^ 32 * digest_size h.
Proof.
  unfold add_pss_padding. fold (em_len k).
  destruct (s <? 0) eqn:E0; [discriminate|].
  destruct (k <? 512) eqn:Ek; [discriminate|].
  destruct (supported h) eqn:Hs; [|discriminate]. cbn [negb]. cbv zeta.
  rewrite !digest_len by exact Hs.
  destruct (em_len k <? digest_size h + s + 2) eqn:Ef; [discriminate|].
  apply Z.ltb_ge in E0, Ek, Ef.
  destruct (Z_le_gt_dec (em_len k - digest_size h - 1)
                        (2 ^ 32 * digest_size h)) as [Hle|Hgt].
  - intros _. repeat split; lia.
  - rewrite PssFacts.mgf1_overflow by (try exact Hs; lia).
    discriminate.
Qed.

(** X4.  Refinement.  Where [add_pss_padding] returns, its result is the
    EMSA-PSS encoding of the specification for the salt it drew:
    [DB = zeros || 0x01 || salt] XORed byte by byte with
    [MGF1(H', em_len - hash_len - 1)], the top bits of the first byte
    cleared, followed by [H' = Hash(8 zero bytes || Hash(message) ||
    salt)] and 0xBC.  The XOR the code performs on integers, with its
    re-padding, is that byte-wise XOR. *)
Theorem add_pss_padding_is_pss_encode (urandom : Z -> bytes) (h : string)
  (s k : Z) (m em : bytes) :
  (0 < s -> len (urandom s) = s) ->
  add_pss_padding hashlib urandom h s k m = Return em ->
  em = pss_encode hashlib h (salt_of urandom s) k m
  /\ len (salt_of urandom s) = s.
Proof.
  intros Hu H.
  destruct (add_pss_padding_returns_valid urandom h s k m em H)
    as (H0 & Hk & Hs & Hfeas & Hmax).
  rewrite (PssFacts.add_pss_padding_ok hashlib digest_len urandom h s k m)
    in H by assumption.
  injection H as <-. split; [reflexivity|].
  apply PssFacts.salt_of_len; assumption.
Qed.

(** X5.  The encoded message, read as a big-endian integer, is below
    [2^(key_length - 1)], hence below any modulus of [key_length]
    bits. *)
Theorem add_pss_padding_below_modulus (urandom : Z -> bytes) (h : string)
  (s k : Z) (m em : bytes) :
  (0 < s -> len (urandom s) = s) ->
  add_pss_padding hashlib urandom h s k m = Return em ->
  0 <= int_from_bytes em < 2 ^ (k - 1).
Proof.
  intros Hu H. split; [apply int_from_bytes_range|].
  destruct (add_pss_padding_returns_valid urandom h s k m em H)
    as (H0 & Hk & Hs & Hfeas & Hmax).
  rewrite (PssFacts.add_pss_padding_ok hashlib digest_len urandom h s k m)
    in H by assumption.
  injection H as <-.
  pose proof (PssFacts.salt_of_len urandom s H0 Hu) as Hsalt.
  pose proof (PssFacts.pss_encode_len hashlib digest_len h
                (salt_of urandom s) k m Hs ltac:(lia)) as Hlen.
  pose proof (PssFacts.zero_bits_range k) as Hz.
  rewrite PssFacts.pss_encode_parts in *. unfold encoded_masked_db in *.
  destruct (PssFacts.clear_top_bits (zero_bits k) _ Hz
              (PssFacts.encoded_masked_db_nonempty hashlib digest_len h
                 (salt_of urandom s) k m Hs ltac:(lia)))
    as (b & rest & E & Hb & _).
  rewrite E in *. cbn [app] in *.
  rewrite int_from_bytes_cons. rewrite len_cons in Hlen.
  set (tl := rest ++ encoded_digest hashlib h (salt_of urandom s) m ++ [xbc])
    in *.
  pose proof (int_from_bytes_range tl) as Ht.
  pose proof (Z_of_byte_range b) as Hb0.
  pose proof (len_nonneg tl) as Hl.
  assert (Hp : 256 ^ len tl = 2 ^ (8 * len tl)).
  { change 256 with (2 ^ 8). rewrite <- Z.pow_mul_r by lia. reflexivity. }
  replace (k - 1) with ((8 - zero_bits k) + 8 * len tl)
    by (unfold zero_bits; lia).
  rewrite Z.pow_add_r, <- Hp by lia.
  assert (0 < 256 ^ len tl) by (apply Z.pow_pos_nonneg; lia).
  nia.
Qed.

(** A string cut at two places. *)
Lemma cut_three {A : Type} (l : list A) (n : nat) (x : A) :
  firstn 1 (skipn n l) = [x] ->
  l = firstn n l ++ [x] ++ skipn (S n) l.
Proof.
  intros H. rewrite <- (firstn_skipn n l) at 1. f_equal.
  rewrite <- (firstn_skipn 1 (skipn n l)), H. f_equal.
  rewrite skipn_skipn. f_equal.
Qed.

Lemma firstn_plus {A : Type} (a d : nat) (l : list A) :
  firstn (a + d) l = firstn a l ++ firstn d (skipn a l).
Proof.
  revert l. induction a as [|a IH]; intros l; [reflexivity|].
  destruct l as [|x l]; [now rewrite skipn_nil, !firstn_nil|].
  cbn [Nat.add firstn skipn app]. now rewrite IH.
Qed.

Lemma slice_split {A : Type} (l : list A) (a b : Z) :
  0 <= a -> a <= b -> slice l 0 b = slice l 0 a ++ slice l a b.
Proof.
  intros Ha Hb. rewrite !slice_nonneg by lia.
  change (Z.to_nat 0) with 0%nat. cbn [skipn]. rewrite !Nat.sub_0_r.
  replace (Z.to_nat b) with (Z.to_nat a + (Z.to_nat b - Z.to_nat a))%nat
    at 1 by lia.
  rewrite firstn_plus. reflexivity.
Qed.

Lemma slice_whole_last {A : Type} (l : list A) (n : Z) (x : A) :
  len l = n -> slice_from l (-1) = [x] -> l = slice l 0 (n - 1) ++ [x].
Proof.
  intros Hn H. destruct (slice_from_last_inv l x H) as [l' ->].
  rewrite len_app in Hn. change (len [x]) with 1 in Hn.
  f_equal. symmetry. apply slice_app_l'. lia.
Qed.

(** Constant-time comparison with a string of zero bytes. *)
Lemma shiftr_zero_low (x j : Z) :
  0 <= x -> 0 <= j -> Z.shiftr x j = 0 -> x < 2 ^ j.
Proof.
  intros Hx Hj H. rewrite Z.shiftr_div_pow2 in H by lia.
  assert (0 < 2 ^ j) by (apply Z.pow_pos_nonneg; lia).
  pose proof (Z.div_mod x (2 ^ j) ltac:(lia)).
  pose proof (Z.mod_pos_bound x (2 ^ j) ltac:(lia)). nia.
Qed.

(** Masking is undone by unmasking with the cleared mask when the masked
    block has no bit among the cleared ones. *)
Lemma remask_cleared (zb : Z) (masked mask : bytes) (b0 : byte) (t : bytes) :
  0 <= zb <= 7 -> length masked = length mask -> masked = b0 :: t ->
  Z_of_byte b0 < 2 ^ (8 - zb) ->
  clear_top zb (xor_bytes (xor_bytes masked (clear_top zb mask)) mask)
  = masked.
Proof.
  intros Hz Hl -> Hb. destruct mask as [|m0 mt]; [discriminate|].
  cbn [xor_bytes clear_top]. f_equal.
  - apply Z_of_byte_inj. rewrite Z_of_byte_of_Z.
    pose proof (Z_of_byte_range b0) as Hb0.
    pose proof (Z_of_byte_range m0) as Hm0.
    rewrite !Z_of_xor_byte, Z_of_byte_of_Z.
    pose proof (PssFacts.land_mask_low zb _ Hz Hm0) as Hlm.
    assert (Hp : 2 ^ (8 - zb) <= 256).
    { change 256 with (2 ^ 8). apply Z.pow_le_mono_r; lia. }
    rewrite (Z.mod_small (Z.land _ (Z_of_byte m0))) by lia.
    set (M := 2 ^ (8 - zb) - 1) in *.
    assert (HM : Z.land M (Z_of_byte b0) = Z_of_byte b0).
    { unfold M. replace (2 ^ (8 - zb) - 1) with (Z.ones (8 - zb))
        by (rewrite Z.ones_equiv; lia).
      rewrite Z.land_comm, Z.land_ones by lia. apply Z.mod_small. lia. }
    assert (E : Z.land M (Z.lxor (Z.lxor (Z_of_byte b0)
                                         (Z.land M (Z_of_byte m0)))
                                 (Z_of_byte m0))
                = Z_of_byte b0).
    { rewrite <- HM at 2. apply Z.bits_inj'. intros i Hi.
      rewrite !Z.land_spec, !Z.lxor_spec, Z.land_spec.
      destruct (Z.testbit M i), (Z.testbit (Z_of_byte b0) i),
        (Z.testbit (Z_of_byte m0) i); reflexivity. }
    rewrite E. apply Z.mod_small. lia.
  - simpl in Hl.
    assert (G : forall a b : bytes, length a = length b ->
                                    xor_bytes (xor_bytes a b) b = a).
    { induction a as [|x a IH]; intros [|y b] H; simpl in *;
        try discriminate; [reflexivity|].
      rewrite PssFacts.xor_byte_cancel, IH; [reflexivity|lia]. }
    apply G. lia.
Qed.

(** X6.  Soundness of the verification for a salt length above 0.  A
    signature that [verify_pss_padding] accepts begins with the
    [em_len - 1] bytes [maskedDB || H'] of the EMSA-PSS encoding of the
    message for some salt of [salt_length] bytes, and ends in 0xBC; when
    it has exactly [em_len] bytes it is that encoding. *)
Theorem verify_pss_padding_sound (h : string) (s k : Z) (m sig : bytes) :
  0 < s ->
  verify_pss_padding hashlib h s k m sig = Return true ->
  exists salt,
    len salt = s
    /\ slice sig 0 (em_len k - 1)
       = encoded_masked_db hashlib h salt k m ++ encoded_digest hashlib h salt m
    /\ slice_from sig (-1) = [xbc]
    /\ (len sig = em_len k -> sig = pss_encode hashlib h salt k m).
Proof.
  intros Hs0 H.
  pose proof (PssFacts.verify_pss_padding_true_inv hashlib digest_len
                h s k m sig H) as (Hs & _ & Hfeas & Ht & Hd).
  pose proof (digest_size_bounds h Hs) as Hb.
  pose proof (PssFacts.zero_bits_range k) as Hz.
  set (L := digest_size h) in *. set (mdl := em_len k - L - 1) in *.
  apply slice_full_length in Hd; [|unfold mdl; lia|lia].
  revert H. unfold verify_pss_padding.
  destruct (recover_db hashlib h s k m sig) as [[db|]|e] eqn:Er;
    cbn [bind]; try discriminate.
  cbv zeta. fold (em_len k). rewrite !digest_len by exact Hs.
  fold L mdl.
  destruct (constant_compare (slice db 0 (em_len k - L - s - 2)) _) eqn:Ez;
    cbn [negb]; [|discriminate].
  destruct (bytes_eqb (slice db _ _) [x01]) eqn:E1; cbn [negb];
    [|discriminate].
  intros H. apply TlsFacts.Return_inj in H.
  apply constant_compare_eq in Ez, H. apply bytes_eqb_eq in E1.
  set (zl := em_len k - L - s - 2) in *.
  (* the checks of [recover_db] *)
  assert (R : exists b0 t mask,
    slice sig 0 mdl = b0 :: t
    /\ Z.shiftr (Z_of_byte b0) (8 - zero_bits k) = 0
    /\ mgf1 hashlib h (slice sig mdl (mdl + L)) mdl = Return mask
    /\ db = xor_bytes (slice sig 0 mdl) (clear_top (zero_bits k) mask)).
  { revert Er. unfold recover_db. fold (em_len k).
    rewrite (ltb_false s 0), Hs by lia. cbn [negb]. cbv zeta.
    rewrite !digest_len by exact Hs. fold L mdl.
    rewrite (ltb_false (em_len k) (L + s + 2)) by lia.
    rewrite Ht, bytes_eqb_refl. cbn [negb].
    assert (Hne : sig <> []) by (intros ->; discriminate).
    destruct (PssFacts.first_byte_of_prefix sig mdl Hne
                ltac:(unfold mdl; lia)) as (b0 & Hb0 & t0 & Hsig).
    rewrite Hb0. cbn [ord bind].
    change (8 * em_len k - (k - 1)) with (zero_bits k). unfold rshift.
    rewrite (ltb_false (8 - zero_bits k) 0) by lia. cbn [bind].
    destruct (Z.shiftr (Z_of_byte b0) (8 - zero_bits k) =? 0) eqn:Eb;
      cbn [negb]; [|discriminate].
    apply Z.eqb_eq in Eb.
    destruct (mgf1 hashlib h _ mdl) as [mask|e] eqn:Em; [|discriminate].
    cbn [bind]. rewrite PssFacts.left_int_mask_of_ok by exact Hz.
    cbn [bind].
    destruct (PssFacts.mgf1_inv hashlib digest_len _ _ _ _ Em)
      as (_ & Hn & _ & Hl).
    rewrite PssFacts.mask_first_byte_ok;
      [cbn [bind]|exact Hz|
       intros E; rewrite E in Hl; change (len (@nil byte)) with 0 in Hl;
       lia].
    rewrite pad_is_fill_width. intros Hr.
    apply TlsFacts.Return_inj in Hr. injection Hr as Hr.
    assert (Hmd : len (slice sig 0 mdl) = mdl)
      by (rewrite len_slice; unfold mdl in *; lia).
    destruct (slice sig 0 mdl) as [|b1 t1] eqn:Esl;
      [change (len (@nil byte)) with 0 in Hmd; lia|].
    assert (b1 = b0).
    { rewrite ?Esl in Hb0. rewrite slice_prefix in Hb0 by lia.
      change (Z.to_nat 1) with 1%nat in Hb0. cbn [firstn] in Hb0.
      congruence. }
    subst b1. exists b0, t1, mask. repeat split; try assumption.
    rewrite <- Hr.
    replace (len (b0 :: t1)) with (len (clear_top (zero_bits k) mask))
      by (unfold len in *; rewrite PssFacts.clear_top_length; lia).
    apply fill_width_xor;
      rewrite ?PssFacts.clear_top_length; unfold len in *; lia. }
  destruct R as (b0 & t & mask & Hsl & Hbits & Em & Hdb).
  destruct (PssFacts.mgf1_inv hashlib digest_len _ _ _ _ Em)
    as (_ & Hn & Hmask & Hl).
  assert (Hmd : len (slice sig 0 mdl) = mdl)
    by (rewrite len_slice; unfold mdl in *; lia).
  assert (Hdbl : len db = mdl).
  { rewrite Hdb. unfold len in *. rewrite xor_bytes_length;
      rewrite ?PssFacts.clear_top_length; lia. }
  (* the shape of the data block *)
  set (salt := slice_from db (0 - s)) in *.
  assert (Hsalt : salt = skipn (Z.to_nat (zl + 1)) db).
  { unfold salt. rewrite slice_from_neg by (unfold mdl in *; lia).
    f_equal. unfold zl, mdl in *. lia. }
  assert (Hzl : 0 <= zl) by (unfold zl; lia).
  assert (Hshape : db = repeat x00 (Z.to_nat zl) ++ [x01] ++ salt).
  { rewrite slice_prefix in Ez by lia.
    rewrite slice_nonneg in E1 by lia.
    replace (Z.to_nat (zl + 1) - Z.to_nat zl)%nat with 1%nat in E1 by lia.
    rewrite (cut_three db (Z.to_nat zl) x01 E1), Ez, Hsalt.
    unfold bytes_mul. do 3 f_equal. lia. }
  assert (Hsl' : len salt = s).
  { rewrite Hsalt. unfold len in *. rewrite length_skipn.
    unfold zl, mdl in *. lia. }
  exists salt. split; [exact Hsl'|].
  assert (Hdbe : db = encoded_db h salt k).
  { rewrite Hshape at 1. unfold encoded_db. rewrite Hsl'.
    do 3 f_equal. unfold zl, L. lia. }
  assert (Hdig : slice sig mdl (mdl + L) = encoded_digest hashlib h salt m).
  { rewrite H. reflexivity. }
  assert (Hmdb : slice sig 0 mdl = encoded_masked_db hashlib h salt k m).
  { unfold encoded_masked_db. fold L mdl. rewrite <- Hdig, <- Hmask, <- Hdbe.
    rewrite Hdb. symmetry.
    apply (remask_cleared _ _ _ b0 t); [exact Hz| |exact Hsl|].
    - unfold len in *. lia.
    - apply shiftr_zero_low; [apply Z_of_byte_range|lia|exact Hbits]. }
  assert (Hpre : slice sig 0 (em_len k - 1)
                 = encoded_masked_db hashlib h salt k m
                   ++ encoded_digest hashlib h salt m).
  { rewrite (slice_split sig mdl (em_len k - 1)) by (unfold mdl; lia).
    rewrite Hmdb. f_equal. rewrite <- Hdig. f_equal. unfold mdl. lia. }
  split; [exact Hpre|]. split; [exact Ht|].
  intros Hlen. rewrite PssFacts.pss_encode_parts, app_assoc, <- Hpre.
  apply slice_whole_last; assumption.
Qed.

(** X7.  The outcomes of [verify_pss_padding], which has no lower bound
    on the key length: ValueError for a negative salt length and for a
    hash name outside the five, and for other arguments (a key length
    from 1 to below [2^47], where the quotient of line 151 is exact)
    the answer false when the key is too short for hash and salt, where
    [add_pss_padding] raises, and when the signature does not end in
    0xBC; a boolean and no exception as long as the mask needs at most
    [2^32] blocks. *)
Theorem verify_pss_padding_outcomes (h : string) (s k : Z) (m sig : bytes) :
  (s < 0 \/ supported h = false ->
   verify_pss_padding hashlib h s k m sig = Raise ValueError)
  /\ (0 <= s -> supported h = true -> 1 <= k < 2 ^ 47 ->
      (em_len k < digest_size h + s + 2 ->
       verify_pss_padding hashlib h s k m sig = Return false)
      /\ (slice_from sig (-1) <> [xbc] ->
          verify_pss_padding hashlib h s k m sig = Return false)
      /\ (em_len k - digest_size h - 1 <= 2 ^ 32 * digest_size h ->
          exists b, verify_pss_padding hashlib h s k m sig = Return b)).
Proof.
  split.
  - intros H. unfold verify_pss_padding, recover_db.
    destruct (s <? 0) eqn:E0; [reflexivity|].
    destruct (supported h) eqn:Hs; [|reflexivity].
    apply Z.ltb_ge in E0. destruct H as [H|H]; [lia|discriminate].
  - intros H0 Hs _. split; [|split].
    + intros Hlt. unfold verify_pss_padding, recover_db. fold (em_len k).
      rewrite (ltb_false s 0), Hs by lia. cbn [negb]. cbv zeta.
      rewrite !digest_len by exact Hs. now rewrite ltb_true.
    + intros Ht. unfold verify_pss_padding, recover_db. fold (em_len k).
      rewrite (ltb_false s 0), Hs by lia. cbn [negb]. cbv zeta.
      rewrite !digest_len by exact Hs.
      destruct (em_len k <? digest_size h + s + 2); [reflexivity|].
      apply bytes_eqb_neq in Ht. now rewrite Ht.
    + intros Hmax. unfold verify_pss_padding.
      destruct (PssFacts.recover_db_returns hashlib digest_len h s k m sig
                  Hs H0 Hmax) as [[db|] ->];
        cbn [bind]; [|eexists; reflexivity].
      cbv zeta.
      destruct (constant_compare _ _); cbn [negb]; [|eexists; reflexivity].
      destruct (bytes_eqb _ _); cbn [negb]; eexists; reflexivity.
Qed.

End WithHashlib.

End PssMore.

(* ================================================================== *)
(** * The TLS parsers on well-formed input *)
(* ================================================================== *)

Module TlsMore.

(** Reading back what [to_bytes] wrote. *)
Lemma int_from_bytes_to_bytes (n : nat) (v : Z) :
  0 <= v < 256 ^ Z.of_nat n -> int_from_bytes (to_bytes n v) = v.
Proof.
  revert v. induction n as [|n IH]; intros v Hv.
  - change (256 ^ Z.of_nat 0) with 1 in Hv. cbv. lia.
  - cbn [to_bytes]. rewrite int_from_bytes_snoc, Z_of_byte_of_Z.
    rewrite Nat2Z.inj_succ, Z.pow_succ_r in Hv by lia.
    rewrite Z.mod_mod by lia.
    rewrite IH.
    + rewrite Z.mul_comm. symmetry. apply Z.div_mod. lia.
    + split; [apply Z.div_pos; lia|apply Z.div_lt_upper_bound; lia].
Qed.

(** A slice taken after a prefix does not see the prefix. *)
Lemma slice_app_skip {A : Type} (pre l : list A) (a b : Z) :
  0 <= a -> 0 <= b ->
  slice (pre ++ l) (len pre + a) (len pre + b) = slice l a b.
Proof.
  intros Ha Hb. pose proof (len_nonneg pre) as Hp.
  rewrite !slice_nonneg by lia. unfold len in *.
  rewrite skipn_app.
  rewrite (skipn_all2 pre) by lia. cbn [app].
  replace (Z.to_nat (Z.of_nat (length pre) + a) - length pre)%nat
    with (Z.to_nat a) by lia.
  f_equal. lia.
Qed.

Lemma find_message_shift (want pre buf : bytes) (f : nat) (p : Z) :
  0 <= p ->
  find_message want (pre ++ buf) f (len pre + p) = find_message want buf f p.
Proof.
  revert p. induction f as [|f IH]; intros p Hp.
  - cbn [find_message]. rewrite len_app.
    destruct (len pre + p <? len pre + len buf) eqn:E1;
      destruct (p <? len buf) eqn:E2; try reflexivity.
  - cbn [find_message]. rewrite len_app.
    replace (len pre + p <? len pre + len buf) with (p <? len buf)
      by (destruct (p <? len buf) eqn:E; symmetry;
          [apply Z.ltb_lt in E; apply Z.ltb_lt|
           apply Z.ltb_ge in E; apply Z.ltb_ge]; lia).
    destruct (p <? len buf); [|reflexivity].
    replace (len pre + p + 5) with (len pre + (p + 5)) by lia.
    replace (len pre + p + 6) with (len pre + (p + 6)) by lia.
    rewrite !slice_app_skip by lia.
    set (rl := int_from_bytes (slice_from (slice buf p (p + 5)) 3)).
    assert (0 <= rl) by apply int_from_bytes_range.
    replace (len pre + (p + 5) + rl) with (len pre + (p + 5 + rl)) by lia.
    rewrite slice_app_skip by lia.
    destruct (_ && _); [reflexivity|]. apply IH. lia.
Qed.

(** The loop does not depend on the fuel once it covers the buffer. *)
Lemma find_message_fuel (want buf : bytes) (f f' : nat) (p : Z) :
  len buf - p <= Z.of_nat f -> len buf - p <= Z.of_nat f' ->
  find_message want buf f p = find_message want buf f' p.
Proof.
  intros Hf Hf'. rewrite !TlsFacts.find_message_walk.
  now rewrite (TlsFacts.record_walk_fuel buf f f' p).
Qed.

Lemma encode_record_len (r : tls_record) :
  well_formed r -> len (encode_record r) = 5 + len (r_payload r).
Proof.
  intros [Hv _]. unfold encode_record, len.
  rewrite !length_app, to_bytes_length, Hv. cbn [length]. lia.
Qed.

(** One step of the scan over a well-formed record. *)
Lemma find_message_record (want : byte) (r : tls_record) (rest : bytes)
  (f : nat) :
  well_formed r -> len (encode_record r ++ rest) <= Z.of_nat f ->
  find_message [want] (encode_record r ++ rest) f 0
  = if carries want r then Some (r_payload r)
    else find_message [want] rest f 0.
Proof.
  intros Hw Hf. pose proof (encode_record_len r Hw) as Hl.
  destruct Hw as [Hv Hp].
  rewrite len_app in Hf. pose proof (len_nonneg rest) as Hr.
  rewrite (find_message_fuel [want] rest f (pred f) 0) by lia.
  destruct f as [|f]; [lia|].
  cbn [find_message].
  rewrite PssMore.ltb_true by (rewrite len_app; lia).
  set (hdr := [r_type r] ++ r_version r ++ to_bytes 2 (len (r_payload r))).
  assert (Hh : len hdr = 5).
  { unfold hdr, len. rewrite !length_app, to_bytes_length, Hv. reflexivity. }
  assert (Eb : encode_record r ++ rest = hdr ++ r_payload r ++ rest).
  { unfold encode_record, hdr. now rewrite <- !app_assoc. }
  rewrite Eb.
  assert (S1 : slice (hdr ++ r_payload r ++ rest) 0 (0 + 5) = hdr)
    by (apply slice_app_l'; exact Hh).
  rewrite S1.
  assert (S2 : slice hdr 0 1 = [r_type r]).
  { unfold hdr. rewrite slice_prefix by lia. reflexivity. }
  assert (S3 : int_from_bytes (slice_from hdr 3) = len (r_payload r)).
  { unfold hdr. rewrite slice_from_nonneg by lia.
    destruct (r_version r) as [|v1 [|v2 [|]]]; try discriminate.
    change (Z.to_nat 3) with 3%nat. cbn [app skipn].
    apply (int_from_bytes_to_bytes 2). change (256 ^ Z.of_nat 2) with (2 ^ 16).
    lia. }
  rewrite S2, S3.
  destruct (r_payload r) as [|p0 pt] eqn:Ep;
    [change (len (@nil byte)) with 0 in Hp; lia|].
  assert (S4 : slice (hdr ++ (p0 :: pt) ++ rest) (0 + 5) (0 + 6) = [p0]).
  { change (0 + 5) with 5. change (0 + 6) with (5 + 1).
    change ((p0 :: pt) ++ rest) with ([p0] ++ (pt ++ rest)).
    apply slice_app_mid'; [exact Hh|reflexivity]. }
  rewrite S4.
  assert (S5 : slice (hdr ++ (p0 :: pt) ++ rest) (0 + 5)
                     (0 + 5 + len (p0 :: pt)) = p0 :: pt).
  { change (0 + 5) with 5. apply slice_app_mid'; [exact Hh|reflexivity]. }
  rewrite S5. unfold carries. rewrite Ep. cbn [bytes_eqb].
  rewrite !andb_true_r.
  destruct (Byte.eqb (r_type r) x16 && Byte.eqb p0 want); [reflexivity|].
  rewrite app_assoc.
  replace (0 + 5 + len (p0 :: pt)) with (len (hdr ++ p0 :: pt) + 0)
    by (rewrite len_app; lia).
  rewrite find_message_shift by lia. reflexivity.
Qed.

(** The scan over a stream of well-formed records stops at the first
    record that carries the requested message. *)
Lemma find_message_records (want : byte) (rs : list tls_record)
  (tail : bytes) (f : nat) :
  Forall well_formed rs ->
  len (encode_records rs ++ tail) <= Z.of_nat f ->
  find_message [want] (encode_records rs ++ tail) f 0
  = match find (carries want) rs with
    | Some r => Some (r_payload r)
    | None => find_message [want] tail f 0
    end.
Proof.
  intros Hw. induction Hw as [|r rs Hr _ IH]; intros Hf; [reflexivity|].
  unfold encode_records in *. cbn [map concat find] in *.
  rewrite <- app_assoc in *.
  rewrite find_message_record by assumption.
  destruct (carries want r); [reflexivity|].
  apply IH. rewrite len_app in Hf.
  pose proof (len_nonneg (encode_record r)). lia.
Qed.

Lemma find_message_nil (want : bytes) (f : nat) (p : Z) :
  0 <= p -> find_message want [] f p = None.
Proof.
  intros Hp. destruct f; cbn [find_message];
    rewrite PssMore.ltb_false by (change (len (@nil byte)) with 0; lia);
    reflexivity.
Qed.

Lemma find_message_of_records (want : byte) (rs : list tls_record) :
  Forall well_formed rs ->
  find_message [want] (encode_records rs) (length (encode_records rs)) 0
  = option_map r_payload (find (carries want) rs).
Proof.
  intros Hw.
  pose proof (find_message_records want rs [] (length (encode_records rs)) Hw)
    as H.
  rewrite app_nil_r in H. rewrite H by (unfold len; lia).
  destruct (find _ rs); [reflexivity|]. apply find_message_nil. lia.
Qed.

(** X8.  On a stream of well-formed records [get_dh_params_length] reads
    the first Handshake record whose payload starts with 0x0c: the two
    bytes after the four-byte message header of that payload, as a
    big-endian integer, times eight; a p-length field holding [p] gives
    [p * 8].  When no record carries a ServerKeyExchange message the
    result is [None]. *)
Theorem get_dh_params_length_of_records (rs : list tls_record) :
  Forall well_formed rs ->
  get_dh_params_length (encode_records rs)
  = option_map (fun r => int_from_bytes (slice (r_payload r) 4 6) * 8)
               (find (carries x0c) rs)
  /\ (forall r hdr p rest,
         find (carries x0c) rs = Some r ->
         r_payload r = hdr ++ to_bytes 2 p ++ rest -> length hdr = 4%nat ->
         0 <= p < 2 ^ 16 ->
         get_dh_params_length (encode_records rs) = Some (p * 8))
  /\ (find (carries x0c) rs = None ->
      get_dh_params_length (encode_records rs) = None).
Proof.
  intros Hw. unfold get_dh_params_length.
  rewrite find_message_of_records by exact Hw.
  split; [destruct (find _ rs); reflexivity|]. split.
  - intros r hdr p rest Hf Hp Hh Hr. rewrite Hf. cbn [option_map].
    rewrite Hp. change 6 with (4 + 2).
    rewrite (slice_app_mid' hdr (to_bytes 2 p) rest 4 2)
      by (unfold len; rewrite ?to_bytes_length, ?Hh; reflexivity).
    rewrite (int_from_bytes_to_bytes 2) by exact Hr. reflexivity.
  - intros Hf. rewrite Hf. reflexivity.
Qed.

Section WithCollaborators.

Variable Certificate : Type.
Variable Certificate_load : bytes -> result Certificate.
Variable CIPHER_SUITE_MAP : list (bytes * string).

(** The certificate loop decodes a certificate list entry by entry. *)
Lemma load_certificates_encoded (certs : list bytes) (pre : bytes) (f : nat)
  (out : list Certificate) :
  Forall (fun c => len c < 2 ^ 24) certs ->
  len (encode_certificates certs) <= Z.of_nat f ->
  load_certificates Certificate Certificate_load
                    (pre ++ encode_certificates certs) f (len pre) out
  = (xs <- load_all Certificate_load certs ;; Return (out ++ xs)).
Proof.
  intros Hc. revert pre f out.
  induction Hc as [|c certs Hlen _ IH]; intros pre f out Hf.
  - unfold encode_certificates. cbn [map concat load_all bind].
    rewrite !app_nil_r.
    destruct f; cbn [load_certificates];
      rewrite PssMore.ltb_false by lia; reflexivity.
  - assert (E : encode_certificates (c :: certs)
                 = to_bytes 3 (len c) ++ c ++ encode_certificates certs).
    { unfold encode_certificates. cbn [map concat].
      now rewrite <- app_assoc. }
    rewrite E in *. clear E. cbn [load_all].
    set (rest := encode_certificates certs) in *.
    assert (H3 : len (to_bytes 3 (len c)) = 3)
      by (unfold len; rewrite to_bytes_length; reflexivity).
    rewrite !len_app, H3 in Hf.
    pose proof (len_nonneg c) as Hc0. pose proof (len_nonneg rest) as Hr0.
    pose proof (len_nonneg pre) as Hp0.
    destruct f as [|f]; [lia|].
    cbn [load_certificates].
    rewrite PssMore.ltb_true by (rewrite !len_app, H3; lia).
    rewrite (slice_app_mid' pre (to_bytes 3 (len c)) (c ++ rest) (len pre) 3)
      by (reflexivity || exact H3).
    rewrite (int_from_bytes_to_bytes 3)
      by (change (256 ^ Z.of_nat 3) with (2 ^ 24); lia).
    replace (pre ++ to_bytes 3 (len c) ++ c ++ rest)
      with ((pre ++ to_bytes 3 (len c)) ++ c ++ rest)
      by (now rewrite <- app_assoc).
    rewrite (slice_app_mid' (pre ++ to_bytes 3 (len c)) c rest
               (len pre + 3) (len c))
      by (rewrite ?len_app, ?H3; reflexivity).
    destruct (Certificate_load c) as [x|e]; [|reflexivity]. cbn [bind].
    replace ((pre ++ to_bytes 3 (len c)) ++ c ++ rest)
      with ((pre ++ to_bytes 3 (len c) ++ c) ++ rest)
      by (now rewrite <- !app_assoc).
    replace (len pre + 3 + len c) with (len (pre ++ to_bytes 3 (len c) ++ c))
      by (rewrite !len_app, H3; lia).
    rewrite IH by lia.
    destruct (load_all Certificate_load certs) as [xs|e]; [|reflexivity].
    cbn [bind]. now rewrite <- app_assoc.
Qed.

(** X9.  On a stream of well-formed records [extract_chain] takes the
    first Handshake record whose payload starts with 0x0b, skips the seven
    bytes of message type, message length and chain length, and loads the
    certificates of the list that follows one by one, in wire order; the
    first certificate that [Certificate.load] rejects makes the call
    raise that exception.  When that payload has no more than the seven
    bytes, or no record carries a Certificate message, the result is the
    empty list. *)
Theorem extract_chain_of_records (rs : list tls_record) :
  Forall well_formed rs ->
  (forall r hdr certs,
      find (carries x0b) rs = Some r ->
      r_payload r = hdr ++ encode_certificates certs -> length hdr = 7%nat ->
      Forall (fun c => len c < 2 ^ 24) certs ->
      extract_chain Certificate Certificate_load (encode_records rs)
      = load_all Certificate_load certs)
  /\ (forall r,
         find (carries x0b) rs = Some r -> len (r_payload r) <= 7 ->
         extract_chain Certificate Certificate_load (encode_records rs)
         = Return [])
  /\ (find (carries x0b) rs = None ->
      extract_chain Certificate Certificate_load (encode_records rs)
      = Return []).
Proof.
  intros Hw. unfold extract_chain.
  rewrite find_message_of_records by exact Hw. split; [|split].
  - intros r hdr certs Hf Hp Hh Hc. rewrite Hf. cbn [option_map].
    rewrite Hp.
    replace 7 with (len hdr) by (unfold len; rewrite Hh; reflexivity).
    rewrite load_certificates_encoded
      by (try exact Hc; unfold len; rewrite length_app; lia).
    destruct (load_all Certificate_load certs); reflexivity.
  - intros r Hf Hl. rewrite Hf. cbn [option_map].
    destruct (length (r_payload r)); cbn [load_certificates];
      rewrite PssMore.ltb_false by exact Hl; reflexivity.
  - intros Hf. rewrite Hf. reflexivity.
Qed.

(** ** [parse_session_info]: what the fields can be *)

(** The extension loop leaves the ticket as it was or sets it to its
    mark. *)
Lemma scan_extensions_ticket (tls_record : bytes) (extensions_end : Z)
  (mark : string) (f : nat) (start : Z) (ticket : option string) :
  scan_extensions tls_record extensions_end mark f start ticket = ticket
  \/ scan_extensions tls_record extensions_end mark f start ticket = Some mark.
Proof.
  revert start ticket. induction f as [|f IH]; intros start ticket.
  - cbn [scan_extensions]. destruct (start <? extensions_end); now left.
  - cbn [scan_extensions]. destruct (start <? extensions_end); [|now left].
    destruct (_ =? 35).
    + right. destruct (IH (start + 4 + int_from_bytes
                             (slice tls_record (start + 2) (start + 4)))
                          (Some mark)) as [H|H]; exact H.
    + apply IH.
Qed.

Lemma scan_extension_block_ticket (tls_record : bytes) (start : Z)
  (mark : string) (ticket : option string) :
  scan_extension_block tls_record start mark ticket = ticket
  \/ scan_extension_block tls_record start mark ticket = Some mark.
Proof.
  unfold scan_extension_block. destruct (start <? len tls_record); [|now left].
  apply scan_extensions_ticket.
Qed.

Lemma bytes_dict_get_raises {V : Type} (d : list (bytes * V)) (k : bytes)
  (e : exn) : bytes_dict_get d k = Raise e -> e = KeyError.
Proof.
  induction d as [|[k' v] d IH]; cbn [bytes_dict_get].
  - intros H. now injection H.
  - destruct (bytes_eqb k k'); [discriminate|exact IH].
Qed.

(** What the server block can leave behind. *)
Lemma server_block_outcome (server : bytes) :
  match server_block CIPHER_SUITE_MAP server initial_locals with
  | Return st =>
      st = initial_locals
      \/ (l_protocol st <> None /\ l_cipher_suite st <> None
          /\ (l_session_ticket st = None
              \/ l_session_ticket st = Some "new"%string)
          /\ l_client_session_id st = None)
  | Raise e => e = KeyError
  end.
Proof.
  unfold server_block.
  destruct (bytes_eqb (slice server 0 1) [x16]); [|now left].
  cbv zeta.
  destruct (bytes_eqb (slice (slice server 5 _) 0 1) [x02]); [|now left].
  destruct (bytes_dict_get protocol_table _) as [pr|e] eqn:Ep;
    [|cbn [bind]; eapply bytes_dict_get_raises; exact Ep].
  cbn [bind].
  destruct (bytes_dict_get CIPHER_SUITE_MAP _) as [cs|e] eqn:Ec;
    [|cbn [bind]; eapply bytes_dict_get_raises; exact Ec].
  cbn [bind]. right.
  cbn [l_protocol l_cipher_suite l_session_ticket l_client_session_id].
  split; [discriminate|]. split; [discriminate|]. split; [|reflexivity].
  apply scan_extension_block_ticket.
Qed.

(** The client block sets the ticket only to "reused", and only when the
    server sent neither a session id nor a ticket. *)
Lemma client_block_ticket (client : bytes) (st : locals) :
  l_session_ticket (client_block client st) = l_session_ticket st
  \/ (l_server_session_id st = None /\ l_session_ticket st = None
      /\ l_session_ticket (client_block client st) = Some "reused"%string).
Proof.
  unfold client_block.
  destruct (bytes_eqb (slice client 0 1) [x16]); [|now left].
  cbv zeta.
  destruct (bytes_eqb (slice (slice client 5 _) 0 1) [x01]); [|now left].
  cbn [l_session_ticket].
  destruct (l_server_session_id st); [now left|].
  destruct (l_session_ticket st); [now left|].
  match goal with
  | |- context [scan_extension_block ?r ?s ?m ?t] =>
      destruct (scan_extension_block_ticket r s m t) as [H|H]; rewrite H
  end; [now left|right; repeat split].
Qed.

Lemma client_block_keeps (client : bytes) (st : locals) :
  l_protocol (client_block client st) = l_protocol st
  /\ l_cipher_suite (client_block client st) = l_cipher_suite st
  /\ l_compression (client_block client st) = l_compression st
  /\ l_server_session_id (client_block client st) = l_server_session_id st.
Proof.
  unfold client_block.
  destruct (bytes_eqb (slice client 0 1) [x16]); [|repeat split].
  cbv zeta.
  destruct (bytes_eqb (slice (slice client 5 _) 0 1) [x01]); repeat split.
Qed.

(** X10.  Whatever the two buffers hold, a call of [parse_session_info]
    that returns gives "session_ticket" one of the values unset, "new",
    "reused" and "session_id" one of the same three; a "reused" ticket
    comes with an unset "session_id", and with no ticket from the server;
    a "new" ticket comes with the protocol and the cipher suite set;
    "protocol" and "cipher_suite" are set or unset together, and when
    they are unset "compression" is false and "session_id" is unset. *)
Theorem parse_session_info_fields (server client : bytes)
  (info : session_info) :
  parse_session_info CIPHER_SUITE_MAP server client = Return info ->
  (session_ticket info = None \/ session_ticket info = Some "new"%string
   \/ session_ticket info = Some "reused"%string)
  /\ (session_id info = None \/ session_id info = Some "new"%string
      \/ session_id info = Some "reused"%string)
  /\ (session_ticket info = Some "reused"%string -> session_id info = None)
  /\ (session_ticket info = Some "new"%string ->
      protocol info <> None /\ cipher_suite info <> None)
  /\ (protocol info = None <-> cipher_suite info = None)
  /\ (protocol info = None ->
      compression info = false /\ session_id info = None).
Proof.
  unfold parse_session_info.
  pose proof (server_block_outcome server) as Hs.
  destruct (server_block CIPHER_SUITE_MAP server initial_locals)
    as [st|e]; [|discriminate].
  cbn [bind]. intros H. apply Return_inj in H. subst info.
  cbn [protocol cipher_suite compression session_id session_ticket].
  destruct (client_block_keeps client st) as (Kp & Kc & Kz & Ks).
  pose proof (client_block_ticket client st) as Ht.
  rewrite Kp, Kc, Kz.
  assert (Hid : reconcile (client_block client st) = None
                \/ reconcile (client_block client st) = Some "new"%string
                \/ reconcile (client_block client st) = Some "reused"%string).
  { unfold reconcile.
    destruct (l_server_session_id (client_block client st)); [|now left].
    destruct (l_client_session_id (client_block client st));
      [|right; left; reflexivity].
    destruct (negb _); [right; left|right; right]; reflexivity. }
  assert (Hnone : l_server_session_id st = None ->
                  reconcile (client_block client st) = None).
  { intros E. unfold reconcile. rewrite Ks, E. reflexivity. }
  destruct Hs as [->|(Hp & Hc & Hn & _)].
  - cbn [l_protocol l_cipher_suite l_compression l_session_ticket
         l_server_session_id initial_locals] in Ht, Hnone |- *.
    specialize (Hnone eq_refl). rewrite Hnone.
    split; [|split; [now left|split; [reflexivity|split; [|split]]]].
    + destruct Ht as [->|(_ & _ & ->)]; [now left|now (right; right)].
    + destruct Ht as [->|(_ & _ & ->)]; discriminate.
    + split; reflexivity.
    + intros _. split; reflexivity.
  - split; [|split; [exact Hid|split; [|split; [|split]]]].
    + destruct Ht as [->|(_ & _ & ->)]; [|now (right; right)].
      destruct Hn as [->| ->]; [now left|now (right; left)].
    + destruct Ht as [->|(E & _ & _)]; [|intros _; exact (Hnone E)].
      destruct Hn as [->| ->]; discriminate.
    + intros _. split; assumption.
    + split; intros E; contradiction.
    + intros E. contradiction.
Qed.

(** The server block in terms of the first record of the buffer. *)
Lemma server_block_skips (server : bytes) (st : locals) :
  bytes_eqb (slice server 0 1) [x16]
  && bytes_eqb (slice (payload_at server 0) 0 1) [x02] = false ->
  server_block CIPHER_SUITE_MAP server st = Return st.
Proof.
  unfold server_block, payload_at, record_length_at.
  change (0 + 5) with 5.
  destruct (bytes_eqb (slice server 0 1) [x16]); [|reflexivity].
  cbv zeta.
  destruct (bytes_eqb (slice (slice server 5 _) 0 1) [x02]);
    [discriminate|reflexivity].
Qed.

(** X11.  [parse_session_info] raises nothing but [KeyError], and only
    when the server buffer starts with a Handshake record whose payload
    starts with the message type 2 (ServerHello); the client buffer has no
    part in it.  On any other server buffer the call returns, with
    "protocol", "cipher_suite" and "session_id" unset, "compression"
    false and "session_ticket" unset or "reused". *)
Theorem parse_session_info_raises_on_server_hello_only
  (server client : bytes) :
  (forall e,
      parse_session_info CIPHER_SUITE_MAP server client = Raise e ->
      e = KeyError
      /\ slice server 0 1 = [x16]
      /\ slice (payload_at server 0) 0 1 = [x02]
      /\ forall client',
           parse_session_info CIPHER_SUITE_MAP server client' = Raise e)
  /\ (slice server 0 1 <> [x16] \/ slice (payload_at server 0) 0 1 <> [x02] ->
      exists info,
        parse_session_info CIPHER_SUITE_MAP server client = Return info
        /\ protocol info = None /\ cipher_suite info = None
        /\ compression info = false /\ session_id info = None
        /\ (session_ticket info = None
            \/ session_ticket info = Some "reused"%string)).
Proof.
  split.
  - intros e H. unfold parse_session_info in *.
    pose proof (server_block_outcome server) as Ho.
    destruct (bytes_eqb (slice server 0 1) [x16]
              && bytes_eqb (slice (payload_at server 0) 0 1) [x02]) eqn:Eb.
    + apply andb_true_iff in Eb. destruct Eb as [E1 E2].
      apply bytes_eqb_eq in E1. apply bytes_eqb_eq in E2.
      destruct (server_block CIPHER_SUITE_MAP server initial_locals)
        as [st|e']; [discriminate|].
      cbn [bind] in *. injection H as ->. subst e.
      repeat split; try assumption.
    + rewrite server_block_skips in H by exact Eb. discriminate.
  - intros Hn.
    assert (Eb : bytes_eqb (slice server 0 1) [x16]
                 && bytes_eqb (slice (payload_at server 0) 0 1) [x02] = false).
    { apply andb_false_iff.
      destruct Hn as [Hn|Hn]; [left|right]; apply bytes_eqb_neq; exact Hn. }
    unfold parse_session_info. rewrite server_block_skips by exact Eb.
    cbn [bind]. eexists. split; [reflexivity|].
    cbn [protocol cipher_suite compression session_id session_ticket].
    destruct (client_block_keeps client initial_locals) as (Kp & Kc & Kz & Ks).
    rewrite Kp, Kc, Kz. unfold reconcile. rewrite Ks.
    repeat split.
    destruct (client_block_ticket client initial_locals)
      as [->|(_ & _ & ->)]; [now left|now right].
Qed.

Lemma bytes_dict_get_key_length {V : Type} (d : list (bytes * V))
  (k : bytes) (n : nat) :
  Forall (fun kv => length (fst kv) = n) d -> length k <> n ->
  bytes_dict_get d k = Raise KeyError.
Proof.
  intros Hd Hk. induction Hd as [|[k' v] d Hk' _ IH]; [reflexivity|].
  cbn [bytes_dict_get]. destruct (bytes_eqb k k') eqn:E; [|exact IH].
  apply bytes_eqb_eq in E. subst k'. cbn [fst] in Hk'. contradiction.
Qed.

(** The header and the payload of a well-formed record, as the parsers
    slice them out of a buffer. *)
Lemma encode_record_parts (r : tls_record) (rest : bytes) :
  well_formed r ->
  slice (encode_record r ++ rest) 0 1 = [r_type r]
  /\ int_from_bytes (slice_from (slice (encode_record r ++ rest) 0 5) 3)
     = len (r_payload r)
  /\ slice (encode_record r ++ rest) 5 (5 + len (r_payload r)) = r_payload r.
Proof.
  intros [Hv Hp].
  set (hdr := [r_type r] ++ r_version r ++ to_bytes 2 (len (r_payload r))).
  assert (Hh : len hdr = 5).
  { unfold hdr, len. rewrite !length_app, to_bytes_length, Hv. reflexivity. }
  assert (Eb : encode_record r ++ rest = hdr ++ r_payload r ++ rest).
  { unfold encode_record, hdr. now rewrite <- !app_assoc. }
  rewrite Eb. split; [|split].
  - unfold hdr. rewrite slice_prefix by lia. reflexivity.
  - rewrite (slice_app_l' hdr _ 5) by exact Hh.
    unfold hdr. rewrite slice_from_nonneg by lia.
    destruct (r_version r) as [|v1 [|v2 [|]]]; try discriminate.
    change (Z.to_nat 3) with 3%nat. cbn [app skipn].
    apply (int_from_bytes_to_bytes 2). change (256 ^ Z.of_nat 2) with (2 ^ 16).
    lia.
  - apply slice_app_mid'; [exact Hh|reflexivity].
Qed.

(** X12.  A ServerHello cut short raises: when the cipher suite table has
    two-byte keys only, a well-formed Handshake record whose payload
    starts with the message type 2 and has fewer than 41 bytes (message
    header, version, random, session id length and cipher suite need
    that many) makes [parse_session_info] raise [KeyError], whatever
    follows the record and whatever the client buffer holds. *)
Theorem parse_session_info_truncated_server_hello (r : tls_record)
  (rest client : bytes) :
  Forall (fun kv => length (fst kv) = 2%nat) CIPHER_SUITE_MAP ->
  well_formed r -> carries x02 r = true -> len (r_payload r) < 41 ->
  parse_session_info CIPHER_SUITE_MAP (encode_record r ++ rest) client
  = Raise KeyError.
Proof.
  intros HM Hw Hc Hl.
  destruct (encode_record_parts r rest Hw) as (P1 & P2 & P3).
  unfold carries in Hc. apply andb_true_iff in Hc. destruct Hc as [Ht Hb].
  apply Byte.byte_dec_bl in Ht.
  unfold parse_session_info, server_block.
  rewrite P1, P2, P3, Ht. cbn [bytes_eqb andb Byte.eqb]. cbv zeta.
  destruct (r_payload r) as [|b0 pl] eqn:Ep; [discriminate|].
  apply Byte.byte_dec_bl in Hb. subst b0.
  rewrite slice_prefix by lia. cbn [firstn Z.to_nat Pos.to_nat Pos.iter_op
    Nat.add bytes_eqb andb]. 
  change (bytes_eqb [x02] [x02]) with true. cbv iota.
  destruct (bytes_dict_get protocol_table _) as [pr|e] eqn:Epr.
  - cbn [bind].
    set (n := int_from_bytes (slice (x02 :: pl) 38 39)).
    assert (Hn : 0 <= n) by apply int_from_bytes_range.
    rewrite (bytes_dict_get_key_length CIPHER_SUITE_MAP _ 2 HM);
      [reflexivity|].
    pose proof (len_slice_le (x02 :: pl) (39 + n) (39 + n + 2)
                  ltac:(lia) ltac:(lia)) as Hle.
    intros Hlen.
    assert (Hfull : len (slice (x02 :: pl) (39 + n) (39 + n + 2)) = 2)
      by (unfold len; rewrite Hlen; reflexivity).
    apply slice_full_length in Hfull; lia.
  - cbn [bind]. apply bytes_dict_get_raises in Epr. now subst e.
Qed.

(** ** Decoding hello messages *)

Lemma slice_field {A : Type} (l pre x post : list A) (a b : Z) :
  l = pre ++ x ++ post -> len pre = a -> a + len x = b -> slice l a b = x.
Proof. intros -> <- <-. apply slice_app_mid. Qed.

Lemma int_from_bytes_one (n : Z) :
  0 <= n < 256 -> int_from_bytes [byte_of_Z n] = n.
Proof.
  intros Hn. unfold int_from_bytes. cbn [fold_left].
  rewrite Z_of_byte_of_Z, Z.mod_small by lia. lia.
Qed.

Lemma encode_extension_len (e : Z * bytes) :
  len (encode_extension e) = 4 + len (snd e).
Proof.
  unfold encode_extension, len. rewrite !length_app, !to_bytes_length. lia.
Qed.

(** The extension loop over encoded extensions: the mark is set exactly
    when one of them has type 35. *)
Lemma scan_extensions_encoded (es : list (Z * bytes)) (pre post : bytes)
  (mark : string) (f : nat) (ticket : option string) :
  Forall (fun e => 0 <= fst e < 2 ^ 16 /\ len (snd e) < 2 ^ 16) es ->
  len (encode_extensions es) <= Z.of_nat f ->
  scan_extensions (pre ++ encode_extensions es ++ post)
                  (len pre + len (encode_extensions es)) mark f (len pre)
                  ticket
  = if existsb (fun e => fst e =? 35) es then Some mark else ticket.
Proof.
  intros Hes. revert pre f ticket.
  induction Hes as [|e es [Ht Hd] _ IH]; intros pre f ticket Hf.
  - change (encode_extensions []) with (@nil byte).
    change (len (@nil byte)) with 0. cbn [existsb].
    destruct f; cbn [scan_extensions];
      rewrite PssMore.ltb_false by lia; reflexivity.
  - assert (E : encode_extensions (e :: es)
                 = encode_extension e ++ encode_extensions es) by reflexivity.
    rewrite E in *. clear E.
    rewrite (len_app (encode_extension e)) in *.
    pose proof (encode_extension_len e) as He.
    pose proof (len_nonneg (snd e)) as Hd0.
    pose proof (len_nonneg (encode_extensions es)) as Hr0.
    unfold bytes in *.
    destruct f as [|f]; [lia|].
    cbn [scan_extensions]. rewrite PssMore.ltb_true by lia.
    set (buf := pre ++ (encode_extension e ++ encode_extensions es) ++ post).
    assert (T : slice buf (len pre) (len pre + 2) = to_bytes 2 (fst e)).
    { apply (slice_field buf pre _
               (to_bytes 2 (len (snd e)) ++ snd e ++ encode_extensions es
                  ++ post)).
      - unfold buf, encode_extension. now rewrite <- !app_assoc.
      - reflexivity.
      - unfold len. rewrite to_bytes_length. lia. }
    assert (L : slice buf (len pre + 2) (len pre + 4)
                = to_bytes 2 (len (snd e))).
    { apply (slice_field buf (pre ++ to_bytes 2 (fst e)) _
               (snd e ++ encode_extensions es ++ post)).
      - unfold buf, encode_extension. now rewrite <- !app_assoc.
      - unfold len. rewrite length_app, to_bytes_length. lia.
      - unfold len. rewrite to_bytes_length. lia. }
    rewrite T, L.
    rewrite !(int_from_bytes_to_bytes 2)
      by (change (256 ^ Z.of_nat 2) with (2 ^ 16); lia).
    assert (B : buf = (pre ++ encode_extension e) ++ encode_extensions es
                        ++ post)
      by (unfold buf; now rewrite <- !app_assoc).
    rewrite B.
    replace (len pre + 4 + len (snd e)) with (len (pre ++ encode_extension e))
      by (rewrite len_app; lia).
    replace (len pre + (len (encode_extension e) + len (encode_extensions es)))
      with (len (pre ++ encode_extension e) + len (encode_extensions es))
      by (rewrite len_app; lia).
    rewrite IH by lia. cbn [existsb].
    destruct (fst e =? 35); cbn [orb]; [|reflexivity].
    destruct (existsb _ es); reflexivity.
Qed.

(** The optional extensions block at the end of a hello message. *)
Lemma scan_extension_block_encoded (es : option (list (Z * bytes)))
  (pre : bytes) (mark : string) (ticket : option string) :
  extensions_ok es ->
  scan_extension_block (pre ++ encode_extension_block es) (len pre) mark
                       ticket
  = if offers_ticket es then Some mark else ticket.
Proof.
  intros Hok. unfold scan_extension_block.
  destruct es as [es|]; cbn [encode_extension_block offers_ticket].
  - destruct Hok as [Hl Hes].
    set (L := len (encode_extensions es)) in *.
    assert (HL : 0 <= L) by apply len_nonneg.
    assert (H2 : len (to_bytes 2 L) = 2)
      by (unfold len; rewrite to_bytes_length; reflexivity).
    rewrite PssMore.ltb_true by (rewrite !len_app, H2; fold L; lia).
    cbv zeta.
    rewrite (slice_field _ pre (to_bytes 2 L) (encode_extensions es)
               (len pre) (len pre + 2))
      by (reflexivity || (rewrite H2; reflexivity)).
    rewrite (int_from_bytes_to_bytes 2)
      by (change (256 ^ Z.of_nat 2) with (2 ^ 16); lia).
    replace (pre ++ to_bytes 2 L ++ encode_extensions es)
      with ((pre ++ to_bytes 2 L) ++ encode_extensions es ++ [])
      by (now rewrite app_nil_r, <- app_assoc).
    replace (len pre + 2) with (len (pre ++ to_bytes 2 L))
      by (rewrite len_app, H2; reflexivity).
    unfold L. apply scan_extensions_encoded; [exact Hes|]. lia.
  - rewrite app_nil_r. rewrite PssMore.ltb_false by lia. reflexivity.
Qed.

Lemma present_length (session_id : bytes) :
  (if len session_id >? 0 then Some session_id else None)
  = present session_id.
Proof. destruct session_id; reflexivity. Qed.

(** The server block on a record that holds an encoded ServerHello. *)
Lemma server_block_encoded (f : server_hello_fields) (r : tls_record)
  (rest : bytes) :
  server_hello_ok f -> well_formed r -> r_type r = x16 ->
  r_payload r = encode_server_hello f ->
  server_block CIPHER_SUITE_MAP (encode_record r ++ rest) initial_locals
  = (pr <- bytes_dict_get protocol_table (sh_version f) ;;
     cs <- bytes_dict_get CIPHER_SUITE_MAP (sh_cipher_suite f) ;;
     Return {| l_protocol := Some pr;
               l_cipher_suite := Some cs;
               l_compression := negb (Byte.eqb (sh_compression f) x00);
               l_session_ticket :=
                 if offers_ticket (sh_extensions f) then Some "new"%string
                 else None;
               l_server_session_id := present (sh_session_id f);
               l_client_session_id := None |}).
Proof.
  intros (Hv & Hr & Hs & Hc & He) Hw Ht Hp.
  destruct (encode_record_parts r rest Hw) as (P1 & P2 & P3).
  unfold server_block. rewrite P1, P2, P3, Ht, Hp.
  change (bytes_eqb [x16] [x16]) with true. cbv iota zeta.
  set (body := server_hello_body f).
  set (h := [x02] ++ to_bytes 3 (len body)).
  set (n := len (sh_session_id f)) in *.
  assert (Hn : 0 <= n) by apply len_nonneg.
  set (sl := [byte_of_Z n]).
  set (blk := encode_extension_block (sh_extensions f)).
  assert (Lh : len h = 4)
    by (unfold h, len; rewrite length_app, to_bytes_length; reflexivity).
  assert (Lv : len (sh_version f) = 2) by (unfold len; now rewrite Hv).
  assert (Lr : len (sh_random f) = 32) by (unfold len; now rewrite Hr).
  assert (Lc : len (sh_cipher_suite f) = 2) by (unfold len; now rewrite Hc).
  assert (Ls : len sl = 1) by reflexivity.
  assert (E : encode_server_hello f
              = h ++ sh_version f ++ sh_random f ++ sl ++ sh_session_id f
                  ++ sh_cipher_suite f ++ [sh_compression f] ++ blk).
  { unfold encode_server_hello, h. fold body. unfold body, server_hello_body.
    now rewrite <- !app_assoc. }
  set (msg := encode_server_hello f) in *.
  assert (S0 : slice msg 0 1 = [x02]).
  { unfold msg, encode_server_hello. rewrite slice_prefix by lia.
    reflexivity. }
  assert (S1 : slice msg 4 6 = sh_version f).
  { apply (slice_field msg h _ (sh_random f ++ sl ++ sh_session_id f
             ++ sh_cipher_suite f ++ [sh_compression f] ++ blk));
      [exact E|lia|lia]. }
  assert (S2 : slice msg 38 39 = sl).
  { apply (slice_field msg (h ++ sh_version f ++ sh_random f) _
             (sh_session_id f ++ sh_cipher_suite f ++ [sh_compression f]
                ++ blk)).
    - rewrite E. now rewrite <- !app_assoc.
    - rewrite !len_app. lia.
    - lia. }
  assert (S3 : slice msg 39 (39 + n) = sh_session_id f).
  { apply (slice_field msg (h ++ sh_version f ++ sh_random f ++ sl) _
             (sh_cipher_suite f ++ [sh_compression f] ++ blk)).
    - rewrite E. now rewrite <- !app_assoc.
    - rewrite !len_app. lia.
    - reflexivity. }
  assert (S4 : slice msg (39 + n) (39 + n + 2) = sh_cipher_suite f).
  { apply (slice_field msg
             (h ++ sh_version f ++ sh_random f ++ sl ++ sh_session_id f) _
             ([sh_compression f] ++ blk)).
    - rewrite E. now rewrite <- !app_assoc.
    - rewrite !len_app. fold n. lia.
    - lia. }
  assert (S5 : slice msg (39 + n + 2) (39 + n + 2 + 1) = [sh_compression f]).
  { apply (slice_field msg
             (h ++ sh_version f ++ sh_random f ++ sl ++ sh_session_id f
                ++ sh_cipher_suite f) _ blk).
    - rewrite E. now rewrite <- !app_assoc.
    - rewrite !len_app. fold n. lia.
    - reflexivity. }
  rewrite S0. change (bytes_eqb [x02] [x02]) with true. cbv iota.
  assert (I : int_from_bytes sl = n) by (apply int_from_bytes_one; lia).
  rewrite S1, S2, !I.
  rewrite S3, S4, S5.
  destruct (bytes_dict_get protocol_table (sh_version f)) as [pr|e];
    [|reflexivity].
  cbn [bind].
  destruct (bytes_dict_get CIPHER_SUITE_MAP (sh_cipher_suite f)) as [cs|e];
    [|reflexivity].
  cbn [bind]. f_equal.
  assert (B : msg = (h ++ sh_version f ++ sh_random f ++ sl ++ sh_session_id f
                       ++ sh_cipher_suite f ++ [sh_compression f]) ++ blk)
    by (rewrite E; now rewrite <- !app_assoc).
  assert (LB : len (h ++ sh_version f ++ sh_random f ++ sl ++ sh_session_id f
                      ++ sh_cipher_suite f ++ [sh_compression f])
               = 39 + n + 2 + 1).
  { rewrite !len_app. fold n. change (len [sh_compression f]) with 1. lia. }
  rewrite B at 1. rewrite <- LB.
  unfold blk. rewrite scan_extension_block_encoded by exact He.
  cbn [l_session_ticket l_server_session_id initial_locals bytes_eqb].
  rewrite andb_true_r. unfold n. rewrite present_length. reflexivity.
Qed.

(** The client block on a record that holds an encoded ClientHello. *)
Lemma client_block_encoded (f : client_hello_fields) (r : tls_record)
  (rest : bytes) (st : locals) :
  client_hello_ok f -> well_formed r -> r_type r = x16 ->
  r_payload r = encode_client_hello f ->
  client_block (encode_record r ++ rest) st
  = {| l_protocol := l_protocol st;
       l_cipher_suite := l_cipher_suite st;
       l_compression := l_compression st;
       l_session_ticket :=
         match l_server_session_id st, l_session_ticket st with
         | None, None =>
             if offers_ticket (ch_extensions f) then Some "reused"%string
             else None
         | _, _ => l_session_ticket st
         end;
       l_server_session_id := l_server_session_id st;
       l_client_session_id :=
         match ch_session_id f with
         | [] => l_client_session_id st
         | _ => Some (ch_session_id f)
         end |}.
Proof.
  intros (Hv & Hr & Hs & Hc & Hm & He) Hw Ht Hp.
  destruct (encode_record_parts r rest Hw) as (P1 & P2 & P3).
  unfold client_block. rewrite P1, P2, P3, Ht, Hp.
  change (bytes_eqb [x16] [x16]) with true. cbv iota zeta.
  set (body := client_hello_body f).
  set (h := [x01] ++ to_bytes 3 (len body)).
  set (n := len (ch_session_id f)) in *.
  set (c := len (ch_cipher_suites f)) in *.
  set (m := len (ch_compression_methods f)) in *.
  assert (Hn : 0 <= n) by apply len_nonneg.
  assert (Hc0 : 0 <= c) by apply len_nonneg.
  assert (Hm0 : 0 <= m) by apply len_nonneg.
  set (sl := [byte_of_Z n]).
  set (cl := to_bytes 2 c).
  set (ml := [byte_of_Z m]).
  set (blk := encode_extension_block (ch_extensions f)).
  assert (Lh : len h = 4)
    by (unfold h, len; rewrite length_app, to_bytes_length; reflexivity).
  assert (Lv : len (ch_version f) = 2) by (unfold len; now rewrite Hv).
  assert (Lr : len (ch_random f) = 32) by (unfold len; now rewrite Hr).
  assert (Ls : len sl = 1) by reflexivity.
  assert (Lm : len ml = 1) by reflexivity.
  assert (Lc : len cl = 2)
    by (unfold cl, len; rewrite to_bytes_length; reflexivity).
  assert (E : encode_client_hello f
              = h ++ ch_version f ++ ch_random f ++ sl ++ ch_session_id f
                  ++ cl ++ ch_cipher_suites f ++ ml
                  ++ ch_compression_methods f ++ blk).
  { unfold encode_client_hello, h. fold body. unfold body, client_hello_body.
    now rewrite <- !app_assoc. }
  set (msg := encode_client_hello f) in *.
  assert (S0 : slice msg 0 1 = [x01]).
  { unfold msg, encode_client_hello. rewrite slice_prefix by lia.
    reflexivity. }
  assert (S2 : slice msg 38 39 = sl).
  { apply (slice_field msg (h ++ ch_version f ++ ch_random f) _
             (ch_session_id f ++ cl ++ ch_cipher_suites f ++ ml
                ++ ch_compression_methods f ++ blk)).
    - rewrite E. now rewrite <- !app_assoc.
    - rewrite !len_app. lia.
    - lia. }
  assert (S3 : slice msg 39 (39 + n) = ch_session_id f).
  { apply (slice_field msg (h ++ ch_version f ++ ch_random f ++ sl) _
             (cl ++ ch_cipher_suites f ++ ml ++ ch_compression_methods f
                ++ blk)).
    - rewrite E. now rewrite <- !app_assoc.
    - rewrite !len_app. lia.
    - reflexivity. }
  assert (S4 : slice msg (39 + n) (39 + n + 2) = cl).
  { apply (slice_field msg
             (h ++ ch_version f ++ ch_random f ++ sl ++ ch_session_id f) _
             (ch_cipher_suites f ++ ml ++ ch_compression_methods f ++ blk)).
    - rewrite E. now rewrite <- !app_assoc.
    - rewrite !len_app. fold n. lia.
    - lia. }
  assert (S5 : slice msg (39 + n + 2 + c) (39 + n + 2 + c + 1) = ml).
  { apply (slice_field msg
             (h ++ ch_version f ++ ch_random f ++ sl ++ ch_session_id f
                ++ cl ++ ch_cipher_suites f) _
             (ch_compression_methods f ++ blk)).
    - rewrite E. now rewrite <- !app_assoc.
    - rewrite !len_app. fold n c. lia.
    - lia. }
  assert (I : int_from_bytes sl = n) by (apply int_from_bytes_one; lia).
  assert (J : int_from_bytes cl = c)
    by (apply (int_from_bytes_to_bytes 2);
        change (256 ^ Z.of_nat 2) with (2 ^ 16); lia).
  assert (K : int_from_bytes ml = m) by (apply int_from_bytes_one; lia).
  rewrite S0. change (bytes_eqb [x01] [x01]) with true. cbv iota.
  rewrite S2, !I, S3, S4, !J, S5, !K.
  assert (B : msg = (h ++ ch_version f ++ ch_random f ++ sl ++ ch_session_id f
                       ++ cl ++ ch_cipher_suites f ++ ml
                       ++ ch_compression_methods f) ++ blk)
    by (rewrite E; now rewrite <- !app_assoc).
  assert (LB : len (h ++ ch_version f ++ ch_random f ++ sl ++ ch_session_id f
                      ++ cl ++ ch_cipher_suites f ++ ml
                      ++ ch_compression_methods f)
               = 39 + n + 2 + c + 1 + m).
  { rewrite !len_app. fold n c m. lia. }
  f_equal.
  - destruct (l_server_session_id st); [reflexivity|].
    destruct (l_session_ticket st); [reflexivity|].
    rewrite B, <- LB. unfold blk.
    now rewrite scan_extension_block_encoded by exact He.
  - unfold n. destruct (ch_session_id f); reflexivity.
Qed.

(** X13.  A ServerHello is read back field by field.  For a well-formed
    Handshake record that holds an encoded ServerHello, whatever follows
    it and whatever the client buffer holds: the call raises [KeyError]
    when the version is not one of the five known or the cipher suite
    is not in the table; otherwise it returns the names of the version
    and of the cipher suite, "compression" true exactly when the
    compression byte is not 0, "session_ticket" "new" exactly when an
    extension of type 35 is present, and "session_id" by the table from
    the message's session id and the client's. *)
Theorem parse_session_info_server_hello (f : server_hello_fields)
  (r : tls_record) (rest client : bytes) :
  server_hello_ok f -> well_formed r -> r_type r = x16 ->
  r_payload r = encode_server_hello f ->
  match bytes_dict_get protocol_table (sh_version f),
        bytes_dict_get CIPHER_SUITE_MAP (sh_cipher_suite f) with
  | Return pr, Return cs =>
      exists info,
        parse_session_info CIPHER_SUITE_MAP (encode_record r ++ rest) client
        = Return info
        /\ protocol info = Some pr /\ cipher_suite info = Some cs
        /\ compression info = negb (Byte.eqb (sh_compression f) x00)
        /\ session_id info
           = session_id_table (present (sh_session_id f))
                              (hello_session_id [x01] client)
        /\ (session_ticket info = Some "new"%string
            <-> offers_ticket (sh_extensions f) = true)
  | _, _ =>
      parse_session_info CIPHER_SUITE_MAP (encode_record r ++ rest) client
      = Raise KeyError
  end.
Proof.
  intros Hok Hw Ht Hp. unfold parse_session_info.
  rewrite (server_block_encoded f r rest Hok Hw Ht Hp).
  destruct (bytes_dict_get protocol_table (sh_version f)) as [pr|e] eqn:Epr.
  - destruct (bytes_dict_get CIPHER_SUITE_MAP (sh_cipher_suite f))
      as [cs|e] eqn:Ecs.
    + cbn [bind]. eexists. split; [reflexivity|].
      cbn [protocol cipher_suite compression session_id session_ticket].
      set (st := {| l_protocol := Some pr; l_cipher_suite := Some cs;
                    l_compression := _; l_session_ticket := _;
                    l_server_session_id := _; l_client_session_id := None |}).
      destruct (client_block_keeps client st) as (Kp & Kc & Kz & Ks).
      destruct (client_block_session_id client st eq_refl) as [Ci _].
      rewrite Kp, Kc, Kz, reconcile_table, Ks, Ci.
      repeat split.
      * intros Hnew.
        destruct (client_block_ticket client st) as [E|(_ & _ & E)];
          rewrite E in Hnew; [|discriminate].
        cbn [st l_session_ticket] in Hnew.
        destruct (offers_ticket (sh_extensions f)); [reflexivity|discriminate].
      * intros Ho.
        destruct (client_block_ticket client st) as [E|(_ & E & _)].
        -- rewrite E. cbn [st l_session_ticket]. now rewrite Ho.
        -- cbn [st l_session_ticket] in E. rewrite Ho in E. discriminate.
    + cbn [bind]. apply bytes_dict_get_raises in Ecs. now subst e.
  - cbn [bind]. apply bytes_dict_get_raises in Epr. now subst e.
Qed.

(** X14.  The two hello messages together.  For well-formed Handshake
    records that hold an encoded ServerHello and an encoded ClientHello,
    with a known version and cipher suite: "session_id" is unset when
    the server's session id is empty, "reused" when the client sent the
    same id and "new" otherwise; "session_ticket" is "new" when the
    ServerHello has an extension of type 35, "reused" when it has none,
    its session id is empty and the ClientHello has such an extension,
    and unset otherwise. *)
Theorem parse_session_info_hello_pair (fs : server_hello_fields)
  (fc : client_hello_fields) (rs rc : tls_record) (rest_s rest_c : bytes)
  (pr cs : string) :
  server_hello_ok fs -> well_formed rs -> r_type rs = x16 ->
  r_payload rs = encode_server_hello fs ->
  client_hello_ok fc -> well_formed rc -> r_type rc = x16 ->
  r_payload rc = encode_client_hello fc ->
  bytes_dict_get protocol_table (sh_version fs) = Return pr ->
  bytes_dict_get CIPHER_SUITE_MAP (sh_cipher_suite fs) = Return cs ->
  parse_session_info CIPHER_SUITE_MAP (encode_record rs ++ rest_s)
                     (encode_record rc ++ rest_c)
  = Return {|
      protocol := Some pr;
      cipher_suite := Some cs;
      compression := negb (Byte.eqb (sh_compression fs) x00);
      session_id :=
        match sh_session_id fs with
        | [] => None
        | _ => if bytes_eqb (ch_session_id fc) (sh_session_id fs)
               then Some "reused"%string else Some "new"%string
        end;
      session_ticket :=
        if offers_ticket (sh_extensions fs) then Some "new"%string
        else match sh_session_id fs with
             | [] => if offers_ticket (ch_extensions fc)
                     then Some "reused"%string else None
             | _ => None
             end
    |}.
Proof.
  intros Hs Hws Hts Hps Hc Hwc Htc Hpc Epr Ecs. unfold parse_session_info.
  rewrite (server_block_encoded fs rs rest_s Hs Hws Hts Hps), Epr, Ecs.
  cbn [bind].
  rewrite (client_block_encoded fc rc rest_c _ Hc Hwc Htc Hpc).
  cbn [l_protocol l_cipher_suite l_compression l_session_ticket
       l_server_session_id l_client_session_id].
  f_equal. f_equal.
  - unfold reconcile. cbn [l_server_session_id l_client_session_id].
    destruct (sh_session_id fs) as [|s0 ss]; [reflexivity|].
    cbn [present].
    destruct (ch_session_id fc) as [|c0 cc]; [reflexivity|].
    destruct (bytes_eqb (c0 :: cc) (s0 :: ss)); reflexivity.
  - destruct (sh_session_id fs) as [|s0 ss]; cbn [present];
      destruct (offers_ticket (sh_extensions fs)); reflexivity.
Qed.

End WithCollaborators.

End TlsMore.

(* ================================================================== *)
(** * The further theorems at concrete inputs *)
(* ================================================================== *)

Module MoreExamples.

(** ** EMSA-PSS *)

Lemma mgf1_outcomes_witness :
  (exists out, mgf1 Hashlib.digest "sha1" abc 43 = Return out /\ len out = 43)
  /\ mgf1 Hashlib.digest "sha1" abc (2 ^ 40) = Raise StructError
  /\ mgf1 Hashlib.digest "sha1" abc 0 = Raise ValueError.
Proof.
  split; [|split].
  - refine (proj1 (proj2 (proj2 (PssMore.mgf1_outcomes Hashlib.digest
              digest_length "sha1" abc 43))) _ _);
      [reflexivity|vm_compute; split; discriminate].
  - refine (proj2 (proj2 (proj2 (PssMore.mgf1_outcomes Hashlib.digest
              digest_length "sha1" abc (2 ^ 40)))) _ _);
      [reflexivity|vm_compute; split; reflexivity].
  - refine (proj1 (PssMore.mgf1_outcomes Hashlib.digest digest_length
              "sha1" abc 0) _). lia.
Defined.

Lemma add_pss_padding_outcomes_witness :
  (exists em,
      add_pss_padding Hashlib.digest fixed_urandom "sha1" 20 512 abc
      = Return em)
  /\ add_pss_padding Hashlib.digest fixed_urandom "sha512" 64 512 abc
     = Raise ValueError
  /\ add_pss_padding Hashlib.digest fixed_urandom "sha1" 20 (2 ^ 40) abc
     = Raise StructError.
Proof.
  split; [|split].
  - refine (proj1 (proj2 (proj2 (PssMore.add_pss_padding_outcomes
              Hashlib.digest digest_length fixed_urandom "sha1" 20 512 abc
              _) _ _ _)) _ _).
    + intros _. reflexivity.
    + lia.
    + lia.
    + reflexivity.
    + vm_compute. discriminate.
    + vm_compute. discriminate.
  - refine (proj1 (proj2 (PssMore.add_pss_padding_outcomes
              Hashlib.digest digest_length fixed_urandom "sha512" 64 512 abc
              _) _ _ _) _).
    + intros _. reflexivity.
    + lia.
    + lia.
    + reflexivity.
    + vm_compute. reflexivity.
  - refine (proj2 (proj2 (proj2 (PssMore.add_pss_padding_outcomes
              Hashlib.digest digest_length fixed_urandom "sha1" 20 (2 ^ 40)
              abc _) _ _ _)) _ _).
    + intros _. reflexivity.
    + lia.
    + lia.
    + reflexivity.
    + vm_compute. discriminate.
    + vm_compute. reflexivity.
Defined.

Lemma add_pss_padding_is_pss_encode_witness :
  em_sha1 = pss_encode Hashlib.digest "sha1" (salt_of fixed_urandom 20) 512 abc
  /\ len (salt_of fixed_urandom 20) = 20.
Proof.
  apply (PssMore.add_pss_padding_is_pss_encode Hashlib.digest digest_length
           fixed_urandom "sha1" 20 512 abc em_sha1).
  - intros _. reflexivity.
  - vm_compute. reflexivity.
Defined.

Lemma add_pss_padding_below_modulus_witness :
  0 <= int_from_bytes em_sha1 < 2 ^ (512 - 1).
Proof.
  apply (PssMore.add_pss_padding_below_modulus Hashlib.digest digest_length
           fixed_urandom "sha1" 20 512 abc em_sha1).
  - intros _. reflexivity.
  - vm_compute. reflexivity.
Defined.

Lemma verify_pss_padding_sound_witness :
  exists salt,
    len salt = 20
    /\ slice em_sha1 0 (em_len 512 - 1)
       = encoded_masked_db Hashlib.digest "sha1" salt 512 abc
           ++ encoded_digest Hashlib.digest "sha1" salt abc
    /\ slice_from em_sha1 (-1) = [xbc]
    /\ (len em_sha1 = em_len 512 ->
        em_sha1 = pss_encode Hashlib.digest "sha1" salt 512 abc).
Proof.
  apply (PssMore.verify_pss_padding_sound Hashlib.digest digest_length
           "sha1" 20 512 abc em_sha1).
  - lia.
  - vm_compute. reflexivity.
Defined.

Lemma verify_pss_padding_outcomes_witness :
  verify_pss_padding Hashlib.digest "sha1" 20 176 abc em_sha1 = Return false
  /\ verify_pss_padding Hashlib.digest "sha1" 20 512 abc [x00; xbb]
     = Return false
  /\ verify_pss_padding Hashlib.digest "sha1" (-1) 512 abc em_sha1
     = Raise ValueError.
Proof.
  split; [|split].
  - refine (proj1 (proj2 (PssMore.verify_pss_padding_outcomes Hashlib.digest
              digest_length "sha1" 20 176 abc em_sha1) _ _ _) _).
    + lia.
    + reflexivity.
    + lia.
    + vm_compute. reflexivity.
  - refine (proj1 (proj2 (proj2 (PssMore.verify_pss_padding_outcomes
              Hashlib.digest digest_length "sha1" 20 512 abc [x00; xbb])
              _ _ _)) _).
    + lia.
    + reflexivity.
    + lia.
    + discriminate.
  - refine (proj1 (PssMore.verify_pss_padding_outcomes Hashlib.digest
              digest_length "sha1" (-1) 512 abc em_sha1) _).
    left. lia.
Defined.

(** ** TLS *)

Lemma get_dh_params_length_of_records_witness :
  get_dh_params_length (encode_records [alert_record; key_exchange_record])
  = Some (256 * 8).
Proof.
  refine (proj1 (proj2 (TlsMore.get_dh_params_length_of_records
            [alert_record; key_exchange_record] _))
            key_exchange_record (Hex.unhex "0c000002") 256 [] _ _ _ _).
  - repeat constructor.
  - reflexivity.
  - reflexivity.
  - reflexivity.
  - lia.
Defined.

Lemma extract_chain_of_records_witness :
  extract_chain bytes sequence_load
                (encode_records [alert_record; certificate_record])
  = Return two_certificates.
Proof.
  refine (proj1 (TlsMore.extract_chain_of_records bytes sequence_load
            [alert_record; certificate_record] _)
            certificate_record (Hex.unhex "0b00000c000009") two_certificates
            _ _ _ _).
  - repeat constructor.
  - reflexivity.
  - reflexivity.
  - reflexivity.
  - repeat constructor.
Defined.

Lemma parse_session_info_fields_witness :
  (session_ticket resumed_by_ticket = Some "reused"%string ->
   session_id resumed_by_ticket = None)
  /\ (protocol resumed_by_ticket = None
      <-> cipher_suite resumed_by_ticket = None).
Proof.
  destruct (TlsMore.parse_session_info_fields cipher_suites plain_server
              ticket_client resumed_by_ticket)
    as (_ & _ & H3 & _ & H5 & _).
  - vm_compute. reflexivity.
  - split; assumption.
Defined.

Lemma parse_session_info_raises_on_server_hello_only_witness :
  KeyError = KeyError
  /\ slice server_hello 0 1 = [x16]
  /\ slice (payload_at server_hello 0) 0 1 = [x02]
  /\ forall client',
       parse_session_info [] server_hello client' = Raise KeyError.
Proof.
  apply (proj1 (TlsMore.parse_session_info_raises_on_server_hello_only
                  [] server_hello client_hello) KeyError).
  vm_compute. reflexivity.
Defined.

Lemma parse_session_info_truncated_server_hello_witness :
  parse_session_info cipher_suites
    (encode_record truncated_server_hello ++ encode_record key_exchange_record)
    client_hello
  = Raise KeyError.
Proof.
  apply (TlsMore.parse_session_info_truncated_server_hello cipher_suites
           truncated_server_hello (encode_record key_exchange_record)
           client_hello).
  - repeat constructor.
  - repeat constructor.
  - reflexivity.
  - reflexivity.
Defined.

Lemma parse_session_info_server_hello_witness :
  exists info,
    parse_session_info cipher_suites
      (encode_record (handshake_record (encode_server_hello
                                          ticket_server_hello))
         ++ encode_record key_exchange_record)
      client_hello
    = Return info
    /\ protocol info = Some "TLSv1.2"%string
    /\ cipher_suite info = Some "TLS_RSA_WITH_AES_128_CBC_SHA"%string
    /\ compression info = false
    /\ session_id info = Some "reused"%string
    /\ (session_ticket info = Some "new"%string <-> true = true).
Proof.
  refine (TlsMore.parse_session_info_server_hello cipher_suites
            ticket_server_hello
            (handshake_record (encode_server_hello ticket_server_hello))
            (encode_record key_exchange_record) client_hello _ _ _ _).
  - repeat first [split | apply Forall_cons | apply Forall_nil];
      try reflexivity; cbn; lia.
  - repeat constructor.
  - reflexivity.
  - reflexivity.
Defined.

Lemma parse_session_info_hello_pair_witness :
  parse_session_info cipher_suites plain_server ticket_client
  = Return resumed_by_ticket.
Proof.
  refine (TlsMore.parse_session_info_hello_pair cipher_suites
            plain_server_hello ticket_client_hello
            (handshake_record (encode_server_hello plain_server_hello))
            (handshake_record (encode_client_hello ticket_client_hello))
            (encode_record key_exchange_record) []
            "TLSv1.2" "TLS_RSA_WITH_AES_128_CBC_SHA" _ _ _ _ _ _ _ _ _ _).
  - repeat split; reflexivity.
  - repeat constructor.
  - reflexivity.
  - reflexivity.
  - repeat first [split | apply Forall_cons | apply Forall_nil];
      try reflexivity; cbn; lia.
  - repeat constructor.
  - reflexivity.
  - reflexivity.
  - reflexivity.
  - reflexivity.
Defined.

End MoreExamples.
